(** * uk_ui: debtor notification pipeline (app.py)

    A shallow embedding of [app.py]: the numeric normaliser [to_number],
    the column mapper [auto_map_columns] with the column pickers, the
    debtor selection, the message composer [make_body], the monitoring
    ledger ([load_monitoring_data], [save_monitoring_data],
    [add_to_monitoring]), the handler of the send button with its loop,
    the table ingestor [read_table] and the mail capability
    [send_email_smtp], followed by the properties proved about them.

    Python [str] values are sequences of Unicode code points and are
    modelled as [list N]; Python [float] values are IEEE binary64 numbers and
    are modelled with the standard library's [spec_float] at precision 53
    and maximal exponent 1024. What the code takes from libraries and
    from the world outside (lower-casing, the printing of floats, the
    reading and the writing of the ledger file, the decoders of tables,
    the SMTP server, the clock) enters as a variable of the section that
    uses it; reading and writing may raise. [pd.read_csv] has a model of
    its own for the texts that [to_csv] writes. *)

From Stdlib Require Import ZArith NArith List Bool Lia String Ascii.
From Stdlib Require Import Floats.SpecFloat.
Import ListNotations.


(* ================================================================== *)
(** ** Text *)
(* ================================================================== *)

Module Text.

(** A Python [str]: a list of code points. *)
Definition ustring := list N.

(** Source literals are written as UTF-8 byte strings and decoded once. *)
Fixpoint utf8_decode_bytes (fuel : nat) (bs : list N) : ustring :=
  match fuel with
  | O => []
  | S fuel' =>
    match bs with
    | [] => []
    | b0 :: r0 =>
      if (b0 <? 128)%N then b0 :: utf8_decode_bytes fuel' r0
      else if (b0 <? 224)%N then
        match r0 with
        | b1 :: r1 =>
          ((b0 - 192) * 64 + (b1 - 128))%N :: utf8_decode_bytes fuel' r1
        | _ => []
        end
      else if (b0 <? 240)%N then
        match r0 with
        | b1 :: b2 :: r2 =>
          ((b0 - 224) * 4096 + (b1 - 128) * 64 + (b2 - 128))%N
            :: utf8_decode_bytes fuel' r2
        | _ => []
        end
      else
        match r0 with
        | b1 :: b2 :: b3 :: r3 =>
          ((b0 - 240) * 262144 + (b1 - 128) * 4096 + (b2 - 128) * 64
             + (b3 - 128))%N :: utf8_decode_bytes fuel' r3
        | _ => []
        end
    end
  end.

Definition utf8 (s : string) : ustring :=
  let bs := map N_of_ascii (list_ascii_of_string s) in
  utf8_decode_bytes (List.length bs) bs.

Definition ch (s : string) : N :=
  match utf8 s with c :: _ => c | [] => 0%N end.

Fixpoint ueqb (a b : ustring) : bool :=
  match a, b with
  | [], [] => true
  | x :: a', y :: b' => (x =? y)%N && ueqb a' b'
  | _, _ => false
  end.

(** [p] is a prefix of [s]. *)
Fixpoint prefixb (p s : ustring) : bool :=
  match p, s with
  | [], _ => true
  | _ :: _, [] => false
  | x :: p', y :: s' => (x =? y)%N && prefixb p' s'
  end.

(** Python's [p in s] on [str]: [p] occurs in [s] as a substring. *)
Fixpoint contains (p s : ustring) : bool :=
  prefixb p s ||
  match s with
  | [] => false
  | _ :: s' => contains p s'
  end.

(** [c in s] for a one-character [c]. *)
Definition has_char (c : N) (s : ustring) : bool :=
  existsb (N.eqb c) s.

(** [str.replace(a, b)] for one-character [a] and [b]. *)
Definition replace_char (a b : N) (s : ustring) : ustring :=
  map (fun c => if (c =? a)%N then b else c) s.

(** [str.replace(a, "")] for a one-character [a]. *)
Definition remove_char (a : N) (s : ustring) : ustring :=
  filter (fun c => negb (c =? a)%N) s.

(** Unicode white space as [str.isspace], [str.strip] and the regular
    expression class [\s] see it. *)
Definition is_space (c : N) : bool :=
  ((9 <=? c) && (c <=? 13) || (28 <=? c) && (c <=? 32)
   || (c =? 133) || (c =? 160) || (c =? 5760)
   || (8192 <=? c) && (c <=? 8202)
   || (c =? 8232) || (c =? 8233) || (c =? 8239) || (c =? 8287)
   || (c =? 12288))%N.

Fixpoint lstrip (s : ustring) : ustring :=
  match s with
  | c :: s' => if is_space c then lstrip s' else s
  | [] => []
  end.

Definition rstrip (s : ustring) : ustring := rev (lstrip (rev s)).

(** [str.strip()]. *)
Definition strip (s : ustring) : ustring := rstrip (lstrip s).

Definition is_digit (c : N) : bool := ((48 <=? c) && (c <=? 57))%N.

(** Decimal digits of a natural number, most significant first. *)
Fixpoint digits_fuel (fuel : nat) (n : N) (acc : ustring) : ustring :=
  match fuel with
  | O => acc
  | S fuel' =>
    let acc' := (48 + n mod 10)%N :: acc in
    if (n <? 10)%N then acc' else digits_fuel fuel' (n / 10)%N acc'
  end.

Definition digits_of_N (n : N) : ustring :=
  digits_fuel (S (N.to_nat (N.log2 n))) n [].

(** [str(z)] for a Python [int]. *)
Definition str_of_Z (z : Z) : ustring :=
  match z with
  | Zneg p => 45%N :: digits_of_N (Npos p)
  | _ => digits_of_N (Z.to_N z)
  end.

End Text.
Import Text.

(** [u "..."] is the text of a source literal, decoded where it is
    written. *)
Notation "'u' s" :=
  (ltac:(let v := eval vm_compute in (utf8 s) in exact v))
  (at level 1, s at level 0, only parsing).

(* ================================================================== *)
(** ** Python values: floats, exceptions, table cells *)
(* ================================================================== *)

Module Py.

(** IEEE binary64. *)
Definition float := spec_float.
Definition prec : Z := 53.
Definition emax : Z := 1024.

Definition fzero : float := S754_zero false.

(** [a > b] on floats; false as soon as one side is NaN. *)
Definition float_gt (a b : float) : bool := SFltb b a.

Definition is_nan (f : float) : bool :=
  match f with S754_nan => true | _ => false end.

(** The exceptions the modelled code meets. *)
Inductive exn :=
| OverflowError
| ValueError (msg : ustring)
| KeyError (key : ustring)
| SendError (msg : ustring)
| IndexError (msg : ustring)
| TypeError (msg : ustring)
| AttributeError (msg : ustring).

Inductive result (A : Type) :=
| Ok (a : A)
| Raise (e : exn).
Arguments Ok {A} a.
Arguments Raise {A} e.

Definition raises {A} (r : result A) : bool :=
  match r with Ok _ => false | Raise _ => true end.

(** A cell of a table as [Series.apply] and [Series.get] hand it over:
    [None], a Python [int], a [float] (NaN marks a missing cell) or a
    [str]. *)
Inductive cell :=
| CNone
| CInt (z : Z)
| CFloat (f : float)
| CText (s : ustring).

(** [pd.isna] on a scalar cell. *)
Definition isna (x : cell) : bool :=
  match x with
  | CNone => true
  | CFloat f => is_nan f
  | _ => false
  end.

(** [float(z)] for a Python [int]: the nearest double, ties to even;
    [OverflowError] when that is not finite. *)
Definition float_of_int (z : Z) : result float :=
  match binary_normalize prec emax z 0 false with
  | S754_infinity _ => Raise OverflowError
  | f => Ok f
  end.

(** The value of a digit string read in base ten. *)
Definition digits_value (ds : ustring) : N :=
  fold_left (fun acc c => (acc * 10 + (c - 48))%N) ds 0%N.

Fixpoint pow10 (k : nat) : positive :=
  match k with
  | O => 1%positive
  | S k' => (10 * pow10 k')%positive
  end.

(** The double nearest to [(-1)^neg * m / 10^k], ties to even, infinite
    on overflow: what [float] makes of a decimal literal. *)
Definition float_of_decimal (neg : bool) (m : N) (k : nat) : float :=
  match m with
  | N0 => S754_zero neg
  | Npos p =>
    SFdiv prec emax (S754_finite neg p 0) (S754_finite false (pow10 k) 0)
  end.

(** Splits at the first period. *)
Fixpoint split_dot (s : ustring) : ustring * option ustring :=
  match s with
  | [] => ([], None)
  | c :: s' =>
    if (c =? 46)%N then ([], Some s')
    else let '(a, b) := split_dot s' in (c :: a, b)
  end.

(** [float(s)] for a string [s] over the alphabet that [to_number] leaves
    (digits, period, minus): an optional leading minus, then digits with
    at most one period and at least one digit. [None] stands for the
    [ValueError] of a malformed literal. *)
Definition parse_float (s : ustring) : option float :=
  let '(neg, body) :=
    match s with
    | c :: r => if (c =? 45)%N then (true, r) else (false, s)
    | [] => (false, [])
    end in
  let '(ip, fp) := split_dot body in
  let fr := match fp with Some f => f | None => [] end in
  if forallb is_digit ip && forallb is_digit fr
     && negb (Nat.eqb (List.length (ip ++ fr)) 0)
  then Some (float_of_decimal neg (digits_value (ip ++ fr)) (List.length fr))
  else None.

(** [float(x)] for a numeric cell. *)
Definition float_of_float (f : float) : result float := Ok f.

End Py.
Import Py.

(* ================================================================== *)
(** ** NumericNormalizer: [to_number] *)
(* ================================================================== *)

Definition NBSP : N := 160.
Definition SPACE : N := 32.
Definition COMMA : N := 44.
Definition PERIOD : N := 46.
Definition MINUS : N := 45.

(** The characters [re.sub(r"[^0-9\.\-]", "", s)] keeps. *)
Definition keep_numeric (c : N) : bool :=
  is_digit c || (c =? PERIOD)%N || (c =? MINUS)%N.

(** The residues answered with [0.0] before any parsing. *)
Definition degenerate (s : ustring) : bool :=
  ueqb s [] || ueqb s [PERIOD] || ueqb s [MINUS]
  || ueqb s [MINUS; PERIOD] || ueqb s [PERIOD; MINUS].

(** The text of a cell after the four clean-up steps of [to_number]. *)
Definition number_text (s : ustring) : ustring :=
  let s := replace_char NBSP SPACE s in
  let s := remove_char SPACE s in
  let s := replace_char COMMA PERIOD s in
  filter keep_numeric s.

(** [to_number] on a text cell; the [try]/[except] around [float(s)]
    turns a malformed literal into [0.0]. *)
Definition to_number_text (s : ustring) : float :=
  let s := number_text s in
  if degenerate s then fzero
  else match parse_float s with
       | Some f => f
       | None => fzero
       end.

Definition to_number (x : cell) : result float :=
  if isna x then Ok fzero
  else match x with
       | CInt z => float_of_int z
       | CFloat f => float_of_float f
       | CText s => Ok (to_number_text s)
       | CNone => Ok fzero
       end.

(* ================================================================== *)
(** ** Tables *)
(* ================================================================== *)

(** The missing cell of a table. *)
Definition NaN : cell := CFloat S754_nan.

(** A [DataFrame]: column labels in order, and rows of cells in the
    order of the columns. *)
Record frame := mkFrame {
  columns : list ustring;
  rows : list (list cell)
}.

Fixpoint index_of (c : ustring) (cols : list ustring) : option nat :=
  match cols with
  | [] => None
  | c' :: r => if ueqb c c' then Some O else option_map S (index_of c r)
  end.

Definition cell_at (i : nat) (r : list cell) : cell := nth i r NaN.

(** [r.get(col, default)] on a row [r] of a table with columns [cols]. *)
Definition get (cols : list ustring) (r : list cell) (col : ustring)
           (default : cell) : cell :=
  match index_of col cols with
  | Some i => cell_at i r
  | None => default
  end.

Fixpoint set_nth (i : nat) (v : cell) (r : list cell) : list cell :=
  match i, r with
  | O, _ :: r' => v :: r'
  | S i', x :: r' => x :: set_nth i' v r'
  | _, [] => []
  end.

(** A row brought to the width of the table, missing cells being NaN. *)
Definition pad (n : nat) (r : list cell) : list cell :=
  firstn n (r ++ repeat NaN n).

(** [df[col] = ...] for one row: the cell of an existing column is
    replaced, a new column comes last. *)
Definition assign_cell (cols : list ustring) (col : ustring) (v : cell)
           (r : list cell) : list cell :=
  match index_of col cols with
  | Some i => set_nth i v (pad (List.length cols) r)
  | None => pad (List.length cols) r ++ [v]
  end.

Definition assign_columns (cols : list ustring) (col : ustring)
  : list ustring :=
  match index_of col cols with
  | Some _ => cols
  | None => cols ++ [col]
  end.

(* ================================================================== *)
(** ** DebtSelector *)
(* ================================================================== *)

Definition DEBT_KEY : ustring := u "_debt".

(** [Series.apply(to_number)]: cell by cell, in order; the first
    exception ends it. *)
Fixpoint apply_to_number (xs : list cell) : result (list float) :=
  match xs with
  | [] => Ok []
  | x :: xs' =>
    match to_number x with
    | Raise e => Raise e
    | Ok d =>
      match apply_to_number xs' with
      | Raise e => Raise e
      | Ok ds => Ok (d :: ds)
      end
    end
  end.

(** The mask [df["_debt"] > 0] on one cell of the float column. *)
Definition positive_debt (c : cell) : bool :=
  match c with
  | CFloat f => float_gt f fzero
  | _ => false
  end.

(** [df["_debt"] = df[debt_col].apply(to_number)] followed by
    [debtors = df[df["_debt"] > 0]]. *)
Definition select_debtors (df : frame) (debt_col : ustring) : result frame :=
  match index_of debt_col (columns df) with
  | None => Raise (KeyError debt_col)
  | Some i =>
    match apply_to_number (map (cell_at i) (rows df)) with
    | Raise e => Raise e
    | Ok ds =>
      let cols' := assign_columns (columns df) DEBT_KEY in
      let rows' :=
        map (fun rd => assign_cell (columns df) DEBT_KEY (CFloat (snd rd))
                                   (fst rd))
            (combine (rows df) ds) in
      Ok (mkFrame cols'
            (filter (fun r => positive_debt (get cols' r DEBT_KEY NaN))
                    rows'))
    end
  end.

(** The normalised debts of a debtor table, row by row. *)
Definition debts (d : frame) : list cell :=
  map (fun r => get (columns d) r DEBT_KEY NaN) (rows d).

(** A source row with its normalised debt attached under ["_debt"]. *)
Definition attach (cols : list ustring) (rd : list cell * float) : list cell :=
  assign_cell cols DEBT_KEY (CFloat (snd rd)) (fst rd).

(** The rows with a strictly positive normalised debt, in source order. *)
Definition retained (rs : list (list cell)) (ds : list float)
  : list (list cell * float) :=
  filter (fun rd => float_gt (snd rd) fzero) (combine rs ds).

(** *** Reference values *)

(** The finite double [(-1)^s * m * 2^e]. *)
Definition double (s : bool) (m : positive) (e : Z) : float :=
  S754_finite s m e.

(** [f] is a canonical binary64 number within half a unit in the last
    place of [num / den] (for [den > 0]): [f] is a double nearest to it. *)
Definition nearest_to (f : float) (num den : Z) : bool :=
  match f with
  | S754_finite s m e =>
    bounded prec emax m e &&
    (e <? 0)%Z &&
    (2 * Z.abs ((if s then Z.neg m else Z.pos m) * den - num * 2 ^ (- e))
       <=? den)%Z
  | _ => false
  end.

Definition d_1234_56 : float := double false 5429652300748554 (-42).
Definition d_minus_42 : float := double true 5910974510923776 (-47).
Definition d_100 : float := double false 7036874417766400 (-46).
Definition d_200_5 : float := double false 7054466603810816 (-45).

(** The table of the selection example: debts [100, 0, -5, "200,50"]. *)
Definition debts_example : frame :=
  mkFrame [u "ФИО"; u "Долг"]
          [[CText (u "A"); CInt 100];
           [CText (u "B"); CInt 0];
           [CText (u "C"); CInt (-5)];
           [CText (u "D"); CText (u "200,50")]].

(* ================================================================== *)
(** ** SchemaMapper *)
(* ================================================================== *)

Definition REQUIRED_FIELDS : list ustring :=
  [u "Личный счет"; u "ФИО"; u "Адрес"; u "Период последней оплаты";
   u "Начисления"; u "Сумма льгот"; u "Выставлено к оплате";
   u "Сумма долга"; u "Пенни"; u "Дата долга"; u "Email"].

Definition ALIASES : list (ustring * list ustring) :=
  [(u "Личный счет",
    [u "личный счет"; u "лицевой счет"; u "л/с"; u "лс"; u "account";
     u "счет"]);
   (u "ФИО",
    [u "фио"; u "ф.и.о"; u "фамилия имя отчество"; u "name"; u "фамилия"]);
   (u "Адрес",
    [u "адрес"; u "address"; u "место проживания"; u "квартира"; u "дом"]);
   (u "Период последней оплаты",
    [u "период последней оплаты"; u "последняя оплата";
     u "дата последней оплаты"; u "last payment"]);
   (u "Начисления", [u "начисления"; u "accrual"; u "начислено"]);
   (u "Сумма льгот", [u "сумма льгот"; u "льготы"; u "benefit"; u "скидка"]);
   (u "Выставлено к оплате",
    [u "выставлено к оплате"; u "к оплате"; u "итого к оплате"; u "to pay";
     u "начислено к оплате"]);
   (u "Сумма долга",
    [u "сумма долга"; u "долг"; u "задолженность"; u "debt"; u "arrears"]);
   (u "Пенни", [u "пенни"; u "пени"; u "пеня"; u "penalty"; u "штраф"]);
   (u "Дата долга",
    [u "дата долга"; u "дата задолженности"; u "debt date";
     u "дата образования долга"]);
   (u "Email",
    [u "email"; u "e-mail"; u "электронная почта"; u "почта"; u "mail"])].

(** The class [[\s\._\-]] of the separator pattern. *)
Definition is_sep (c : N) : bool :=
  is_space c || (c =? 46)%N || (c =? 95)%N || (c =? 45)%N.

(** [re.sub(r"[\s\._\-]+", " ", s)]: every maximal run of separators
    becomes one space. [in_run] tells that the previous character was a
    separator. *)
Fixpoint collapse_from (in_run : bool) (s : ustring) : ustring :=
  match s with
  | [] => []
  | c :: s' =>
    if is_sep c then
      if in_run then collapse_from true s'
      else SPACE :: collapse_from true s'
    else c :: collapse_from false s'
  end.

Definition collapse (s : ustring) : ustring := collapse_from false s.

(** A Python [dict] with [str] keys, in insertion order. *)
Fixpoint dict_set (k v : ustring) (d : list (ustring * ustring))
  : list (ustring * ustring) :=
  match d with
  | [] => [(k, v)]
  | (k', v') :: d' =>
    if ueqb k k' then (k', v) :: d' else (k', v') :: dict_set k v d'
  end.

(** The truth value of a [str]. *)
Definition truthy (s : ustring) : bool := negb (ueqb s []).

Definition truthy_opt (o : option ustring) : bool :=
  match o with
  | Some s => truthy s
  | None => false
  end.

Section SchemaMapper.

(** [str.lower], the Unicode lower-casing of the Python runtime. *)
Variable lower : ustring -> ustring.

Definition _clean_col (s : ustring) : ustring :=
  collapse (lower (strip s)).

(** [{c: _clean_col(c) for c in df.columns}]. *)
Definition cols_clean (headers : list ustring) : list (ustring * ustring) :=
  fold_left (fun d c => dict_set c (_clean_col c) d) headers [].

(** The loop over [variants]: some cleaned alias occurs in [cc]. *)
Definition alias_hit (variants : list ustring) (cc : ustring) : bool :=
  existsb (fun v => contains (_clean_col v) cc) variants.

(** The loop over the cleaned columns, with the value of [found] so
    far; it stops at the first column that leaves [found] truthy. *)
Fixpoint scan_columns (items : list (ustring * ustring))
         (variants : list ustring) (found : option ustring)
  : option ustring :=
  match items with
  | [] => found
  | (col, cc) :: rest =>
    let found' := if alias_hit variants cc then Some col else found in
    if truthy_opt found' then found'
    else scan_columns rest variants found'
  end.

Definition auto_map_columns (headers : list ustring)
  : list (ustring * option ustring) :=
  let cc := cols_clean headers in
  map (fun fv => (fst fv, scan_columns cc (snd fv) None)) ALIASES.

End SchemaMapper.

(** [auto_map.get(field)]: the column chosen for a field, if any. *)
Fixpoint map_get (field : ustring) (m : list (ustring * option ustring))
  : option ustring :=
  match m with
  | [] => None
  | (f, c) :: m' => if ueqb field f then c else map_get field m'
  end.

(** Lower-casing on the blocks the tables of this application are
    written in: Basic Latin, Latin-1 and Cyrillic; other code points are
    left as they are. Used to evaluate the mapper on examples. *)
Definition lower_char (c : N) : N :=
  if ((65 <=? c) && (c <=? 90))%N then (c + 32)%N
  else if ((192 <=? c) && (c <=? 222) && negb (c =? 215))%N then (c + 32)%N
  else if ((1040 <=? c) && (c <=? 1071))%N then (c + 32)%N
  else if ((1024 <=? c) && (c <=? 1039))%N then (c + 80)%N
  else c.

Definition lower_basic (s : ustring) : ustring := map lower_char s.

(** No label occurs twice. *)
Fixpoint distinctb (l : list ustring) : bool :=
  match l with
  | [] => true
  | x :: l' => negb (existsb (ueqb x) l') && distinctb l'
  end.

(** The keys of a dictionary after [c] has been set in it. *)
Definition add_key (keys : list ustring) (c : ustring) : list ustring :=
  if existsb (ueqb c) keys then keys else keys ++ [c].

(** Headers of the mapping example, with a second full-name column. *)
Definition headers_example : list ustring :=
  [u "Лицевой счет"; u "Ф.И.О."; u "Долг, руб"; u "ФИО"].

(* ================================================================== *)
(** ** MonitoringLedger *)
(* ================================================================== *)

Definition DB_COLUMNS : list ustring :=
  [u "Дата контакта"; u "ФИО"; u "Сумма долга"; u "Способ информирования";
   u "Статус информирования"; u "Комментарий"].

(** The file [debtors_monitoring.csv]: absent, or present with a text. *)
Definition store := option ustring.

(** What a decoding library answers: a value, or an exception with its
    text. *)
Inductive decoded (A : Type) :=
| Decoded (a : A)
| Failed (msg : ustring).
Arguments Decoded {A} a.
Arguments Failed {A} msg.

Definition QUOTE : N := 34.
Definition LF : N := 10.
Definition CR : N := 13.

(** Minimal quoting of the [csv] writer: a field with a delimiter, a
    quote or a line break is wrapped in quotes, its quotes doubled. *)
Definition needs_quote (s : ustring) : bool :=
  existsb (fun c => (c =? COMMA)%N || (c =? QUOTE)%N || (c =? LF)%N
                    || (c =? CR)%N) s.

Definition csv_quote (s : ustring) : ustring :=
  if needs_quote s then
    QUOTE :: flat_map (fun c => if (c =? QUOTE)%N then [QUOTE; QUOTE]
                                else [c]) s ++ [QUOTE]
  else s.

Fixpoint join_fields (fs : list ustring) : ustring :=
  match fs with
  | [] => []
  | [f] => f
  | f :: fs' => f ++ COMMA :: join_fields fs'
  end.

Definition csv_line (fs : list ustring) : ustring := join_fields fs ++ [LF].

(** One row of a table given as a dictionary, as [pd.DataFrame([entry])]
    takes it. *)
Definition entry := list (ustring * cell).

Fixpoint entry_get (k : ustring) (e : entry) : cell :=
  match e with
  | [] => NaN
  | (k', v) :: e' => if ueqb k k' then v else entry_get k e'
  end.

(** [pd.concat([df, pd.DataFrame([e])], ignore_index=True)]: the columns
    of [df], then the keys of [e] that are new; the rows of [df], then
    the row of [e]; cells without a value are NaN. *)
Definition concat_entry (df : frame) (e : entry) : frame :=
  let cols := fold_left add_key (map fst e) (columns df) in
  let n := List.length cols in
  mkFrame cols
          (map (pad n) (rows df) ++ [map (fun c => entry_get c e) cols]).

Section Ledger.

(** [repr] of a float that is not NaN, as [to_csv] and [str] print
    it. *)
Variable float_repr : float -> ustring.

(** [pd.read_csv] on the text of the file: the table, or the exception
    it raises. *)
Variable read_csv : ustring -> decoded frame.

(** Writing a text over the file, as [to_csv] does with the file being
    [st]: the file afterwards, and the text of the exception when one is
    raised. *)
Variable write_csv : store -> ustring -> store * option ustring.

(** A cell as [to_csv] writes it; a missing cell is written empty. *)
Definition csv_cell (c : cell) : ustring :=
  match c with
  | CNone => []
  | CInt z => str_of_Z z
  | CFloat f => if is_nan f then [] else float_repr f
  | CText s => csv_quote s
  end.

(** [df.to_csv(index=False)]: the header line, then a line per row. *)
Definition to_csv (df : frame) : ustring :=
  csv_line (map csv_quote (columns df))
  ++ flat_map (fun r => csv_line
                          (map csv_cell (pad (List.length (columns df)) r)))
              (rows df).

Definition load_monitoring_data (st : store) : decoded frame :=
  match st with
  | Some text => read_csv text
  | None => Decoded (mkFrame DB_COLUMNS [])
  end.

Definition save_monitoring_data (df : frame) (st : store)
  : store * option ustring :=
  write_csv st (to_csv df).

(** The new entry of [add_to_monitoring]; [now] is the time stamp
    [datetime.now().strftime("%d.%m.%Y %H:%M")]. *)
Definition new_entry (now fio : ustring) (debt : float)
           (method status comment : ustring) : entry :=
  [(u "Дата контакта", CText now);
   (u "ФИО", CText fio);
   (u "Сумма долга", CFloat debt);
   (u "Способ информирования", CText method);
   (u "Статус информирования", CText status);
   (u "Комментарий", CText comment)].

(** [add_to_monitoring]: the file afterwards, and the text of the
    exception when loading or saving raises. An exception of the load
    leaves the file as it was. *)
Definition add_to_monitoring (now fio : ustring) (debt : float)
           (method status comment : ustring) (st : store)
  : store * option ustring :=
  match load_monitoring_data st with
  | Failed msg => (st, Some msg)
  | Decoded df =>
    save_monitoring_data
      (concat_entry df (new_entry now fio debt method status comment)) st
  end.

End Ledger.

(** A file system that takes every write. *)
Definition write_ok (_ : store) (text : ustring) : store * option ustring :=
  (Some text, None).

(** A cell as the text of its field, before quoting. *)
Definition cell_text (float_repr : float -> ustring) (c : cell) : ustring :=
  match c with
  | CText s => s
  | other => csv_cell float_repr other
  end.

(* ================================================================== *)
(** ** The reader of the ledger file: [pd.read_csv] *)
(* ================================================================== *)

(** [pd.read_csv] with its default settings is modelled on the texts it
    reads in one plain way: lines that end in a line feed, fields
    separated by commas, a field in quotes when it holds a comma, a quote
    or a line feed, as many fields in every line as in the header. On
    every other text the model is silent ([None]). *)

(** The texts that stand for a missing value. *)
Definition NA_VALUES : list ustring :=
  [[]; u "#N/A"; u "#N/A N/A"; u "#NA"; u "-1.#IND"; u "-1.#QNAN";
   u "-NaN"; u "-nan"; u "1.#IND"; u "1.#QNAN"; u "<NA>"; u "N/A"; u "NA";
   u "NULL"; u "NaN"; u "None"; u "n/a"; u "nan"; u "null"].

Definition is_na_text (s : ustring) : bool := existsb (ueqb s) NA_VALUES.

(** Characters the model does not follow: a carriage return and the
    null character. *)
Definition unread (c : N) : bool := ((c =? CR) || (c =? 0))%N.

(** Where the tokenizer stands: at the start of a field, inside a field
    without quotes, inside a field in quotes, or just after a quote met
    inside a field in quotes. *)
Inductive csv_mode := AtStart | Plain | Quoted | QuoteSeen.

(** A line of blanks only, which the reader would skip. *)
Definition blank_line (record : list ustring) (field : ustring) : bool :=
  match record with
  | [] => forallb (fun c => (c =? SPACE) || (c =? 9))%N field
  | _ => false
  end.

(** The records of a text, each the list of its fields; [field] and
    [record] are the field and the record being read, [done] the
    records read. Empty lines are skipped. *)
Fixpoint tokenize (m : csv_mode) (field : ustring) (record : list ustring)
         (done : list (list ustring)) (s : ustring)
  : option (list (list ustring)) :=
  match s with
  | [] =>
    match m with
    | AtStart =>
      match record with
      | [] => Some done
      | _ => Some (done ++ [record ++ [[]]])
      end
    | Plain =>
      if blank_line record field then None
      else Some (done ++ [record ++ [field]])
    | Quoted => None
    | QuoteSeen => Some (done ++ [record ++ [field]])
    end
  | c :: s' =>
    if unread c then None
    else
      match m with
      | AtStart =>
        if (c =? QUOTE)%N then tokenize Quoted [] record done s'
        else if (c =? COMMA)%N then
          tokenize AtStart [] (record ++ [[]]) done s'
        else if (c =? LF)%N then
          match record with
          | [] => tokenize AtStart [] [] done s'
          | _ => tokenize AtStart [] [] (done ++ [record ++ [[]]]) s'
          end
        else tokenize Plain [c] record done s'
      | Plain =>
        if (c =? COMMA)%N then
          tokenize AtStart [] (record ++ [field]) done s'
        else if (c =? LF)%N then
          if blank_line record field then None
          else tokenize AtStart [] [] (done ++ [record ++ [field]]) s'
        else if (c =? QUOTE)%N then None
        else tokenize Plain (field ++ [c]) record done s'
      | Quoted =>
        if (c =? QUOTE)%N then tokenize QuoteSeen field record done s'
        else tokenize Quoted (field ++ [c]) record done s'
      | QuoteSeen =>
        if (c =? QUOTE)%N then
          tokenize Quoted (field ++ [QUOTE]) record done s'
        else if (c =? COMMA)%N then
          tokenize AtStart [] (record ++ [field]) done s'
        else if (c =? LF)%N then
          tokenize AtStart [] [] (done ++ [record ++ [field]]) s'
        else None
      end
  end.

(** The names of a header the model follows: none empty, no two
    alike. *)
Definition header_ok (names : list ustring) : bool :=
  distinctb names && forallb truthy names.

(** A text kept as a text, unless it stands for a missing value. *)
Definition text_cell (s : ustring) : cell :=
  if is_na_text s then NaN else CText s.

Definition column_texts (j : nat) (records : list (list ustring))
  : list ustring :=
  map (fun r => nth j r []) records.

Section Reader.

(** The conversion of the texts of a column to numbers or booleans,
    which the reader tries before it keeps the texts: [None] when some
    text that stands for a value is neither. *)
Variable scalar_column : list ustring -> option (list cell).

(** The cells of a column: missing throughout when every text stands
    for a missing value, numbers or booleans when the conversion takes
    the column, texts otherwise. *)
Definition infer_column (texts : list ustring) : list cell :=
  if forallb is_na_text texts then map (fun _ => NaN) texts
  else
    match scalar_column texts with
    | Some cells => cells
    | None => map text_cell texts
    end.

Definition read_rows (ncols : nat) (records : list (list ustring))
  : list (list cell) :=
  let cols := map (fun j => infer_column (column_texts j records))
                  (seq 0 ncols) in
  map (fun i => map (fun col => nth i col NaN) cols)
      (seq 0 (List.length records)).

(** The model of [pd.read_csv]: an empty file raises, a text of
    records of one length is a table, and [None] is every case the model
    does not follow. *)
Definition pandas_read_csv (text : ustring) : option (decoded frame) :=
  match text with
  | [] => Some (Failed (u "No columns to parse from file"))
  | _ =>
    match tokenize AtStart [] [] [] text with
    | Some (names :: records) =>
      if header_ok names
         && forallb (fun r => Nat.eqb (List.length r) (List.length names))
                    records
      then Some (Decoded (mkFrame names
                                  (read_rows (List.length names) records)))
      else None
    | _ => None
    end
  end.

End Reader.

(** A reader follows a model when it answers as the model does
    wherever the model speaks. *)
Definition reads_like (read_csv : ustring -> decoded frame)
           (model : ustring -> option (decoded frame)) : Prop :=
  forall text d, model text = Some d -> read_csv text = d.

(** The reader that follows a model and gives up where the model is
    silent. *)
Definition reader_of (model : ustring -> option (decoded frame))
           (text : ustring) : decoded frame :=
  match model text with
  | Some d => d
  | None => Failed (u "text outside the model")
  end.

(** The texts the reader may take for a number or a boolean, drawn
    generously: white space around it apart, a text of digits, periods,
    signs and the letter [e] only, or one of the words [inf], [infinity],
    [nan], [true] and [false] in any case, with or without a sign. *)
Definition numeric_like (s : ustring) : bool :=
  forallb (fun c => is_digit c || (c =? PERIOD) || (c =? 43) || (c =? MINUS)
                    || (c =? 101) || (c =? 69))%N s.

Definition SCALAR_WORDS : list ustring :=
  [u "inf"; u "infinity"; u "nan"; u "true"; u "false"].

Definition unsigned (s : ustring) : ustring :=
  match s with
  | c :: s' => if ((c =? 43) || (c =? MINUS))%N then s' else s
  | [] => []
  end.

Definition word_like (s : ustring) : bool :=
  existsb (ueqb (lower_basic (unsigned s))) SCALAR_WORDS.

Definition scalar_text (s : ustring) : bool :=
  numeric_like (strip s) || word_like (strip s).

(** The texts of a column none of which can be a number or a boolean:
    each stands for a missing value or is no such text. *)
Definition value_texts (texts : list ustring) : bool :=
  forallb (fun t => is_na_text t || negb (scalar_text t)) texts.

(** What the conversion to numbers and booleans is known to do: a
    column that holds a value, and no text that can be a number or a
    boolean, is not converted. *)
Definition scalars_are_spelled
           (scalar_column : list ustring -> option (list cell)) : Prop :=
  forall texts,
    forallb is_na_text texts = false -> value_texts texts = true ->
    scalar_column texts = None.

(** *** Tables that go through the file *)

(** A text without the characters the model does not follow, and one
    that in addition needs no quotes. *)
Definition plain_text (s : ustring) : bool :=
  forallb (fun c => negb (unread c)) s.

Definition clean_text (s : ustring) : bool :=
  plain_text s && negb (needs_quote s).

(** The cells of the tables in question: texts, and floats whose
    printed form needs no quotes. *)
Definition field_ok (float_repr : float -> ustring) (c : cell) : bool :=
  match c with
  | CText s => plain_text s
  | CFloat f => is_nan f || clean_text (float_repr f)
  | _ => false
  end.

Definition is_text_cell (c : cell) : bool :=
  match c with
  | CText _ => true
  | CFloat f => is_nan f
  | _ => false
  end.

Definition is_float_cell (c : cell) : bool :=
  match c with CFloat _ => true | _ => false end.

Definition column_cells (j : nat) (rs : list (list cell)) : list cell :=
  map (fun r => nth j r NaN) rs.

(** A column of texts, some possibly missing, none of which can be a
    number or a boolean; or a column of floats that the conversion reads
    back as they are. *)
Definition column_ok (float_repr : float -> ustring)
           (scalar_column : list ustring -> option (list cell))
           (cells : list cell) : Prop :=
  let texts := map (cell_text float_repr) cells in
  (forallb is_text_cell cells = true /\ value_texts texts = true)
  \/
  (forallb is_float_cell cells = true /\
   forallb is_na_text texts = false /\
   scalar_column texts = Some cells).

(** A table in the plain form above: at least two columns with names
    the model follows, rows of full length, every column a column of
    texts or of floats. *)
Definition regular (float_repr : float -> ustring)
           (scalar_column : list ustring -> option (list cell))
           (df : frame) : Prop :=
  header_ok (columns df) = true /\
  forallb plain_text (columns df) = true /\
  (2 <= List.length (columns df))%nat /\
  Forall (fun r => List.length r = List.length (columns df) /\
                   forallb (field_ok float_repr) r = true) (rows df) /\
  forall j, (j < List.length (columns df))%nat ->
            column_ok float_repr scalar_column (column_cells j (rows df)).

(** A text cell that stands for a missing value comes back missing. *)
Definition missing_text_cell (c : cell) : cell :=
  match c with
  | CText s => if is_na_text s then NaN else c
  | other => other
  end.

(** The table as it comes back from the file. *)
Definition read_back (df : frame) : frame :=
  mkFrame (columns df) (map (map missing_text_cell) (rows df)).

(** A conversion for the examples: it refuses a column without a text
    that can be a number or a boolean, and reads decimal numbers. *)
Definition scalar_column_example (texts : list ustring)
  : option (list cell) :=
  if value_texts texts then None
  else Some (map (fun t => match parse_float t with
                           | Some f => CFloat f
                           | None => NaN
                           end) texts).

Definition read_csv_example : ustring -> decoded frame :=
  reader_of (pandas_read_csv scalar_column_example).



(* ================================================================== *)
(** ** MessageComposer *)
(* ================================================================== *)

(** Digits grouped by three from the right, the groups separated by
    spaces: the [","] grouping of the format, after
    [s.replace(",", " ")]. *)
Fixpoint group3_rev (n : nat) (ds : ustring) : ustring :=
  match ds with
  | [] => []
  | d :: ds' =>
    match n, ds' with
    | 2%nat, _ :: _ => d :: SPACE :: group3_rev 0 ds'
    | _, _ => d :: group3_rev (S n) ds'
    end
  end.

Definition group3 (ds : ustring) : ustring := rev (group3_rev 0 (rev ds)).

(** The hundredths nearest to [m * 2^e], ties to even. *)
Definition cents (m : positive) (e : Z) : N :=
  match e with
  | Zneg p =>
    let num := (Npos m * 100)%N in
    let den := N.pow 2 (Npos p) in
    let q := (num / den)%N in
    let r := (num mod den)%N in
    if (den <? 2 * r)%N then (q + 1)%N
    else if ((2 * r =? den) && N.odd q)%N then (q + 1)%N
    else q
  | _ => (Npos m * N.pow 2 (Z.to_N e) * 100)%N
  end.

Definition two_digits (n : N) : ustring := [(48 + n / 10)%N; (48 + n mod 10)%N].

Definition sign_text (s : bool) : ustring := if s then [MINUS] else [].

(** [format_money]: [f"{x:,.2f}"] with the commas turned into spaces. *)
Definition format_money (x : float) : ustring :=
  match x with
  | S754_nan => u "nan"
  | S754_infinity s => sign_text s ++ u "inf"
  | S754_zero s => sign_text s ++ u "0.00"
  | S754_finite s m e =>
    let c := cents m e in
    sign_text s ++ group3 (digits_of_N (c / 100)) ++ PERIOD
      :: two_digits (c mod 100)
  end.

(** A template as [str.format] reads it, from left to right: literal
    text (a doubled brace already a single one), replacement fields that
    are a name and nothing else, and every other thing between braces or
    of a brace alone. A [Field] is written [{name}], the name without
    period, bracket, exclamation mark, colon or brace. A [Compound] is a
    field with an index or an attribute, a conversion or a format
    specification, or a brace that opens or closes no field; it holds
    what [str.format] makes of it, given the keyword arguments: a text or
    an exception. *)
Inductive segment :=
| Lit (s : ustring)
| Field (name : ustring)
| Compound (render : list (ustring * ustring) -> result ustring).

Definition template := list segment.

Fixpoint kw_get (k : ustring) (kw : list (ustring * ustring))
  : option ustring :=
  match kw with
  | [] => None
  | (k', v) :: kw' => if ueqb k k' then Some v else kw_get k kw'
  end.

(** The zero digits of Unicode 14 (category Nd); each is followed by
    the digits one to nine. *)
Definition DECIMAL_ZEROS : list N :=
  [48; 1632; 1776; 1984; 2406; 2534; 2662; 2790; 2918; 3046; 3174; 3302;
   3430; 3558; 3664; 3792; 3872; 4160; 4240; 6112; 6160; 6470; 6608; 6784;
   6800; 6992; 7088; 7232; 7248; 42528; 43216; 43264; 43472; 43504; 43600;
   44016; 65296; 66720; 68912; 69734; 69872; 69942; 70096; 70384; 70736;
   70864; 71248; 71360; 71472; 71904; 72016; 72784; 73040; 73120; 92768;
   92864; 93008; 120782; 120792; 120802; 120812; 120822; 123200; 123632;
   125264; 130032]%N.

(** The value of a decimal digit; [None] for any other character. *)
Definition decimal_digit (c : N) : option N :=
  match find (fun z => (z <=? c) && (c <=? z + 9))%N DECIMAL_ZEROS with
  | Some z => Some (c - z)%N
  | None => None
  end.

(** The largest index of a 64-bit interpreter. *)
Definition MAX_INDEX : N := 9223372036854775807.

(** How the formatter reads the name of a field as a number: no number,
    a number too large, or an index. The scan goes from left to right and
    stops at the first character that is no digit, or before the number
    passes [MAX_INDEX]. The empty name is the automatic index, which is
    zero as long as no field has been replaced by position. *)
Inductive integer_name :=
| NoInteger
| TooManyDigits
| IsInteger (i : N).

Fixpoint get_integer (acc : N) (s : ustring) : integer_name :=
  match s with
  | [] => IsInteger acc
  | c :: s' =>
    match decimal_digit c with
    | None => NoInteger
    | Some d =>
      if ((MAX_INDEX - d) / 10 <? acc)%N then TooManyDigits
      else get_integer (acc * 10 + d)%N s'
    end
  end.

(** The value of the field [{name}] in a call with keyword arguments
    only: a name that is a number asks for a positional argument, and
    there is none. *)
Definition field_value (name : ustring) (kw : list (ustring * ustring))
  : result ustring :=
  match get_integer 0 name with
  | IsInteger i =>
    Raise (IndexError (u "Replacement index " ++ digits_of_N i
                       ++ u " out of range for positional args tuple"))
  | TooManyDigits =>
    Raise (ValueError (u "Too many decimal digits in format string"))
  | NoInteger =>
    match kw_get name kw with
    | Some v => Ok v
    | None => Raise (KeyError name)
    end
  end.

Definition render_segment (sg : segment) (kw : list (ustring * ustring))
  : result ustring :=
  match sg with
  | Lit s => Ok s
  | Field n => field_value n kw
  | Compound render => render kw
  end.

(** [t.format] with keyword arguments [kw]: the segments are rendered
    from left to right, and the first exception ends the call. *)
Fixpoint format (t : template) (kw : list (ustring * ustring))
  : result ustring :=
  match t with
  | [] => Ok []
  | sg :: t' =>
    match render_segment sg kw with
    | Raise e => Raise e
    | Ok v =>
      match format t' kw with
      | Ok r => Ok (v ++ r)
      | Raise e => Raise e
      end
    end
  end.

Definition PLACEHOLDERS : list ustring := [u "FIO"; u "DEBT"; u "TODAY"; u "DUE"].


(** Templates of literal text and recognised placeholders. *)
Definition plain_segment (sg : segment) : bool :=
  match sg with
  | Lit _ => true
  | Field n => existsb (ueqb n) PLACEHOLDERS
  | Compound _ => false
  end.

Definition plain_template (t : template) : bool := forallb plain_segment t.

(** The field [{name[i]}]: the character at index [i] of the value of
    the keyword [name]. *)
Definition index_field (name : ustring) (i : nat) : segment :=
  Compound (fun kw =>
              match kw_get name kw with
              | None => Raise (KeyError name)
              | Some v =>
                match nth_error v i with
                | Some c => Ok [c]
                | None => Raise (IndexError (u "string index out of range"))
                end
              end).

Definition default_template : template :=
  [Lit (u "Уважаемый(ая), "); Field (u "FIO");
   Lit (u ", у Вас образовалась задолженность по коммунальным платежам в размере ");
   Field (u "DEBT");
   Lit (u "." ++ [LF; LF] ++ u "Дата формирования: "); Field (u "TODAY");
   Lit (LF :: u "Необходимо оплатить до "); Field (u "DUE"); Lit (u ".")].

(* ================================================================== *)
(** ** DispatchEngine *)
(* ================================================================== *)

(** The arguments of one call of [send_email_smtp]. *)
Record mail := mkMail {
  m_host : ustring;
  m_port : Z;
  m_user : ustring;
  m_password : ustring;
  m_use_tls : bool;
  m_from : ustring;
  m_to : ustring;
  m_subject : ustring;
  m_body : ustring
}.

(** What the operator has entered before pressing the button. *)
Record config := mkConfig {
  per_row_mode : bool;          (* mode == "Использовать Email из каждой строки ..." *)
  common_email : ustring;
  fio_col : ustring;
  email_col : option ustring;
  template_text : template;
  subject : ustring;
  smtp_host : ustring;
  smtp_port : Z;
  use_tls : bool;
  smtp_user : ustring;
  smtp_password : ustring;
  from_addr : ustring;
  sleep_time : float;
  dry_run : bool;
  today_text : ustring;         (* today.strftime("%d.%m.%Y") *)
  due_text : ustring            (* due.strftime("%d.%m.%Y") *)
}.

Inductive status :=
| StatusOK          (* "OK" *)
| StatusOKDryRun    (* "OK (dry-run)" *)
| StatusError.      (* "Ошибка" *)

(** One element of [log_rows]. *)
Record log_row := mkLog {
  l_fio : ustring;
  l_email : ustring;
  l_debt : float;
  l_status : status;
  l_comment : ustring
}.

(** Everything the loop reads and changes: the ledger file, the calls of
    the mail capability so far, the pauses taken, the progress shown, and
    the loop's own [log_rows], [ok] and [fail]. *)
Record state := mkState {
  db : store;
  sent : list mail;
  slept : list float;
  progress : list (nat * nat);
  log_rows : list log_row;
  ok : nat;
  fail : nat
}.

Definition initial (st : store) : state := mkState st [] [] [] [] 0 0.

(** How a press of the button ends. *)
Inductive run :=
| Stopped (warning : ustring) (missing : list ustring)   (* st.stop() *)
| Crashed (e : exn) (s : state)    (* an exception leaves the script *)
| Finished (s : state).

Definition AT : N := 64.
Definition INVALID_EMAIL : ustring := u "Некорректный Email адрес".
Definition TEST_COMMENT : ustring := u "Тест (не отправлено)".
Definition METHOD_EMAIL : ustring := u "E-mail".
Definition STATUS_DELIVERED : ustring := u "Доставлено (авто)".
Definition SENT_TO : ustring := u "Отправлено на ".
Definition NO_DEBTORS : ustring := u "Должников нет — отправка не выполнена.".
Definition FILL_IN : ustring := u "Заполните: ".

Section Dispatch.

Variable float_repr : float -> ustring.
Variable read_csv : ustring -> decoded frame.
Variable write_csv : store -> ustring -> store * option ustring.

(** The mail capability: given the calls made so far and the call at
    hand, [None] when the mail goes out, [Some msg] when
    [send_email_smtp] raises an exception [e] with [str(e) = msg]. *)
Variable smtp : list mail -> mail -> option ustring.

(** The clock: the time stamp written for the row with a given number. *)
Variable now : nat -> ustring.

Variable cfg : config.

(** [str(x)] for a cell. *)
Definition py_str (c : cell) : ustring :=
  match c with
  | CNone => u "None"
  | CInt z => str_of_Z z
  | CFloat f => if is_nan f then u "nan" else float_repr f
  | CText s => s
  end.

(** [float(r.get("_debt", 0.0))]. The column ["_debt"] is the float
    column the selection writes, and [float] is the identity on its
    cells; a table without the column gives the default. *)
Definition debt_of (cols : list ustring) (r : list cell) : float :=
  match get cols r DEBT_KEY (CFloat fzero) with
  | CFloat f => f
  | _ => fzero
  end.

Definition make_body (fio : ustring) (debt : float) : result ustring :=
  format (template_text cfg)
         [(u "FIO", fio); (u "DEBT", format_money debt);
          (u "TODAY", today_text cfg); (u "DUE", due_text cfg)].

Definition recipient (cols : list ustring) (r : list cell) : ustring :=
  if per_row_mode cfg then
    match email_col cfg with
    | Some ec =>
      if truthy ec then strip (py_str (get cols r ec (CText []))) else []
    | None => []
    end
  else common_email cfg.

Definition the_mail (to_addr body : ustring) : mail :=
  mkMail (smtp_host cfg) (smtp_port cfg) (smtp_user cfg)
         (smtp_password cfg) (use_tls cfg) (from_addr cfg) to_addr
         (subject cfg) body.

(** The [except] branch: one more failure with [str(e)] as comment. *)
Definition failed (s : state) (fio to_addr : ustring) (debt : float)
           (msg : ustring) : state :=
  mkState (db s) (sent s) (slept s) (progress s)
          (log_rows s ++ [mkLog fio to_addr debt StatusError msg])
          (ok s) (S (fail s)).

(** The [try] statement of the loop body. An exception of
    [add_to_monitoring] comes after the mail has gone out and is caught
    like any other: the row is an error, with no pause. *)
Definition attempt (idx : nat) (s : state) (fio to_addr : ustring)
           (debt : float) (body : ustring) : state :=
  if negb (has_char AT to_addr) then
    failed s fio to_addr debt INVALID_EMAIL
  else if dry_run cfg then
    mkState (db s) (sent s) (slept s) (progress s)
            (log_rows s
             ++ [mkLog fio to_addr debt StatusOKDryRun TEST_COMMENT])
            (S (ok s)) (fail s)
  else
    let m := the_mail to_addr body in
    match smtp (sent s) m with
    | Some msg =>
      failed (mkState (db s) (sent s ++ [m]) (slept s) (progress s)
                      (log_rows s) (ok s) (fail s))
             fio to_addr debt msg
    | None =>
      match add_to_monitoring float_repr read_csv write_csv (now idx) fio
                              debt METHOD_EMAIL STATUS_DELIVERED
                              (SENT_TO ++ to_addr) (db s) with
      | (db', Some msg) =>
        failed (mkState db' (sent s ++ [m]) (slept s) (progress s)
                        (log_rows s) (ok s) (fail s))
               fio to_addr debt msg
      | (db', None) =>
        mkState db' (sent s ++ [m]) (slept s ++ [sleep_time cfg])
                (progress s)
                (log_rows s ++ [mkLog fio to_addr debt StatusOK []])
                (S (ok s)) (fail s)
      end
    end.

(** The update of the progress display after a row. *)
Definition show_progress (idx total : nat) (s : state) : state :=
mkState (db s) (sent s) (slept s) (progress s ++ [(idx, total)])
        (log_rows s) (ok s) (fail s).

(** The name the loop reads from a row. *)
Definition row_fio (cols : list ustring) (r : list cell) : ustring :=
strip (py_str (get cols r (fio_col cfg) (CText []))).


(** Whether the body of the message composes for a row. *)
Definition composes (cols : list ustring) (r : list cell) : bool :=
negb (raises (make_body (row_fio cols r) (debt_of cols r))).

(** One turn of the loop for the row numbered [idx] of [total]; the
    body of the message is composed before the [try]. *)
Definition iteration (cols : list ustring) (total idx : nat)
           (r : list cell) (s : state) : result state :=
  let fio := row_fio cols r in
  let debt := debt_of cols r in
  let to_addr := recipient cols r in
  match make_body fio debt with
  | Raise e => Raise e
  | Ok body =>
    Ok (show_progress idx total (attempt idx s fio to_addr debt body))
  end.

(** The loop from row number [idx] on. *)
Fixpoint loop (cols : list ustring) (total idx : nat)
         (rs : list (list cell)) (s : state) : run :=
  match rs with
  | [] => Finished s
  | r :: rs' =>
    match iteration cols total idx r s with
    | Raise e => Crashed e s
    | Ok s' => loop cols total (S idx) rs' s'
    end
  end.

(** The settings a real run cannot do without. *)
Definition missing_settings : list ustring :=
  (if truthy (smtp_host cfg) then [] else [u "SMTP host"])
  ++ (if truthy (from_addr cfg) then [] else [u "From"])
  ++ (if truthy (smtp_user cfg) && negb (truthy (smtp_password cfg))
      then [u "SMTP password"] else []).

(** The handler of the send button on the debtor table [debtors], the
    ledger file being [st]. *)
Definition send_button (debtors : frame) (st : store) : run :=
  if Nat.eqb (List.length (rows debtors)) 0 then Stopped NO_DEBTORS []
  else if negb (dry_run cfg)
          && negb (Nat.eqb (List.length missing_settings) 0)
  then Stopped FILL_IN missing_settings
  else loop (columns debtors) (List.length (rows debtors)) 1
            (rows debtors) (initial st).

End Dispatch.

(** What a press of the button leaves behind, the ledger file having
    been [st] before: nothing when the handler stopped in its checks. *)
Definition after (st : store) (r : run) : state :=
  match r with
  | Stopped _ _ => initial st
  | Crashed _ s => s
  | Finished s => s
  end.

Definition is_error (l : log_row) : bool :=
  match l_status l with StatusError => true | _ => false end.

Definition count_errors (ls : list log_row) : nat :=
  List.length (filter is_error ls).

Definition count_successes (ls : list log_row) : nat :=
  List.length (filter (fun l => negb (is_error l)) ls).

(** *** A batch of three debtors *)

(** Three debtors, the second with an address without ["@"]. *)
Definition debtor_1 : list cell :=
  [CText (u "Иванов"); CText (u "ivanov@example.com"); CFloat d_100].
Definition debtor_2 : list cell :=
  [CText (u "Петров"); CText (u "petrov.example.com"); CFloat d_200_5].
Definition debtor_3 : list cell :=
  [CText (u "Сидоров"); CText (u "sidorov@example.com"); CFloat d_1234_56].

Definition debtor_columns : list ustring := [u "ФИО"; u "Email"; DEBT_KEY].

Definition three_debtors : frame :=
  mkFrame debtor_columns [debtor_1; debtor_2; debtor_3].

Definition config_example (dry : bool) : config :=
  mkConfig true [] (u "ФИО") (Some (u "Email")) default_template
           (u "Уведомление о задолженности")
           (u "smtp.gmail.com") 587 true (u "uk@example.com") (u "secret")
           (u "uk@example.com") (double false 4503599627370496 (-52)) dry
           (u "03.11.2026") (u "04.12.2026").

(** A mail capability that delivers every mail, one that refuses every
    mail, a reader that finds an empty ledger, a stopped clock and a
    printer of floats, to run the loop on examples. *)
Definition smtp_delivers (_ : list mail) (_ : mail) : option ustring := None.
Definition smtp_refuses (_ : list mail) (_ : mail) : option ustring :=
  Some (u "Connection refused").
Definition read_empty (_ : ustring) : decoded frame :=
  Decoded (mkFrame DB_COLUMNS []).
Definition clock_example (_ : nat) : ustring := u "03.11.2026 10:00".
Definition repr_example (f : float) : ustring := format_money f.

(** A printer of amounts without grouping, which the conversion of the
    examples reads back. *)
Definition float_repr_example (f : float) : ustring :=
  remove_char SPACE (format_money f).

(** The body of the message to the first debtor of the examples. *)
Definition body_example : ustring :=
  Eval vm_compute in
    match format default_template
                 [(u "FIO", u "Иванов"); (u "DEBT", format_money d_100);
                  (u "TODAY", u "03.11.2026"); (u "DUE", u "04.12.2026")] with
    | Ok b => b
    | Raise _ => []
    end.

(** A ledger of two entries, the second with a comma in the name. *)
Definition ledger_two_entries : frame :=
  mkFrame DB_COLUMNS
          [[CText (u "03.11.2026 10:00"); CText (u "Иванов"); CFloat d_100;
            CText METHOD_EMAIL; CText STATUS_DELIVERED;
            CText (SENT_TO ++ u "ivanov@example.com")];
           [CText (u "03.11.2026 10:05"); CText (u "Сидоров, С.");
            CFloat d_1234_56; CText METHOD_EMAIL; CText STATUS_DELIVERED;
            CText (SENT_TO ++ u "sidorov@example.com")]].

(** The settings of a dry run whose template opens with the first
    letter of the name, [{FIO[0]}], and three debtors of whom the second
    has blanks for a name and no ["@"] in the address. *)
Definition config_index_template : config :=
  mkConfig true [] (u "ФИО") (Some (u "Email"))
           [Lit (u "Уважаемый(ая) "); index_field (u "FIO") 0;
            Lit (u "., Ваш долг: "); Field (u "DEBT")]
           (u "Уведомление о задолженности")
           (u "smtp.gmail.com") 587 true (u "uk@example.com") (u "secret")
           (u "uk@example.com") (double false 4503599627370496 (-52)) true
           (u "03.11.2026") (u "04.12.2026").

Definition debtor_blank : list cell :=
  [CText (u "  "); CText (u "petrov.example.com"); CFloat d_200_5].

Definition blank_name_debtors : frame :=
  mkFrame debtor_columns [debtor_1; debtor_blank; debtor_3].


Definition config_no_host (dry : bool) : config :=
  mkConfig true [] (u "ФИО") (Some (u "Email")) default_template
           (u "Уведомление о задолженности")
           [] 587 true (u "uk@example.com") (u "secret")
           (u "uk@example.com") (double false 4503599627370496 (-52)) dry
           (u "03.11.2026") (u "04.12.2026").

(** The text of a ledger file with the header line only. *)
Definition ledger_header_text : ustring :=
  csv_line (map csv_quote DB_COLUMNS).

(* ================================================================== *)
(** ** Counting over a batch *)
(* ================================================================== *)

(** The rows of a debtor table whose resolved address has an ["@"]. *)
Definition addressed (float_repr : float -> ustring) (cfg : config)
           (d : frame) : list (list cell) :=
  filter (fun r => has_char AT (recipient float_repr cfg (columns d) r))
         (rows d).

Definition is_delivered (l : log_row) : bool :=
  match l_status l with StatusOK => true | _ => false end.

(** What the log says about whom: name, address and debt of a record. *)
Definition log_subject (l : log_row) : ustring * ustring * float :=
  (l_fio l, l_email l, l_debt l).

(** The settings of the example in the mode with one shared
    address. *)
Definition config_shared : config :=
  mkConfig false (u "office@example.com") (u "ФИО") None default_template
           (u "Уведомление о задолженности")
           (u "smtp.gmail.com") 587 true (u "uk@example.com") (u "secret")
           (u "uk@example.com") (double false 4503599627370496 (-52)) false
           (u "03.11.2026") (u "04.12.2026").

(* ================================================================== *)
(** ** Cells that are no debt *)
(* ================================================================== *)

(** The characters that count for [to_number]: digits, the comma, the
    period and the minus sign. *)
Definition numeric_char (c : N) : bool :=
  is_digit c || (c =? COMMA)%N || (c =? PERIOD)%N || (c =? MINUS)%N.

(** Cells that hold no positive amount on their face: a missing cell, an
    integer that is not positive, a text whose cleaned form starts with a
    minus sign, and a text whose cleaned form is no number. *)
Inductive no_amount : cell -> Prop :=
| na_none : no_amount CNone
| na_nan : no_amount NaN
| na_int : forall z, (z <= 0)%Z -> no_amount (CInt z)
| na_minus : forall s t, number_text s = MINUS :: t -> no_amount (CText s)
| na_garbage : forall s, parse_float (number_text s) = None ->
                         no_amount (CText s).

(* ================================================================== *)
(** ** The column pickers *)
(* ================================================================== *)

Definition NOT_SELECTED : ustring := u "— не выбрано —".

(** [cols = ["— не выбрано —"] + list(df_raw.columns)]. *)
Definition picker_options (headers : list ustring) : list ustring :=
  NOT_SELECTED :: headers.

(** [cols.index(target_col) if target_col in cols else 0]; an unmapped
    field has [target_col = None], which is in no list of labels. *)
Definition default_idx (target_col : option ustring) (cols : list ustring)
  : nat :=
  match target_col with
  | Some c =>
    match index_of c cols with
    | Some i => i
    | None => O
    end
  | None => O
  end.

(** [None if picked == "— не выбрано —" else picked]. *)
Definition col_map_entry (picked : ustring) : option ustring :=
  if ueqb picked NOT_SELECTED then None else Some picked.

(** [col_map] when every picker is left at its default index: the
    picker returns the option at that index. *)
Definition default_col_map (auto_map : list (ustring * option ustring))
           (headers : list ustring) : list (ustring * option ustring) :=
  let cols := picker_options headers in
  map (fun field =>
         (field,
          col_map_entry
            (nth (default_idx (map_get field auto_map) cols) cols
                 NOT_SELECTED)))
      REQUIRED_FIELDS.

(** The fields without which the script stops:
    [[f for f in ["ФИО", "Сумма долга"] if not col_map.get(f)]]. *)
Definition missing_min (col_map : list (ustring * option ustring))
  : list ustring :=
  filter (fun f => negb (truthy_opt (map_get f col_map)))
         [u "ФИО"; u "Сумма долга"].

(* ================================================================== *)
(** ** TableIngestor: [read_table] *)
(* ================================================================== *)

(** The ways [read_table] ends without a table: its own two
    [RuntimeError]s, and an exception a decoder raised and nothing
    caught. *)
Inductive table_error :=
| UnsupportedFormat
| UnreadablePdf
| DecoderError (msg : ustring).

Inductive ingested :=
| Table (df : frame)
| NoTable (e : table_error).

(** [s.endswith(suffix)]. *)
Definition ends_with (suffix s : ustring) : bool :=
  prefixb (rev suffix) (rev s).

Definition SEPARATORS : list ustring := [[COMMA]; [59%N]; [9%N]].

Section TableIngestor.

(** [str.lower], as in the mapper. *)
Variable lower : ustring -> ustring.

(** [repr] of a float, as [astype(str)] prints it. *)
Variable float_repr : float -> ustring.

(** The decoders: [pd.read_csv] with a separator and UTF-8,
    [pd.read_csv] as it is, [pd.read_excel], the tables [camelot] finds
    (each as its [df]), [pd.concat] of them, the tables [pdfplumber]
    extracts page by page ([None] for a page without one), and
    [pd.DataFrame] on a list of rows. *)
Variable read_csv_sep : ustring -> list N -> decoded frame.
Variable read_csv_plain : list N -> decoded frame.
Variable read_excel : list N -> decoded frame.
Variable camelot_tables : list N -> decoded (list frame).
Variable concat_tables : list frame -> decoded frame.
Variable plumber_pages : list N -> decoded (list (option (list (list cell)))).
Variable frame_of_rows : list (list cell) -> decoded frame.

(** The loop over the candidate separators: the first table with more
    than one column is returned, an exception moves on to the next. *)
Fixpoint sniff (seps : list ustring) (data : list N) : option frame :=
  match seps with
  | [] => None
  | sep :: rest =>
    match read_csv_sep sep data with
    | Decoded df =>
      if (1 <? List.length (columns df))%nat then Some df
      else sniff rest data
    | Failed _ => sniff rest data
    end
  end.

(** The first row as header, when the table has more than one row:
    [df.columns = df.iloc[0].astype(str)], [df = df.iloc[1:]]. *)
Definition promote_header (df : frame) : frame :=
  match rows df with
  | first :: second :: more =>
    mkFrame (map (py_str float_repr) (pad (List.length (columns df)) first))
            (second :: more)
  | _ => df
  end.

(** The [camelot] attempt; [None] when it raised or found nothing. *)
Definition try_camelot (data : list N) : option frame :=
  match camelot_tables data with
  | Decoded (t :: ts) =>
    match concat_tables (t :: ts) with
    | Decoded df => Some (promote_header df)
    | Failed _ => None
    end
  | Decoded [] => None
  | Failed _ => None
  end.

(** [rows.extend(table)] for every page with a table. *)
Definition page_rows (pages : list (option (list (list cell))))
  : list (list cell) :=
  flat_map (fun p => match p with Some t => t | None => [] end) pages.

(** The [pdfplumber] attempt; [None] when it raised or found no rows. *)
Definition try_pdfplumber (data : list N) : option frame :=
  match plumber_pages data with
  | Decoded pages =>
    match page_rows pages with
    | [] => None
    | r :: rs =>
      match frame_of_rows (r :: rs) with
      | Decoded df => Some (promote_header df)
      | Failed _ => None
      end
    end
  | Failed _ => None
  end.

Definition let_through (d : decoded frame) : ingested :=
  match d with
  | Decoded df => Table df
  | Failed msg => NoTable (DecoderError msg)
  end.

Definition read_table (file_name : ustring) (data : list N) : ingested :=
  let name := lower file_name in
  if ends_with (u ".csv") name then
    match sniff SEPARATORS data with
    | Some df => Table df
    | None => let_through (read_csv_plain data)
    end
  else if ends_with (u ".xlsx") name || ends_with (u ".xls") name then
    let_through (read_excel data)
  else if ends_with (u ".pdf") name then
    match try_camelot data with
    | Some df => Table df
    | None =>
      match try_pdfplumber data with
      | Some df => Table df
      | None => NoTable UnreadablePdf
      end
    end
  else NoTable UnsupportedFormat.

End TableIngestor.

(** A separator under which the file decodes to more than one column. *)
Definition wide (read_csv_sep : ustring -> list N -> decoded frame)
           (data : list N) (sep : ustring) : bool :=
  match read_csv_sep sep data with
  | Decoded df => (1 <? List.length (columns df))%nat
  | Failed _ => false
  end.

(* ================================================================== *)
(** ** The mail capability: [send_email_smtp] *)
(* ================================================================== *)

(** What [send_email_smtp] asks of the SMTP library, step by step. *)
Inductive smtp_op :=
| OpenSSL (host : ustring) (port : Z)     (* smtplib.SMTP_SSL(host, port) *)
| OpenPlain (host : ustring) (port : Z)   (* smtplib.SMTP(host, port) *)
| Ehlo
| StartTLS
| Login (user password : ustring)
| Sendmail (sender : ustring) (recipients : list ustring) (text : ustring)
| Close.                                  (* leaving the [with] block: QUIT *)

Definition is_sendmail (op : smtp_op) : bool :=
  match op with Sendmail _ _ _ => true | _ => false end.

Definition is_login (op : smtp_op) : bool :=
  match op with Login _ _ => true | _ => false end.

Definition is_starttls (op : smtp_op) : bool :=
  match op with StartTLS => true | _ => false end.

Definition is_secure (op : smtp_op) : bool :=
  match op with OpenSSL _ _ => true | StartTLS => true | _ => false end.

Section MailSender.

(** The SMTP library and the server behind it: after the steps taken so
    far, a step goes through ([None]) or raises an exception with a
    text. *)
Variable server : list smtp_op -> smtp_op -> option ustring.

(** [msg.as_string()] of the message built from sender, recipient,
    subject and body. *)
Variable mime_text : ustring -> ustring -> ustring -> ustring -> ustring.

(** The steps in their order; the first exception ends them. *)
Fixpoint run_ops (done : list smtp_op) (ops : list smtp_op)
  : list smtp_op * option ustring :=
  match ops with
  | [] => (done, None)
  | op :: rest =>
    match server done op with
    | Some e => (done ++ [op], Some e)
    | None => run_ops (done ++ [op]) rest
    end
  end.

(** The body of the [with] block. *)
Definition session_ops (m : mail) : list smtp_op :=
  let login := if truthy (m_user m) then [Login (m_user m) (m_password m)]
               else [] in
  let send := [Sendmail (m_from m) [m_to m]
                        (mime_text (m_from m) (m_to m) (m_subject m)
                                   (m_body m))] in
  if (m_port m =? 465)%Z then login ++ send
  else Ehlo :: (if m_use_tls m then [StartTLS; Ehlo] else []) ++ login ++ send.

(** The connection: implicit TLS on port 465, a plain one otherwise. *)
Definition opener (m : mail) : smtp_op :=
  if (m_port m =? 465)%Z then OpenSSL (m_host m) (m_port m)
  else OpenPlain (m_host m) (m_port m).

(** [send_email_smtp]: the steps taken, and the exception if one was
    raised. An exception while opening the connection leaves no block to
    close. After that the block is left in every case: leaving it says
    [QUIT] to the server, and an answer other than 221 raises an
    exception of its own, which replaces the one of the block. *)
Definition send_email_smtp (m : mail) : list smtp_op * option ustring :=
  match server [] (opener m) with
  | Some e => ([opener m], Some e)
  | None =>
    let '(trace, err) := run_ops [opener m] (session_ops m) in
    match server trace Close with
    | Some e => (trace ++ [Close], Some e)
    | None => (trace ++ [Close], err)
    end
  end.

End MailSender.

(** Two tables for the examples of the ingestor: the file read as one
    column, and as three. *)
Definition debts_narrow : frame :=
  mkFrame [u "ФИО;Долг;Email"] [[CText (u "Иванов;100;ivanov@example.com")]].

Definition debts_wide : frame :=
  mkFrame [u "ФИО"; u "Долг"; u "Email"]
          [[CText (u "Иванов"); CInt 100; CText (u "ivanov@example.com")]].

(** The steps of the [with] block before the mail is handed over. *)
Definition session_prelude (m : mail) : list smtp_op :=
  let login := if truthy (m_user m) then [Login (m_user m) (m_password m)]
               else [] in
  if (m_port m =? 465)%Z then login
  else Ehlo :: (if m_use_tls m then [StartTLS; Ehlo] else []) ++ login.

(** A mail, a server that takes every step, one that refuses every
    login, and a stand-in for the text of the message, for the examples of
    the mail capability. *)
Definition mail_example : mail :=
  mkMail (u "smtp.gmail.com") 587 (u "uk@example.com") (u "secret") true
         (u "uk@example.com") (u "ivanov@example.com") (u "Уведомление")
         (u "Уважаемый(ая), Иванов").

Definition mail_anonymous : mail :=
  mkMail (u "smtp.example.com") 465 [] (u "secret") true
         (u "uk@example.com") (u "ivanov@example.com") (u "Уведомление")
         (u "Уважаемый(ая), Иванов").

Definition server_accepts (_ : list smtp_op) (_ : smtp_op) : option ustring :=
  None.

Definition server_refuses_login (_ : list smtp_op) (op : smtp_op)
  : option ustring :=
  if is_login op then Some (u "535 Authentication failed") else None.


Definition mime_example (sender recipient subject body : ustring) : ustring :=
  u "Subject: " ++ subject.

(* ================================================================== *)
(** * Properties *)
(* ================================================================== *)

Lemma ueqb_spec : forall a b, ueqb a b = true <-> a = b.
Proof.
  induction a as [|x a IH]; destruct b as [|y b]; simpl; split;
    try congruence; try reflexivity.
  - intros H. apply andb_true_iff in H. destruct H as [H1 H2].
    apply N.eqb_eq in H1. apply IH in H2. congruence.
  - intros H. inversion H; subst. rewrite N.eqb_refl.
    simpl. apply IH. reflexivity.
Qed.


Lemma ueqb_refl : forall a, ueqb a a = true.
Proof. intros a. apply ueqb_spec. reflexivity. Qed.

(** *** Tables *)

Lemma index_of_lt : forall c cols i,
  index_of c cols = Some i -> (i < List.length cols)%nat.
Proof.
  intros c cols. induction cols as [|c' cols IH]; simpl; intros i H.
  - discriminate.
  - destruct (ueqb c c').
    + inversion H; subst. lia.
    + destruct (index_of c cols) as [j|]; simpl in H; try discriminate.
      inversion H; subst. specialize (IH j eq_refl). lia.
Qed.

Lemma index_of_app_new : forall c cols,
  index_of c cols = None ->
  index_of c (cols ++ [c]) = Some (List.length cols).
Proof.
  intros c cols. induction cols as [|c' cols IH]; simpl; intros H.
  - rewrite ueqb_refl. reflexivity.
  - destruct (ueqb c c'); try discriminate.
    destruct (index_of c cols); simpl in H; try discriminate.
    rewrite IH by reflexivity. reflexivity.
Qed.

Lemma length_pad : forall n r, List.length (pad n r) = n.
Proof.
  intros n r. unfold pad. rewrite length_firstn, length_app, repeat_length.
  lia.
Qed.

Lemma nth_set_nth : forall i v r d,
  (i < List.length r)%nat -> nth i (set_nth i v r) d = v.
Proof.
  induction i as [|i IH]; destruct r as [|x r]; simpl; intros d H;
    try lia; try reflexivity.
  apply IH. lia.
Qed.

Lemma get_assign : forall cols c v r d,
  get (assign_columns cols c) (assign_cell cols c v r) c d = v.
Proof.
  intros cols c v r d. unfold get, assign_columns, assign_cell.
  destruct (index_of c cols) as [i|] eqn:E.
  - rewrite E. unfold cell_at. apply nth_set_nth.
    rewrite length_pad. eapply index_of_lt; eassumption.
  - rewrite (index_of_app_new _ _ E). unfold cell_at.
    rewrite app_nth2; rewrite length_pad; try lia.
    rewrite Nat.sub_diag. reflexivity.
Qed.

(** *** NumericNormalizer *)

Lemma apply_to_number_Forall2 : forall xs ds,
  apply_to_number xs = Ok ds <->
  Forall2 (fun x d => to_number x = Ok d) xs ds.
Proof.
  induction xs as [|x xs IH]; intros ds; simpl; split; intros H.
  - inversion H; subst. constructor.
  - inversion H; subst. reflexivity.
  - destruct (to_number x) as [d|e] eqn:E; try discriminate.
    destruct (apply_to_number xs) as [ds'|e] eqn:E'; try discriminate.
    inversion H; subst. constructor; [assumption|]. apply IH. reflexivity.
  - inversion H as [|? d ? ds' Hx Hxs]; subst. rewrite Hx.
    apply IH in Hxs. rewrite Hxs. reflexivity.
Qed.

(** *** DebtSelector *)

Lemma filter_attach : forall cols l,
  filter (fun r => positive_debt
                     (get (assign_columns cols DEBT_KEY) r DEBT_KEY NaN))
         (map (attach cols) l)
  = map (attach cols) (filter (fun rd => float_gt (snd rd) fzero) l).
Proof.
  intros cols l. induction l as [|rd l IH]; simpl; [reflexivity|].
  unfold attach at 1. rewrite get_assign. simpl.
  destruct (float_gt (snd rd) fzero); simpl; rewrite IH; reflexivity.
Qed.

Lemma snd_retained : forall rs ds,
  List.length rs = List.length ds ->
  map snd (retained rs ds) = filter (fun d => float_gt d fzero) ds.
Proof.
  induction rs as [|r rs IH]; destruct ds as [|d ds]; simpl; intros H;
    try discriminate; try reflexivity.
  unfold retained in *. simpl.
  destruct (float_gt d fzero); simpl; rewrite IH by lia; reflexivity.
Qed.

Lemma select_debtors_eq : forall df col i ds,
  index_of col (columns df) = Some i ->
  apply_to_number (map (cell_at i) (rows df)) = Ok ds ->
  select_debtors df col
  = Ok (mkFrame (assign_columns (columns df) DEBT_KEY)
                (map (attach (columns df)) (retained (rows df) ds))).
Proof.
  intros df col i ds Hi Hds. unfold select_debtors. rewrite Hi, Hds.
  f_equal. f_equal. apply filter_attach.
Qed.

(** C5. With the debt column mapped to column [i] and every debt cell
    normalised by [to_number] (to [ds], cell by cell), the selection
    returns exactly the rows whose normalised debt is strictly greater
    than zero, in source order, each carrying its normalised value under
    ["_debt"]; the debts of the result are the positive ones among [ds],
    in order. *)
Theorem select_debtors_spec : forall df col i ds,
  index_of col (columns df) = Some i ->
  Forall2 (fun x d => to_number x = Ok d) (map (cell_at i) (rows df)) ds ->
  exists d,
    select_debtors df col = Ok d /\
    rows d = map (attach (columns df)) (retained (rows df) ds) /\
    debts d = map CFloat (filter (fun v => float_gt v fzero) ds) /\
    Forall (fun r => exists v, get (columns d) r DEBT_KEY NaN = CFloat v
                               /\ float_gt v fzero = true) (rows d).
Proof.
  intros df col i ds Hi Hds.
  assert (Hlen : List.length (rows df) = List.length ds).
  { apply Forall2_length in Hds. rewrite length_map in Hds. exact Hds. }
  apply apply_to_number_Forall2 in Hds.
  eexists. split; [apply (select_debtors_eq df col i ds Hi Hds)|]. simpl.
  split; [reflexivity|]. split.
  - unfold debts. simpl. rewrite map_map.
    rewrite <- (snd_retained _ _ Hlen). rewrite map_map.
    apply map_ext. intros rd. unfold attach. apply get_assign.
  - apply Forall_forall. intros r Hr. apply in_map_iff in Hr.
    destruct Hr as [rd [Hrd Hin]]. subst r. exists (snd rd). split.
    + unfold attach. apply get_assign.
    + unfold retained in Hin. apply filter_In in Hin. apply Hin.
Qed.

(** The example of the selection: debts [100, 0, -5, "200,50"] leave two
    rows, with debts [100.0] and [200.5], in that order. *)
Lemma select_debtors_example :
  exists d,
    select_debtors debts_example (u "Долг") = Ok d /\
    debts d = [CFloat d_100; CFloat d_200_5] /\
    map (fun r => cell_at 0 r) (rows d) = [CText (u "A"); CText (u "D")] /\
    nearest_to d_100 100 1 = true /\ nearest_to d_200_5 2005 10 = true.
Proof.
  destruct (@select_debtors_spec debts_example (u "Долг") 1%nat
              [d_100; fzero; double true 5629499534213120 (-50); d_200_5]
              eq_refl)
    as (d & H1 & H2 & H3 & _).
  - repeat constructor.
  - exists d. split; [exact H1|]. split; [rewrite H3; reflexivity|].
    split; [rewrite H2; reflexivity|]. split; reflexivity.
Defined.

(** *** NumericNormalizer: the text path *)

(** The clean-up in one pass: keep digits, commas, periods and minus
    signs, then turn the commas into periods. *)
Lemma number_text_one_pass : forall s,
  number_text s
  = replace_char COMMA PERIOD
      (filter (fun c => is_digit c || (c =? COMMA)%N || (c =? PERIOD)%N
                        || (c =? MINUS)%N) s).
Proof.
  intros s. unfold number_text, replace_char, remove_char.
  induction s as [|c s IH]; simpl; [reflexivity|].
  unfold keep_numeric, is_digit, NBSP, SPACE, COMMA, PERIOD, MINUS in *.
  destruct (c =? 160)%N eqn:E160.
  { apply N.eqb_eq in E160. subst c. simpl. exact IH. }
  destruct (c =? 32)%N eqn:E32.
  { apply N.eqb_eq in E32. subst c. simpl. exact IH. }
  simpl. destruct (c =? 44)%N eqn:E44.
  { apply N.eqb_eq in E44. subst c. simpl. f_equal. exact IH. }
  simpl. rewrite !orb_false_r.
  destruct ((48 <=? c)%N && (c <=? 57)%N || (c =? 46)%N || (c =? 45)%N);
    simpl; [rewrite E44; f_equal|]; exact IH.
Qed.

Lemma number_text_alphabet : forall s,
  forallb keep_numeric (number_text s) = true.
Proof.
  intros s. unfold number_text. apply forallb_forall. intros c Hc.
  apply filter_In in Hc. apply Hc.
Qed.

(** A text cell never raises: a literal [float] refuses gives [0.0]. *)
Lemma to_number_text_total : forall s,
  to_number (CText s) = Ok (to_number_text s) /\
  (parse_float (number_text s) = None -> to_number_text s = fzero).
Proof.
  intros s. split; [reflexivity|]. intros H. unfold to_number_text.
  rewrite H. destruct (degenerate (number_text s)); reflexivity.
Qed.

(** X25. The only cells on which [to_number] raises are Python integers
    too large for a double: on a missing cell, a float and every text it
    returns a number. *)
Lemma to_number_raises_iff : forall x,
  raises (to_number x) = true <->
  exists z, x = CInt z /\ float_of_int z = Raise OverflowError.
Proof.
  intros x. split.
  - destruct x as [|z|f|s]; simpl; try discriminate.
    + intros H. exists z. split; [reflexivity|].
      unfold to_number in H. simpl in H. unfold float_of_int in *.
      destruct (binary_normalize prec emax z 0 false); simpl in H;
        try discriminate; reflexivity.
    + unfold to_number. simpl. destruct (is_nan f); discriminate.
  - intros [z [Hx Hz]]. subst x. unfold to_number. simpl.
    rewrite Hz. reflexivity.
Qed.

(** The values the normaliser is documented with. *)
Lemma to_number_examples :
  to_number (CText (u "1 234,56")) = Ok d_1234_56 /\
  nearest_to d_1234_56 123456 100 = true /\
  to_number (CText (u "")) = Ok fzero /\
  to_number CNone = Ok fzero /\
  to_number NaN = Ok fzero /\
  to_number (CText (u "abc")) = Ok fzero /\
  to_number (CInt (-42)) = Ok d_minus_42 /\
  nearest_to d_minus_42 (-42) 1 = true.
Proof. repeat split; reflexivity. Qed.

(** C3. [to_number] is not total: on the Python integer [10 ** 309],
    which no double can hold, the unguarded [float(x)] of the numeric
    branch raises [OverflowError]. *)
Theorem to_number_int_overflow :
  to_number (CInt (10 ^ 309)) = Raise OverflowError.
Proof. vm_compute. reflexivity. Qed.

(** *** SchemaMapper *)

Lemma existsb_ueqb_In : forall c l, existsb (ueqb c) l = true <-> In c l.
Proof.
  intros c l. rewrite existsb_exists. split.
  - intros [x [Hin Hx]]. apply ueqb_spec in Hx. subst. assumption.
  - intros H. exists c. split; [assumption|apply ueqb_refl].
Qed.

Lemma collapse_from_nonempty : forall s b,
  s <> [] -> b = false \/ (exists c r, s = c :: r /\ is_sep c = false) ->
  collapse_from b s <> [].
Proof.
  intros s b Hs Hb. destruct s as [|c s]; [congruence|]. simpl.
  destruct (is_sep c) eqn:E.
  - destruct Hb as [Hb | [c' [r [Heq Hc']]]].
    + subst b. discriminate.
    + inversion Heq; subst. congruence.
  - discriminate.
Qed.

Lemma collapse_nonempty : forall s, s <> [] -> collapse s <> [].
Proof.
  intros s Hs. unfold collapse. apply collapse_from_nonempty; auto.
Qed.

Lemma contains_nil_r : forall p, contains p [] = true -> p = [].
Proof.
  intros p. destruct p; simpl; [reflexivity|discriminate].
Qed.

Lemma dict_set_keys : forall (f : ustring -> ustring) keys c,
  dict_set c (f c) (map (fun k => (k, f k)) keys)
  = map (fun k => (k, f k)) (add_key keys c).
Proof.
  intros f keys c. unfold add_key.
  induction keys as [|k keys IH]; simpl; [reflexivity|].
  destruct (ueqb c k) eqn:E; simpl.
  - apply ueqb_spec in E. subst k. reflexivity.
  - rewrite IH. destruct (existsb (ueqb c) keys); reflexivity.
Qed.

Lemma find_app_one : forall (P : ustring -> bool) keys c,
  find P (keys ++ [c])
  = match find P keys with
    | Some x => Some x
    | None => if P c then Some c else None
    end.
Proof.
  intros P keys c. induction keys as [|k keys IH]; simpl; [reflexivity|].
  destruct (P k); [reflexivity|exact IH].
Qed.

Lemma find_add_keys : forall (P : ustring -> bool) hs keys,
  find P (fold_left add_key hs keys)
  = match find P keys with
    | Some x => Some x
    | None => find P hs
    end.
Proof.
  intros P hs. induction hs as [|h hs IH]; intros keys; simpl.
  - destruct (find P keys); reflexivity.
  - rewrite IH. unfold add_key. destruct (existsb (ueqb h) keys) eqn:E.
    + destruct (find P keys) eqn:F; [reflexivity|].
      apply existsb_ueqb_In in E.
      rewrite (find_none _ _ F _ E). reflexivity.
    + rewrite find_app_one. destruct (find P keys); [reflexivity|].
      destruct (P h); reflexivity.
Qed.

Lemma map_get_distinct :
  forall (F : list ustring -> option ustring) (L : list (ustring * list ustring))
         field variants,
  distinctb (map fst L) = true ->
  In (field, variants) L ->
  map_get field (map (fun fv => (fst fv, F (snd fv))) L) = F variants.
Proof.
  intros F L field variants. induction L as [|[f v] L IH]; simpl;
    intros HD Hin; [contradiction|].
  apply andb_true_iff in HD. destruct HD as [Hf HD].
  destruct Hin as [Heq | Hin].
  - inversion Heq; subst. rewrite ueqb_refl. reflexivity.
  - destruct (ueqb field f) eqn:E.
    + apply ueqb_spec in E. subst f. exfalso.
      apply negb_true_iff in Hf.
      assert (Hc : existsb (ueqb field) (map fst L) = true).
      { apply existsb_ueqb_In. apply in_map_iff.
        exists (field, variants). split; [reflexivity|assumption]. }
      congruence.
    + apply IH; assumption.
Qed.

Lemma find_first : forall (P : ustring -> bool) l h,
  find P l = Some h ->
  exists pre post, l = pre ++ h :: post /\ P h = true /\
                   forall x, In x pre -> P x = false.
Proof.
  intros P l. induction l as [|x l IH]; simpl; intros h H; [discriminate|].
  destruct (P x) eqn:E.
  - inversion H; subst. exists [], l. repeat split; auto.
    intros y [].
  - destruct (IH h H) as (pre & post & Hl & Hh & Hpre).
    exists (x :: pre), post. subst l. repeat split; auto.
    intros y [Hy | Hy]; [subst; assumption|auto].
Qed.

Lemma aliases_checked :
  distinctb (map fst ALIASES) = true /\
  forallb (fun fv => forallb (fun v => truthy (strip v)) (snd fv)) ALIASES
  = true.
Proof. split; vm_compute; reflexivity. Qed.

Lemma lower_basic_nil_iff : forall s, lower_basic s = [] <-> s = [].
Proof.
  intros s. unfold lower_basic. destruct s; simpl; split; intros H;
    try reflexivity; discriminate.
Qed.

Section SchemaMapperProps.

Variable lower : ustring -> ustring.

(** Lower-casing maps the empty string, and nothing else, to the empty
    string. *)
Hypothesis lower_nil_iff : forall s, lower s = [] <-> s = [].

Let clean := _clean_col lower.
Let pair (k : ustring) := (k, clean k).

Lemma cols_clean_from : forall hs keys,
  fold_left (fun d c => dict_set c (clean c) d) hs (map pair keys)
  = map pair (fold_left add_key hs keys).
Proof.
  induction hs as [|h hs IH]; intros keys; simpl; [reflexivity|].
  unfold pair at 1. rewrite (dict_set_keys clean). apply IH.
Qed.

Lemma cols_clean_keys : forall hs,
  cols_clean lower hs = map pair (fold_left add_key hs []).
Proof. intros hs. apply (cols_clean_from hs []). Qed.

Lemma clean_nil : clean [] = [].
Proof.
  unfold clean, _clean_col. simpl.
  replace (lower (strip [])) with (@nil N); [reflexivity|].
  symmetry. apply (proj2 (lower_nil_iff _)). reflexivity.
Qed.

Lemma alias_clean_nonempty : forall field variants v,
  In (field, variants) ALIASES -> In v variants -> clean v <> [].
Proof.
  intros field variants v Hf Hv.
  destruct aliases_checked as [_ Hs].
  rewrite forallb_forall in Hs. specialize (Hs _ Hf). simpl in Hs.
  rewrite forallb_forall in Hs. specialize (Hs _ Hv).
  unfold clean, _clean_col. apply collapse_nonempty.
  intros Hl. apply (proj1 (lower_nil_iff _)) in Hl. rewrite Hl in Hs.
  discriminate.
Qed.

Lemma alias_hit_truthy : forall field variants col,
  In (field, variants) ALIASES ->
  alias_hit lower variants (clean col) = true -> truthy col = true.
Proof.
  intros field variants col Hf Hhit. destruct col as [|c col];
    [|reflexivity].
  exfalso. rewrite clean_nil in Hhit. unfold alias_hit in Hhit.
  apply existsb_exists in Hhit. destruct Hhit as [v [Hv Hc]].
  apply contains_nil_r in Hc.
  exact (alias_clean_nonempty _ _ _ Hf Hv Hc).
Qed.

Lemma scan_find : forall variants keys,
  (forall col, alias_hit lower variants (clean col) = true ->
               truthy col = true) ->
  scan_columns lower (map pair keys) variants None
  = find (fun h => alias_hit lower variants (clean h)) keys.
Proof.
  intros variants keys Ht. induction keys as [|k keys IH]; simpl;
    [reflexivity|].
  destruct (alias_hit lower variants (clean k)) eqn:E; simpl.
  - rewrite (Ht _ E). reflexivity.
  - exact IH.
Qed.

(** C4. For every header list and every field of the alias table, the
    mapper answers with the first header, in the order of the table's
    columns, whose cleaned form contains a cleaned alias of the field as
    a substring, and with [None] when no header does. The mapper is a
    total function: it raises on no header list. *)
Theorem auto_map_first_match : forall headers field variants,
  In (field, variants) ALIASES ->
  let hit := fun h => alias_hit lower variants (_clean_col lower h) in
  map_get field (auto_map_columns lower headers) = find hit headers /\
  (forall h, map_get field (auto_map_columns lower headers) = Some h ->
     exists pre post, headers = pre ++ h :: post /\ hit h = true /\
                      forall x, In x pre -> hit x = false) /\
  (map_get field (auto_map_columns lower headers) = None <->
     forall h, In h headers -> hit h = false).
Proof.
  intros headers field variants Hf hit.
  assert (E : map_get field (auto_map_columns lower headers)
              = find hit headers).
  { unfold auto_map_columns.
    rewrite (@map_get_distinct
               (fun vs => scan_columns lower (cols_clean lower headers)
                                       vs None)
               ALIASES field variants (proj1 aliases_checked) Hf).
    rewrite cols_clean_keys, scan_find.
    - rewrite find_add_keys. reflexivity.
    - intros col. apply alias_hit_truthy with (field := field).
      exact Hf. }
  split; [exact E|]. rewrite E. split.
  - intros h Hh. apply find_first. exact Hh.
  - split.
    + intros Hn h Hin. exact (find_none _ _ Hn _ Hin).
    + intros Hall. destruct (find hit headers) as [h|] eqn:F;
        [|reflexivity].
      apply find_some in F. destruct F as [Hin Hh].
      rewrite (Hall _ Hin) in Hh. discriminate.
Qed.

End SchemaMapperProps.

(** The mapper on the headers of the example: the full name goes to the
    first of the two columns that match, the address to none. *)
Lemma auto_map_first_match_example :
  (forall s, lower_basic s = [] <-> s = []) /\
  map_get (u "ФИО") (auto_map_columns lower_basic headers_example)
  = Some (u "Ф.И.О.") /\
  map_get (u "Личный счет") (auto_map_columns lower_basic headers_example)
  = Some (u "Лицевой счет") /\
  map_get (u "Сумма долга") (auto_map_columns lower_basic headers_example)
  = Some (u "Долг, руб") /\
  map_get (u "Адрес") (auto_map_columns lower_basic headers_example) = None.
Proof.
  split; [exact lower_basic_nil_iff|].
  pose proof (@auto_map_first_match lower_basic lower_basic_nil_iff
                headers_example) as T.
  split; [|split; [|split]].
  - refine (eq_trans (proj1 (T (u "ФИО") _ _)) _).
    + right; left; reflexivity.
    + vm_compute. reflexivity.
  - refine (eq_trans (proj1 (T (u "Личный счет") _ _)) _).
    + left; reflexivity.
    + vm_compute. reflexivity.
  - refine (eq_trans (proj1 (T (u "Сумма долга") _ _)) _).
    + do 7 right; left; reflexivity.
    + vm_compute. reflexivity.
  - refine (eq_trans (proj1 (T (u "Адрес") _ _)) _).
    + do 2 right; left; reflexivity.
    + vm_compute. reflexivity.
Defined.

(** *** MessageComposer *)

Section ComposerProps.

Variables fio debt today due : ustring.

Let kw := [(u "FIO", fio); (u "DEBT", debt); (u "TODAY", today);
           (u "DUE", due)].

Lemma kw_get_placeholder : forall n,
  kw_get n kw = None <-> existsb (ueqb n) PLACEHOLDERS = false.
Proof.
  intros n. unfold kw, PLACEHOLDERS. simpl.
  destruct (ueqb n (u "FIO")); [split; discriminate|].
  destruct (ueqb n (u "DEBT")); [split; discriminate|].
  destruct (ueqb n (u "TODAY")); [split; discriminate|].
  destruct (ueqb n (u "DUE")); [split; discriminate|].
  split; reflexivity.
Qed.

Lemma placeholder_no_integer : forall n,
  existsb (ueqb n) PLACEHOLDERS = true -> get_integer 0 n = NoInteger.
Proof.
  intros n H. apply existsb_ueqb_In in H.
  destruct H as [H|[H|[H|[H|[]]]]]; subst n; reflexivity.
Qed.

Lemma field_value_placeholder : forall n,
  existsb (ueqb n) PLACEHOLDERS = true -> exists v, field_value n kw = Ok v.
Proof.
  intros n H. unfold field_value. rewrite (placeholder_no_integer n H).
  destruct (kw_get n kw) as [v|] eqn:K; [eexists; reflexivity|].
  apply kw_get_placeholder in K. congruence.
Qed.


Lemma format_known : forall t,
  plain_template t = true -> exists b, format t kw = Ok b.
Proof.
  induction t as [|[s|m|f] t IH];
    cbn [plain_template forallb plain_segment format render_segment];
    intros H.
  - eexists; reflexivity.
  - destruct (IH H) as [b Hb]. rewrite Hb. eexists; reflexivity.
  - apply andb_prop in H. destruct H as [E H].
    destruct (field_value_placeholder m E) as [v Hv]. rewrite Hv.
    destruct (IH H) as [b Hb]. rewrite Hb. eexists; reflexivity.
  - discriminate.
Qed.

End ComposerProps.

(** *** MonitoringLedger *)

Lemma nth_pad : forall n r i,
(i < n)%nat -> nth i (pad n r) NaN = nth i r NaN.
Proof.
intros n r i H. unfold pad. rewrite nth_firstn.
destruct (Nat.ltb_spec i n); [|lia].
destruct (Nat.lt_ge_cases i (List.length r)) as [Hl|Hl].
- apply app_nth1. exact Hl.
- rewrite app_nth2 by exact Hl. rewrite nth_repeat.
  symmetry. apply nth_overflow. exact Hl.
Qed.

Lemma index_of_app_old : forall c cols extra i,
index_of c cols = Some i -> index_of c (cols ++ extra) = Some i.
Proof.
intros c cols extra. induction cols as [|c' cols IH]; simpl; intros i H.
- discriminate.
- destruct (ueqb c c'); [exact H|].
  destruct (index_of c cols) as [j|]; simpl in H; [|discriminate].
  rewrite (IH j eq_refl). exact H.
Qed.

Lemma add_keys_prefix : forall keys cols,
exists extra, fold_left add_key keys cols = cols ++ extra.
Proof.
induction keys as [|k keys IH]; intros cols; simpl.
- exists []. rewrite app_nil_r. reflexivity.
- unfold add_key at 2. destruct (existsb (ueqb k) cols).
  + apply IH.
  + destruct (IH (cols ++ [k])) as [extra E]. exists ([k] ++ extra).
    rewrite E, <- app_assoc. reflexivity.
Qed.

Lemma add_keys_keeps : forall keys cols c,
In c cols \/ In c keys -> In c (fold_left add_key keys cols).
Proof.
induction keys as [|k keys IH]; intros cols c H; simpl.
- destruct H as [H|[]]. exact H.
- apply IH. unfold add_key. destruct (existsb (ueqb k) cols) eqn:E.
  + destruct H as [H|[H|H]]; auto. subst k. left.
    apply existsb_ueqb_In. exact E.
  + destruct H as [H|[H|H]]; auto.
    * left. apply in_or_app. left. exact H.
    * left. apply in_or_app. right. left. exact H.
Qed.

Lemma index_of_In : forall c cols,
In c cols -> exists i, index_of c cols = Some i.
Proof.
intros c cols. induction cols as [|x cols IH]; simpl; intros H;
  [contradiction|].
destruct (ueqb c x) eqn:E; [exists 0%nat; reflexivity|].
destruct H as [H|H]; [subst x; rewrite ueqb_refl in E; discriminate|].
destruct (IH H) as [i Hi]. rewrite Hi. exists (S i). reflexivity.
Qed.

Lemma cell_at_entry_row : forall (e : entry) cols c i,
index_of c cols = Some i ->
cell_at i (map (fun k => entry_get k e) cols) = entry_get c e.
Proof.
intros e cols c. induction cols as [|x cols IH]; simpl; intros i H;
  [discriminate|].
destruct (ueqb c x) eqn:E.
- apply ueqb_spec in E. subst x. inversion H; subst. reflexivity.
- destruct (index_of c cols) as [j|]; simpl in H; [|discriminate].
  inversion H; subst. exact (IH j eq_refl).
Qed.

Lemma get_entry_row : forall (e : entry) cols c d,
In c cols ->
get cols (map (fun k => entry_get k e) cols) c d = entry_get c e.
Proof.
intros e cols c d H. unfold get.
destruct (index_of_In _ _ H) as [i Hi]. rewrite Hi.
exact (cell_at_entry_row e cols c i Hi).
Qed.

(** What [pd.concat] does to a table that gains one entry: one row
    more, the rows before it kept in their order and with their cells,
    the new row holding the values of the entry. *)
Lemma concat_entry_rows : forall df e,
List.length (rows (concat_entry df e)) = S (List.length (rows df)) /\
(forall j c d, In c (columns df) ->
   get (columns (concat_entry df e))
       (nth j (rows (concat_entry df e)) []) c d
   = if (j <? List.length (rows df))%nat
     then get (columns df) (nth j (rows df) []) c d
     else if (j =? List.length (rows df))%nat then entry_get c e
     else get (columns (concat_entry df e)) [] c d) /\
(forall c d, In c (map fst e) ->
   get (columns (concat_entry df e))
       (last (rows (concat_entry df e)) []) c d = entry_get c e).
Proof.
intros df e. unfold concat_entry. cbn [rows columns].
set (cols := fold_left add_key (map fst e) (columns df)).
split; [|split].
- rewrite length_app, length_map. simpl. lia.
- intros j c d Hc.
  destruct (Nat.ltb_spec j (List.length (rows df))) as [Hj|Hj].
  + rewrite app_nth1 by (rewrite length_map; exact Hj).
    rewrite (nth_indep _ [] (pad (List.length cols) []))
      by (rewrite length_map; exact Hj).
    rewrite map_nth.
    destruct (add_keys_prefix (map fst e) (columns df)) as [extra E].
    fold cols in E. unfold get.
    destruct (index_of c (columns df)) as [i|] eqn:I.
    * assert (Hidx : index_of c cols = Some i).
      { rewrite E. apply index_of_app_old. exact I. }
      rewrite Hidx. unfold cell_at. apply nth_pad.
      exact (index_of_lt _ _ _ Hidx).
    * destruct (index_of_In _ _ Hc) as [i Hi]. congruence.
  + rewrite app_nth2 by (rewrite length_map; exact Hj).
    rewrite length_map.
    destruct (Nat.eqb_spec j (List.length (rows df))) as [Hq|Hq].
    * subst j. rewrite Nat.sub_diag. simpl. apply get_entry_row.
      apply add_keys_keeps. left. exact Hc.
    * destruct (j - List.length (rows df))%nat as [|k] eqn:K; [lia|].
      simpl. destruct k; reflexivity.
- intros c d Hc. rewrite last_last. apply get_entry_row.
  apply add_keys_keeps. right. exact Hc.
Qed.

(** On a ledger with the six columns of the application the entry
    becomes the last row, cell for cell. *)
Lemma concat_new_entry : forall df now fio debt method status comment,
columns df = DB_COLUMNS ->
concat_entry df (new_entry now fio debt method status comment)
= mkFrame DB_COLUMNS
          (map (pad 6) (rows df)
           ++ [[CText now; CText fio; CFloat debt; CText method;
                CText status; CText comment]]).
Proof.
intros df now fio debt method status comment H. unfold concat_entry.
rewrite H. reflexivity.
Qed.

(** *** The reader of the ledger file *)

Lemma tokenize_plain_chars : forall w f rec done rest,
clean_text w = true ->
tokenize Plain f rec done (w ++ rest) = tokenize Plain (f ++ w) rec done rest.
Proof.
induction w as [|c w IH]; intros f rec done rest H.
- rewrite app_nil_r. reflexivity.
- unfold clean_text, plain_text, needs_quote in H. cbn [forallb existsb] in H.
  apply andb_prop in H. destruct H as [H1 H2].
  apply andb_prop in H1. destruct H1 as [U P].
  apply negb_true_iff in U. apply negb_true_iff in H2.
  apply orb_false_iff in H2. destruct H2 as [S2 N2].
  apply orb_false_iff in S2. destruct S2 as [S2 _].
  apply orb_false_iff in S2. destruct S2 as [S2 Clf].
  apply orb_false_iff in S2. destruct S2 as [Cc Cq].
  cbn [app tokenize]. rewrite U, Cc, Clf, Cq.
  rewrite IH.
  + rewrite <- app_assoc. reflexivity.
  + unfold clean_text, plain_text, needs_quote. rewrite P, N2. reflexivity.
Qed.

Lemma tokenize_quoted_chars : forall s f rec done rest,
plain_text s = true ->
tokenize Quoted f rec done
  (flat_map (fun c => if (c =? QUOTE)%N then [QUOTE; QUOTE] else [c]) s
   ++ QUOTE :: rest)
= tokenize QuoteSeen (f ++ s) rec done rest.
Proof.
induction s as [|c s IH]; intros f rec done rest H.
- rewrite app_nil_r. reflexivity.
- unfold plain_text in H. cbn [forallb] in H.
  apply andb_prop in H. destruct H as [U P]. apply negb_true_iff in U.
  cbn [flat_map]. destruct (c =? QUOTE)%N eqn:Q.
  + apply N.eqb_eq in Q. subst c.
    change (([QUOTE; QUOTE] ++
             flat_map (fun c => if (c =? QUOTE)%N then [QUOTE; QUOTE]
                                else [c]) s) ++ QUOTE :: rest)
      with (QUOTE :: QUOTE ::
            (flat_map (fun c => if (c =? QUOTE)%N then [QUOTE; QUOTE]
                                else [c]) s ++ QUOTE :: rest)).
    change (tokenize Quoted f rec done (QUOTE :: QUOTE :: ?x))
      with (tokenize Quoted (f ++ [QUOTE]) rec done x).
    rewrite (IH _ _ _ _ P), <- app_assoc. reflexivity.
  + cbn [app tokenize]. rewrite U, Q.
    rewrite (IH _ _ _ _ P), <- app_assoc. reflexivity.
Qed.

(** A written field followed by a comma: the field is read back and
    the next one begins. *)
Lemma tokenize_field_comma : forall s rec done rest,
plain_text s = true ->
tokenize AtStart [] rec done (csv_quote s ++ COMMA :: rest)
= tokenize AtStart [] (rec ++ [s]) done rest.
Proof.
intros s rec done rest P. unfold csv_quote.
destruct (needs_quote s) eqn:Q.
- change ((QUOTE :: ?a ++ [QUOTE]) ++ COMMA :: rest)
    with (QUOTE :: (a ++ [QUOTE]) ++ COMMA :: rest).
  rewrite <- app_assoc.
  change (tokenize AtStart [] rec done (QUOTE :: ?x))
    with (tokenize Quoted [] rec done x).
  cbn [app]. rewrite (tokenize_quoted_chars _ _ _ _ _ P). reflexivity.
- destruct s as [|c s]; [reflexivity|].
  assert (C : clean_text (c :: s) = true).
  { unfold clean_text. rewrite P, Q. reflexivity. }
  unfold clean_text, plain_text, needs_quote in C.
  cbn [forallb existsb] in C.
  apply andb_prop in C. destruct C as [H1 H2].
  apply andb_prop in H1. destruct H1 as [U P'].
  apply negb_true_iff in U. apply negb_true_iff in H2.
  apply orb_false_iff in H2. destruct H2 as [S2 N2].
  apply orb_false_iff in S2. destruct S2 as [S2 _].
  apply orb_false_iff in S2. destruct S2 as [S2 Clf].
  apply orb_false_iff in S2. destruct S2 as [Cc Cq].
  cbn [app tokenize]. rewrite U, Cq, Cc, Clf.
  rewrite tokenize_plain_chars.
  + reflexivity.
  + unfold clean_text, plain_text, needs_quote. rewrite P', N2. reflexivity.
Qed.

(** A written field followed by a line feed, in a record that has a
    field already: the record is read. *)
Lemma tokenize_field_lf : forall s rec done rest,
plain_text s = true -> rec <> [] ->
tokenize AtStart [] rec done (csv_quote s ++ LF :: rest)
= tokenize AtStart [] [] (done ++ [rec ++ [s]]) rest.
Proof.
intros s rec done rest P R. unfold csv_quote.
destruct (needs_quote s) eqn:Q.
- change ((QUOTE :: ?a ++ [QUOTE]) ++ LF :: rest)
    with (QUOTE :: (a ++ [QUOTE]) ++ LF :: rest).
  rewrite <- app_assoc.
  change (tokenize AtStart [] rec done (QUOTE :: ?x))
    with (tokenize Quoted [] rec done x).
  cbn [app]. rewrite (tokenize_quoted_chars _ _ _ _ _ P). reflexivity.
- destruct s as [|c s].
  + destruct rec; [contradiction R; reflexivity|reflexivity].
  + assert (C : clean_text (c :: s) = true).
    { unfold clean_text. rewrite P, Q. reflexivity. }
    unfold clean_text, plain_text, needs_quote in C.
    cbn [forallb existsb] in C.
    apply andb_prop in C. destruct C as [H1 H2].
    apply andb_prop in H1. destruct H1 as [U P'].
    apply negb_true_iff in U. apply negb_true_iff in H2.
    apply orb_false_iff in H2. destruct H2 as [S2 N2].
    apply orb_false_iff in S2. destruct S2 as [S2 _].
    apply orb_false_iff in S2. destruct S2 as [S2 Clf].
    apply orb_false_iff in S2. destruct S2 as [Cc Cq].
    cbn [app tokenize]. rewrite U, Cq, Cc, Clf.
    rewrite tokenize_plain_chars.
    * destruct rec; [contradiction R; reflexivity|reflexivity].
    * unfold clean_text, plain_text, needs_quote. rewrite P', N2.
      reflexivity.
Qed.

(** A written line of at least two fields, or one that continues a
    record, is read as one record. *)
Lemma tokenize_fields : forall fs rec done rest,
forallb plain_text fs = true -> fs <> [] ->
rec <> [] \/ (2 <= List.length fs)%nat ->
tokenize AtStart [] rec done (join_fields (map csv_quote fs) ++ LF :: rest)
= tokenize AtStart [] [] (done ++ [rec ++ fs]) rest.
Proof.
induction fs as [|f fs IH]; intros rec done rest P NE L;
  [contradiction NE; reflexivity|].
cbn [forallb] in P. apply andb_prop in P. destruct P as [Pf P].
destruct fs as [|f2 fs].
- cbn [map join_fields].
  apply tokenize_field_lf; [exact Pf|].
  destruct L as [L|L]; [exact L|simpl in L; lia].
- change (join_fields (map csv_quote (f :: f2 :: fs)))
    with (csv_quote f ++ COMMA :: join_fields (map csv_quote (f2 :: fs))).
  rewrite <- app_assoc. cbn [app].
  rewrite (tokenize_field_comma _ _ _ _ Pf).
  rewrite (IH (rec ++ [f]) done rest P).
  + rewrite <- app_assoc. reflexivity.
  + discriminate.
  + left. destruct rec; discriminate.
Qed.

Lemma tokenize_record : forall fs rec done rest,
forallb plain_text fs = true -> fs <> [] ->
rec <> [] \/ (2 <= List.length fs)%nat ->
tokenize AtStart [] rec done (csv_line (map csv_quote fs) ++ rest)
= tokenize AtStart [] [] (done ++ [rec ++ fs]) rest.
Proof.
intros fs rec done rest P NE L. unfold csv_line.
rewrite <- app_assoc. cbn [app]. apply tokenize_fields; assumption.
Qed.

(** The written lines of a table are read as its records. *)
Lemma tokenize_lines : forall recs done,
Forall (fun fs => (2 <= List.length fs)%nat /\ forallb plain_text fs = true)
       recs ->
tokenize AtStart [] [] done
         (flat_map (fun fs => csv_line (map csv_quote fs)) recs)
= Some (done ++ recs).
Proof.
induction recs as [|fs recs IH]; intros done H.
- rewrite app_nil_r. reflexivity.
- inversion H as [|x l [L P] H']; subst. cbn [flat_map].
  rewrite (tokenize_record fs [] done _ P).
  + rewrite (IH _ H'), <- app_assoc. reflexivity.
  + destruct fs; [simpl in L; lia|discriminate].
  + right. exact L.
Qed.

Lemma pad_full : forall n r, List.length r = n -> pad n r = r.
Proof.
intros n r H. unfold pad. subst n. rewrite firstn_app, Nat.sub_diag.
rewrite firstn_all, firstn_O, app_nil_r. reflexivity.
Qed.

Section ReaderProps.

Variable float_repr : float -> ustring.
Variable scalar_column : list ustring -> option (list cell).

Local Abbreviation text_of := (cell_text float_repr).

(** Every cell of the tables in question is written as the quoted form
    of its text. *)
Lemma csv_cell_quote : forall c,
field_ok float_repr c = true ->
csv_cell float_repr c = csv_quote (text_of c) /\ plain_text (text_of c) = true.
Proof.
intros [| z | f | s] H; try discriminate.
- cbn [field_ok] in H. cbn [cell_text csv_cell].
  destruct (is_nan f); [split; reflexivity|].
  cbn [orb] in H. unfold clean_text in H. apply andb_prop in H.
  destruct H as [P Q]. apply negb_true_iff in Q.
  unfold csv_quote. rewrite Q. split; [reflexivity|exact P].
- split; [reflexivity|exact H].
Qed.

Lemma csv_row_quote : forall r,
forallb (field_ok float_repr) r = true ->
map (csv_cell float_repr) r = map csv_quote (map text_of r) /\
forallb plain_text (map text_of r) = true.
Proof.
induction r as [|c r IH]; intros H; [split; reflexivity|].
cbn [forallb] in H. apply andb_prop in H. destruct H as [Hc Hr].
destruct (csv_cell_quote c Hc) as [E P]. destruct (IH Hr) as [E' P'].
cbn [map forallb]. rewrite E, E', P, P'. split; reflexivity.
Qed.

(** The text of a table in the plain form is the text of its lines of
    texts, the header first. *)
Lemma to_csv_lines : forall df,
Forall (fun r => List.length r = List.length (columns df) /\
                 forallb (field_ok float_repr) r = true) (rows df) ->
to_csv float_repr df
= flat_map (fun fs => csv_line (map csv_quote fs))
           (columns df :: map (map text_of) (rows df)).
Proof.
intros df H. unfold to_csv. cbn [flat_map]. f_equal.
induction (rows df) as [|r rs IH]; [reflexivity|].
inversion H as [|x l [L F] H']; subst. cbn [flat_map map].
rewrite (pad_full _ _ L), (proj1 (csv_row_quote r F)), (IH H').
reflexivity.
Qed.

Lemma to_csv_cons : forall df, exists c text, to_csv float_repr df = c :: text.
Proof.
intros df. unfold to_csv, csv_line.
destruct (join_fields (map csv_quote (columns df))) as [|c t];
  cbn [app]; eexists; eexists; reflexivity.
Qed.

Lemma tokenize_to_csv : forall df,
(2 <= List.length (columns df))%nat ->
forallb plain_text (columns df) = true ->
Forall (fun r => List.length r = List.length (columns df) /\
                 forallb (field_ok float_repr) r = true) (rows df) ->
tokenize AtStart [] [] [] (to_csv float_repr df)
= Some (columns df :: map (map text_of) (rows df)).
Proof.
intros df L P H. rewrite (to_csv_lines df H).
apply (tokenize_lines _ []). constructor; [split; assumption|].
induction (rows df) as [|r rs IH]; [constructor|].
inversion H as [|x l [Lr F] H']; subst. cbn [map]. constructor.
- split; [rewrite length_map, Lr; exact L|].
  exact (proj2 (csv_row_quote r F)).
- exact (IH H').
Qed.

(** *** The cells of a column *)

Lemma missing_text_cell_text : forall c,
is_text_cell c = true -> text_cell (text_of c) = missing_text_cell c.
Proof.
intros [| z | f | s] H; try discriminate.
- cbn [is_text_cell] in H. destruct f; try discriminate. reflexivity.
- reflexivity.
Qed.

Lemma missing_text_cell_na : forall c,
is_text_cell c = true -> is_na_text (text_of c) = true ->
missing_text_cell c = NaN.
Proof.
intros [| z | f | s] H N; try discriminate.
- cbn [is_text_cell] in H. destruct f; try discriminate. reflexivity.
- cbn [cell_text] in N. cbn [missing_text_cell]. rewrite N. reflexivity.
Qed.

Lemma missing_text_cell_float : forall cells,
forallb is_float_cell cells = true -> map missing_text_cell cells = cells.
Proof.
induction cells as [|c cells IH]; intros H; [reflexivity|].
cbn [forallb] in H. apply andb_prop in H. destruct H as [Hc H].
cbn [map]. rewrite (IH H). destruct c; try discriminate. reflexivity.
Qed.

Lemma infer_column_ok : forall cells,
scalars_are_spelled scalar_column ->
column_ok float_repr scalar_column cells ->
infer_column scalar_column (map text_of cells) = map missing_text_cell cells.
Proof.
intros cells Sp [[T V]|[F [A S]]]; unfold infer_column.
- destruct (forallb is_na_text (map text_of cells)) eqn:A.
  + rewrite map_map. clear V.
    induction cells as [|c cells IH]; [reflexivity|].
    cbn [forallb map] in *. apply andb_prop in T. destruct T as [Tc T].
    apply andb_prop in A. destruct A as [Ac A].
    rewrite (missing_text_cell_na c Tc Ac), (IH T A). reflexivity.
  + rewrite (Sp _ A V). rewrite map_map.
    clear - T. induction cells as [|c cells IH]; [reflexivity|].
    cbn [forallb map] in *. apply andb_prop in T. destruct T as [Tc T].
    rewrite (missing_text_cell_text c Tc), (IH T). reflexivity.
- rewrite A, S. symmetry. apply missing_text_cell_float. exact F.
Qed.

(** *** Rows from columns *)

Lemma map_nth_seq : forall (A : Type) (l : list A) (d : A),
map (fun i => nth i l d) (seq 0 (List.length l)) = l.
Proof.
intros A l d. induction l as [|x l IH]; [reflexivity|].
cbn [List.length seq map nth]. rewrite <- seq_shift, map_map.
cbn [nth]. rewrite IH. reflexivity.
Qed.

Lemma nth_column_cells : forall i j (rs : list (list cell)),
(i < List.length rs)%nat ->
nth i (column_cells j rs) NaN = nth j (nth i rs []) NaN.
Proof.
intros i j rs H. unfold column_cells.
rewrite (nth_indep _ NaN ((fun r => nth j r NaN) []))
  by (rewrite length_map; exact H).
apply (map_nth (fun r => nth j r NaN)).
Qed.

Lemma column_texts_cells : forall j (rs : list (list cell)),
column_texts j (map (map text_of) rs) = map text_of (column_cells j rs).
Proof.
intros j rs. unfold column_texts, column_cells. rewrite !map_map.
apply map_ext. intros r. exact (map_nth text_of r NaN j).
Qed.

Lemma read_rows_back : forall n (rs : list (list cell)),
scalars_are_spelled scalar_column ->
Forall (fun r => List.length r = n) rs ->
(forall j, (j < n)%nat ->
           column_ok float_repr scalar_column (column_cells j rs)) ->
read_rows scalar_column n (map (map text_of) rs)
= map (map missing_text_cell) rs.
Proof.
intros n rs Sp L C. unfold read_rows. rewrite length_map.
etransitivity;
  [|apply (f_equal (map (map missing_text_cell)));
    exact (map_nth_seq _ rs [])].
rewrite map_map.
apply map_ext_in. intros i Hi. apply in_seq in Hi. rewrite map_map.
assert (Li : List.length (nth i rs []) = n).
{ rewrite Forall_forall in L. apply L. apply nth_In. lia. }
etransitivity;
  [|apply (f_equal (map missing_text_cell));
    exact (map_nth_seq _ (nth i rs []) NaN)].
rewrite Li, map_map.
apply map_ext_in. intros j Hj. apply in_seq in Hj.
rewrite column_texts_cells, (infer_column_ok _ Sp (C j ltac:(lia))).
rewrite <- (nth_column_cells i j rs ltac:(lia)).
exact (map_nth missing_text_cell (column_cells j rs) NaN i).
Qed.

(** What the model reads from the text of a table in the plain form:
    the table, its text cells that stand for a missing value turned
    into missing cells. *)
Lemma pandas_reads_to_csv : forall df,
scalars_are_spelled scalar_column ->
regular float_repr scalar_column df ->
pandas_read_csv scalar_column (to_csv float_repr df)
= Some (Decoded (read_back df)).
Proof.
intros df Sp (Hh & Hp & H2 & Hr & Hc). unfold pandas_read_csv.
pose proof (tokenize_to_csv df H2 Hp Hr) as T.
destruct (to_csv_cons df) as (c & text & E). rewrite E in T |- *.
rewrite T, Hh. cbn [andb].
assert (Len : forallb (fun r => Nat.eqb (List.length r)
                                        (List.length (columns df)))
                      (map (map text_of) (rows df)) = true).
{ apply forallb_forall. intros r Hin. apply in_map_iff in Hin.
  destruct Hin as (r0 & <- & Hin). rewrite length_map.
  rewrite Forall_forall in Hr. rewrite (proj1 (Hr r0 Hin)).
  apply Nat.eqb_refl. }
rewrite Len. unfold read_back. rewrite read_rows_back; [reflexivity|exact Sp| |exact Hc].
apply Forall_forall. intros r Hin. rewrite Forall_forall in Hr.
exact (proj1 (Hr r Hin)).
Qed.


End ReaderProps.

(** The reader and the conversion of the examples. *)
Lemma reader_of_reads : forall model, reads_like (reader_of model) model.
Proof.
intros model text d H. unfold reader_of. rewrite H. reflexivity.
Qed.

Lemma scalar_column_example_spelled :
scalars_are_spelled scalar_column_example.
Proof.
intros texts _ V. unfold scalar_column_example. rewrite V. reflexivity.
Qed.

Lemma ledger_two_entries_regular :
regular float_repr_example scalar_column_example ledger_two_entries.
Proof.
split; [reflexivity|]. split; [reflexivity|].
split; [cbn; lia|]. split.
- repeat constructor.
- intros j Hj.
  do 6 (destruct j as [|j];
        [first [ left; split; reflexivity
               | right; split; [reflexivity|split; reflexivity] ]|]).
  cbn in Hj. lia.
Qed.



(** The entry of [add_to_monitoring]: its keys are the six columns of
    the ledger, its values the arguments. *)
Lemma new_entry_cells : forall now fio debt method status comment,
map fst (new_entry now fio debt method status comment) = DB_COLUMNS /\
entry_get (u "Дата контакта")
          (new_entry now fio debt method status comment) = CText now /\
entry_get (u "ФИО")
          (new_entry now fio debt method status comment) = CText fio /\
entry_get (u "Сумма долга")
          (new_entry now fio debt method status comment) = CFloat debt /\
entry_get (u "Способ информирования")
          (new_entry now fio debt method status comment) = CText method /\
entry_get (u "Статус информирования")
          (new_entry now fio debt method status comment) = CText status /\
entry_get (u "Комментарий")
          (new_entry now fio debt method status comment) = CText comment.
Proof. intros. vm_compute. repeat split; reflexivity. Qed.

Lemma db_columns_members :
In (u "ФИО") DB_COLUMNS /\ In (u "Сумма долга") DB_COLUMNS /\
In (u "Способ информирования") DB_COLUMNS /\
In (u "Статус информирования") DB_COLUMNS.
Proof.
vm_compute. repeat split.
- right; left; reflexivity.
- right; right; left; reflexivity.
- right; right; right; left; reflexivity.
- right; right; right; right; left; reflexivity.
Qed.

(** *** DispatchEngine *)

Lemma count_split : forall ls,
  (count_successes ls + count_errors ls = List.length ls)%nat.
Proof.
  intros ls. unfold count_successes, count_errors.
  induction ls as [|l ls IH]; simpl; [reflexivity|].
  destruct (is_error l); simpl; lia.
Qed.

Lemma count_errors_app : forall a b,
  count_errors (a ++ b) = (count_errors a + count_errors b)%nat.
Proof.
  intros a b. unfold count_errors. rewrite filter_app, length_app.
  reflexivity.
Qed.

Lemma count_successes_app : forall a b,
  count_successes (a ++ b) = (count_successes a + count_successes b)%nat.
Proof.
  intros a b. unfold count_successes. rewrite filter_app, length_app.
  reflexivity.
Qed.

Section DispatchProps.

Variable float_repr : float -> ustring.
Variable read_csv : ustring -> decoded frame.
Variable write_csv : store -> ustring -> store * option ustring.
Variable smtp : list mail -> mail -> option ustring.
Variable now : nat -> ustring.
Variable cfg : config.

Local Abbreviation attempt_ :=
  (attempt float_repr read_csv write_csv smtp now cfg).
Local Abbreviation iteration_ :=
  (iteration float_repr read_csv write_csv smtp now cfg).
Local Abbreviation loop_ := (loop float_repr read_csv write_csv smtp now cfg).
Local Abbreviation send_button_ :=
  (send_button float_repr read_csv write_csv smtp now cfg).
Local Abbreviation recipient_ := (recipient float_repr cfg).
Local Abbreviation composes_ := (composes float_repr cfg).
Local Abbreviation add_entry_ :=
  (add_to_monitoring float_repr read_csv write_csv).

(** Every pass through the [try] statement writes one record and
    counts it once. *)
Lemma attempt_one_record : forall idx s fio to_addr debt body,
  exists l,
    log_rows (attempt_ idx s fio to_addr debt body) = log_rows s ++ [l] /\
    l_fio l = fio /\ l_email l = to_addr /\ l_debt l = debt /\
    ok (attempt_ idx s fio to_addr debt body)
    = (ok s + if is_error l then 0 else 1)%nat /\
    fail (attempt_ idx s fio to_addr debt body)
    = (fail s + if is_error l then 1 else 0)%nat /\
    progress (attempt_ idx s fio to_addr debt body) = progress s.
Proof.
  intros idx s fio to_addr debt body. unfold attempt, failed.
  destruct (negb (has_char AT to_addr)); [|destruct (dry_run cfg);
    [|destruct (smtp (sent s) (the_mail cfg to_addr body));
      [|destruct (add_entry_ (now idx) fio debt METHOD_EMAIL
                             STATUS_DELIVERED (SENT_TO ++ to_addr) (db s))
          as [db' [msg|]]]]];
    simpl; eexists; (split; [reflexivity|]); simpl;
    repeat split; lia.
Qed.


(** A row for which the body composes. *)
Lemma composes_body : forall cols r,
composes_ cols r = true ->
exists body,
  make_body cfg (row_fio float_repr cfg cols r) (debt_of cols r) = Ok body.
Proof.
intros cols r H. unfold composes in H.
destruct (make_body cfg (row_fio float_repr cfg cols r) (debt_of cols r))
  as [body|e]; [eexists; reflexivity|discriminate].
Qed.

(** With literal text and recognised placeholders only, the body
    composes for every row. *)
Lemma plain_composes : forall cols r,
plain_template (template_text cfg) = true -> composes_ cols r = true.
Proof.
intros cols r H. unfold composes, make_body.
destruct (format_known (row_fio float_repr cfg cols r)
            (format_money (debt_of cols r)) (today_text cfg) (due_text cfg)
            _ H) as [body Hb].
rewrite Hb. reflexivity.
Qed.

(** When the body composes, a turn of the loop is the [try] statement
    followed by the progress update. *)
Lemma iteration_ok : forall cols total idx r s,
composes_ cols r = true ->
exists body,
  make_body cfg (row_fio float_repr cfg cols r) (debt_of cols r) = Ok body /\
  iteration_ cols total idx r s
  = Ok (show_progress idx total
          (attempt_ idx s (row_fio float_repr cfg cols r)
                    (recipient_ cols r) (debt_of cols r) body)).
Proof.
intros cols total idx r s H.
destruct (composes_body cols r H) as [body Hb].
exists body. unfold iteration. rewrite Hb. split; reflexivity.
Qed.


Lemma loop_app : forall cols total a b idx s,
loop_ cols total idx (a ++ b) s
= match loop_ cols total idx a s with
  | Finished s1 => loop_ cols total (idx + List.length a) b s1
  | other => other
  end.
Proof.
intros cols total a b. induction a as [|r a IH]; intros idx s; simpl.
- rewrite Nat.add_0_r. reflexivity.
- destruct (iteration_ cols total idx r s) as [s1|e]; [|reflexivity].
  rewrite IH. replace (S idx + List.length a)%nat
    with (idx + S (List.length a))%nat by lia. reflexivity.
Qed.

Lemma loop_records : forall cols total rs idx s s',
loop_ cols total idx rs s = Finished s' ->
exists new,
  log_rows s' = log_rows s ++ new /\
  List.length new = List.length rs /\
  ok s' = (ok s + count_successes new)%nat /\
  fail s' = (fail s + count_errors new)%nat.
Proof.
intros cols total rs. induction rs as [|r rs IH]; intros idx s s' H.
- simpl in H. inversion H; subst. exists []. rewrite app_nil_r.
  repeat split; unfold count_successes, count_errors; simpl; lia.
- cbn [loop] in H. unfold iteration in H.
  destruct (make_body cfg (row_fio float_repr cfg cols r) (debt_of cols r))
    as [body|e]; [|discriminate].
  destruct (attempt_one_record idx s (row_fio float_repr cfg cols r)
              (recipient_ cols r) (debt_of cols r) body)
    as (l & Hl & _ & _ & _ & Hok & Hfail & _).
  destruct (IH _ _ _ H) as (new & Hn & Hlen & Hok' & Hfail').
  cbn [show_progress log_rows ok fail] in Hn, Hok', Hfail'.
  exists (l :: new). rewrite Hn, Hl, <- app_assoc. simpl.
  split; [reflexivity|]. split; [lia|].
  rewrite Hok', Hfail', Hok, Hfail.
  change (l :: new) with ([l] ++ new).
  rewrite count_successes_app, count_errors_app.
  unfold count_successes, count_errors. simpl.
  destruct (is_error l); simpl; lia.
Qed.

(** C10. When the handler runs the loop to its end over the [n] rows
    of the debtor table, [log_rows] holds exactly [n] records, [ok] counts
    the records that are no errors, [fail] those that are, and
    [ok + fail = n]. *)
Theorem outcome_log_complete : forall debtors st s,
send_button_ debtors st = Finished s ->
List.length (log_rows s) = List.length (rows debtors) /\
(ok s + fail s = List.length (rows debtors))%nat /\
ok s = count_successes (log_rows s) /\
fail s = count_errors (log_rows s).
Proof.
intros debtors st s H. unfold send_button in H.
destruct (Nat.eqb (List.length (rows debtors)) 0); [discriminate|].
destruct (negb (dry_run cfg)
          && negb (Nat.eqb (List.length (missing_settings cfg)) 0));
  [discriminate|].
destruct (loop_records _ _ _ _ _ _ H) as (new & Hn & Hlen & Hok & Hfail).
simpl in Hn, Hok, Hfail. rewrite Hn, Hok, Hfail.
pose proof (count_split new). repeat split; lia.
Qed.

(** The five ways through the [try] statement. *)
Lemma attempt_invalid : forall idx s fio to_addr debt body,
has_char AT to_addr = false ->
attempt_ idx s fio to_addr debt body
= failed s fio to_addr debt INVALID_EMAIL.
Proof.
intros idx s fio to_addr debt body H. unfold attempt. rewrite H.
reflexivity.
Qed.


Lemma attempt_delivered : forall idx s fio to_addr debt body db',
has_char AT to_addr = true -> dry_run cfg = false ->
smtp (sent s) (the_mail cfg to_addr body) = None ->
add_entry_ (now idx) fio debt METHOD_EMAIL STATUS_DELIVERED
           (SENT_TO ++ to_addr) (db s) = (db', None) ->
attempt_ idx s fio to_addr debt body
= mkState db' (sent s ++ [the_mail cfg to_addr body])
          (slept s ++ [sleep_time cfg]) (progress s)
          (log_rows s ++ [mkLog fio to_addr debt StatusOK []])
          (S (ok s)) (fail s).
Proof.
intros idx s fio to_addr debt body db' H D E W. unfold attempt.
rewrite H, D, E, W. reflexivity.
Qed.

(** The mail has gone out and the ledger could not be written. *)
Lemma attempt_unrecorded : forall idx s fio to_addr debt body db' msg,
has_char AT to_addr = true -> dry_run cfg = false ->
smtp (sent s) (the_mail cfg to_addr body) = None ->
add_entry_ (now idx) fio debt METHOD_EMAIL STATUS_DELIVERED
           (SENT_TO ++ to_addr) (db s) = (db', Some msg) ->
attempt_ idx s fio to_addr debt body
= mkState db' (sent s ++ [the_mail cfg to_addr body]) (slept s)
          (progress s)
          (log_rows s ++ [mkLog fio to_addr debt StatusError msg])
          (ok s) (S (fail s)).
Proof.
intros idx s fio to_addr debt body db' msg H D E W. unfold attempt.
rewrite H, D, E, W. reflexivity.
Qed.

Lemma attempt_refused : forall idx s fio to_addr debt body msg,
has_char AT to_addr = true -> dry_run cfg = false ->
smtp (sent s) (the_mail cfg to_addr body) = Some msg ->
attempt_ idx s fio to_addr debt body
= mkState (db s) (sent s ++ [the_mail cfg to_addr body]) (slept s)
          (progress s)
          (log_rows s ++ [mkLog fio to_addr debt StatusError msg])
          (ok s) (S (fail s)).
Proof.
intros idx s fio to_addr debt body msg H D E. unfold attempt.
rewrite H, D, E. reflexivity.
Qed.



(** *** Dry run *)





(** *** Real sends and the ledger *)

(** The rows of a ledger with the six columns are full rows for
    [pd.concat]. *)
Lemma pad_rows_full : forall n (rs : list (list cell)),
Forall (fun r => List.length r = n) rs -> map (pad n) rs = rs.
Proof.
intros n rs H. induction H as [|r rs Hr H IH]; [reflexivity|].
cbn [map]. rewrite (pad_full n r Hr), IH. reflexivity.
Qed.

(** C6, as the code has it. In a real (not dry) batch, for every row
    whose body composes and whatever happened before it: the loop calls
    the mail capability at most once and never again for the row. A row
    whose address has no ["@"] reaches neither the mail capability nor the
    ledger. When the call raises, the row is an error with the text of
    the exception and the ledger file stays as it was. When the call
    succeeds, [add_to_monitoring] loads the ledger, adds the entry and
    saves: if the load raises, the row is an error with that text, the
    file stays as it was and no pause is taken, although the mail has gone
    out; otherwise the table handed to the file has one entry more, of
    method ["E-mail"] and status ["Доставлено (авто)"], the entries loaded
    before being kept in their order, and the row is a success with a
    pause when the write goes through, an error with the text of the
    exception and no pause when it does not. So the row is recorded as
    delivered exactly when the address has an ["@"], the call succeeds and
    the ledger is written. When the file holds a ledger in the plain form
    and the reader follows the model of [pd.read_csv], the text handed to
    the file is that of the ledger read back, followed by the new
    entry. *)
Theorem ledger_write_iff_sent : forall cols total idx r s body,
dry_run cfg = false ->
let fio := row_fio float_repr cfg cols r in
let to_addr := recipient_ cols r in
let debt := debt_of cols r in
let e := new_entry (now idx) fio debt METHOD_EMAIL STATUS_DELIVERED
                   (SENT_TO ++ to_addr) in
let m := the_mail cfg to_addr body in
make_body cfg fio debt = Ok body ->
exists s1,
  iteration_ cols total idx r s = Ok s1 /\
  (has_char AT to_addr = false ->
     db s1 = db s /\ sent s1 = sent s /\ slept s1 = slept s /\
     log_rows s1
     = log_rows s ++ [mkLog fio to_addr debt StatusError INVALID_EMAIL]) /\
  (forall msg, has_char AT to_addr = true ->
   smtp (sent s) m = Some msg ->
     db s1 = db s /\ sent s1 = sent s ++ [m] /\ slept s1 = slept s /\
     log_rows s1 = log_rows s ++ [mkLog fio to_addr debt StatusError msg] /\
     ok s1 = ok s /\ fail s1 = S (fail s)) /\
  (forall msg, has_char AT to_addr = true ->
   smtp (sent s) m = None ->
   load_monitoring_data read_csv (db s) = Failed msg ->
     db s1 = db s /\ sent s1 = sent s ++ [m] /\ slept s1 = slept s /\
     log_rows s1 = log_rows s ++ [mkLog fio to_addr debt StatusError msg] /\
     ok s1 = ok s /\ fail s1 = S (fail s)) /\
  (forall old, has_char AT to_addr = true ->
   smtp (sent s) m = None ->
   load_monitoring_data read_csv (db s) = Decoded old ->
     db s1 = fst (write_csv (db s) (to_csv float_repr (concat_entry old e))) /\
     sent s1 = sent s ++ [m] /\
     List.length (rows (concat_entry old e)) = S (List.length (rows old)) /\
     (forall j c d, (j < List.length (rows old))%nat ->
        In c (columns old) ->
        get (columns (concat_entry old e))
            (nth j (rows (concat_entry old e)) []) c d
        = get (columns old) (nth j (rows old) []) c d) /\
     get (columns (concat_entry old e)) (last (rows (concat_entry old e)) [])
         (u "Способ информирования") NaN = CText (u "E-mail") /\
     get (columns (concat_entry old e)) (last (rows (concat_entry old e)) [])
         (u "Статус информирования") NaN = CText (u "Доставлено (авто)") /\
     get (columns (concat_entry old e)) (last (rows (concat_entry old e)) [])
         (u "ФИО") NaN = CText fio /\
     get (columns (concat_entry old e)) (last (rows (concat_entry old e)) [])
         (u "Сумма долга") NaN = CFloat debt /\
     (snd (write_csv (db s) (to_csv float_repr (concat_entry old e))) = None ->
        slept s1 = slept s ++ [sleep_time cfg] /\
        log_rows s1 = log_rows s ++ [mkLog fio to_addr debt StatusOK []] /\
        ok s1 = S (ok s) /\ fail s1 = fail s) /\
     (forall msg,
        snd (write_csv (db s) (to_csv float_repr (concat_entry old e)))
        = Some msg ->
        slept s1 = slept s /\
        log_rows s1
        = log_rows s ++ [mkLog fio to_addr debt StatusError msg] /\
        ok s1 = ok s /\ fail s1 = S (fail s))) /\
  ((exists l, log_rows s1 = log_rows s ++ [l] /\ is_delivered l = true) <->
   (has_char AT to_addr = true /\ smtp (sent s) m = None /\
    snd (add_entry_ (now idx) fio debt METHOD_EMAIL STATUS_DELIVERED
                    (SENT_TO ++ to_addr) (db s)) = None)) /\
  (forall scalar_column t,
     reads_like read_csv (pandas_read_csv scalar_column) ->
     scalars_are_spelled scalar_column ->
     regular float_repr scalar_column t -> columns t = DB_COLUMNS ->
     db s = Some (to_csv float_repr t) ->
     has_char AT to_addr = true -> smtp (sent s) m = None ->
     db s1
     = fst (write_csv (db s)
              (to_csv float_repr
                 (mkFrame DB_COLUMNS
                    (rows (read_back t)
                     ++ [[CText (now idx); CText fio; CFloat debt;
                          CText METHOD_EMAIL; CText STATUS_DELIVERED;
                          CText (SENT_TO ++ to_addr)]]))))).
Proof.
intros cols total idx r s body D fio to_addr debt e m B.
eexists. split.
{ unfold iteration. fold fio debt to_addr. rewrite B. reflexivity. }
assert (Load : forall old,
          load_monitoring_data read_csv (db s) = Decoded old ->
          add_entry_ (now idx) fio debt METHOD_EMAIL STATUS_DELIVERED
                     (SENT_TO ++ to_addr) (db s)
          = write_csv (db s) (to_csv float_repr (concat_entry old e))).
{ intros old L. unfold add_to_monitoring. rewrite L. reflexivity. }
split; [|split; [|split; [|split; [|split]]]].
- intros H. rewrite (attempt_invalid _ _ _ _ _ _ H). simpl.
  repeat split; reflexivity.
- intros msg H S. rewrite (attempt_refused _ _ _ _ _ _ _ H D S). simpl.
  repeat split; reflexivity.
- intros msg H S L.
  rewrite (attempt_unrecorded idx s fio to_addr debt body (db s) msg H D S).
  + simpl. repeat split; reflexivity.
  + unfold add_to_monitoring. rewrite L. reflexivity.
- intros old H S L. pose proof (Load old L) as A.
  destruct (write_csv (db s) (to_csv float_repr (concat_entry old e)))
    as [db' w] eqn:W.
  destruct (concat_entry_rows old e) as (Ln & P & N).
  destruct (new_entry_cells (now idx) fio debt METHOD_EMAIL STATUS_DELIVERED
              (SENT_TO ++ to_addr))
    as (K & _ & Kfio & Kdebt & Kmethod & Kstatus & _).
  fold e in K, Kfio, Kdebt, Kmethod, Kstatus.
  destruct db_columns_members as (M1 & M2 & M3 & M4).
  rewrite <- K in M1, M2, M3, M4.
  assert (Q : forall j c d, (j < List.length (rows old))%nat ->
            In c (columns old) ->
            get (columns (concat_entry old e))
                (nth j (rows (concat_entry old e)) []) c d
            = get (columns old) (nth j (rows old) []) c d).
  { intros j c d Hj Hc. rewrite (P j c d Hc).
    destruct (Nat.ltb_spec j (List.length (rows old))); [reflexivity|lia]. }
  destruct w as [msg|].
  + rewrite (attempt_unrecorded _ _ _ _ _ _ _ _ H D S A).
    cbn [show_progress db sent slept log_rows ok fail fst snd].
    split; [reflexivity|]. split; [reflexivity|]. split; [exact Ln|].
    split; [exact Q|].
    split; [rewrite (N _ NaN M3); exact Kmethod|].
    split; [rewrite (N _ NaN M4); exact Kstatus|].
    split; [rewrite (N _ NaN M1); exact Kfio|].
    split; [rewrite (N _ NaN M2); exact Kdebt|].
    split; [discriminate|].
    intros msg' E. inversion E; subst. repeat split; reflexivity.
  + rewrite (attempt_delivered _ _ _ _ _ _ _ H D S A).
    cbn [show_progress db sent slept log_rows ok fail fst snd].
    split; [reflexivity|]. split; [reflexivity|]. split; [exact Ln|].
    split; [exact Q|].
    split; [rewrite (N _ NaN M3); exact Kmethod|].
    split; [rewrite (N _ NaN M4); exact Kstatus|].
    split; [rewrite (N _ NaN M1); exact Kfio|].
    split; [rewrite (N _ NaN M2); exact Kdebt|].
    split; [intros _; repeat split; reflexivity|discriminate].
- unfold attempt, failed. fold m.
  destruct (has_char AT to_addr); cbn [negb].
  + rewrite D. destruct (smtp (sent s) m) as [msg|].
    * cbn [show_progress log_rows]. split.
      -- intros (l & E & Hl). apply app_inj_tail in E. destruct E as [_ E].
         subst l. discriminate.
      -- intros (_ & X & _). discriminate.
    * destruct (add_entry_ (now idx) fio debt METHOD_EMAIL STATUS_DELIVERED
                           (SENT_TO ++ to_addr) (db s)) as [db' [msg|]].
      -- cbn [show_progress log_rows snd]. split.
         ++ intros (l & E & Hl). apply app_inj_tail in E.
            destruct E as [_ E]. subst l. discriminate.
         ++ intros (_ & _ & X). discriminate.
      -- cbn [show_progress log_rows snd]. split.
         ++ intros _. repeat split; reflexivity.
         ++ intros _. eexists. split; reflexivity.
  + cbn [show_progress log_rows]. split.
    * intros (l & E & Hl). apply app_inj_tail in E. destruct E as [_ E].
      subst l. discriminate.
    * intros (X & _). discriminate.
- intros scalar_column t R Sp G C F H S.
  assert (L : load_monitoring_data read_csv (db s) = Decoded (read_back t)).
  { rewrite F. cbn [load_monitoring_data]. apply R.
    apply pandas_reads_to_csv; assumption. }
  pose proof (Load _ L) as A.
  assert (E : concat_entry (read_back t) e
              = mkFrame DB_COLUMNS
                  (rows (read_back t)
                   ++ [[CText (now idx); CText fio; CFloat debt;
                        CText METHOD_EMAIL; CText STATUS_DELIVERED;
                        CText (SENT_TO ++ to_addr)]])).
  { unfold e. rewrite concat_new_entry by exact C.
    rewrite pad_rows_full; [reflexivity|].
    destruct G as (_ & _ & _ & Gr & _). unfold read_back. cbn [rows].
    apply Forall_forall. intros r0 Hin. apply in_map_iff in Hin.
    destruct Hin as (r1 & <- & Hin). rewrite length_map.
    rewrite Forall_forall in Gr. rewrite (proj1 (Gr r1 Hin)), C.
    reflexivity. }
  rewrite E in A.
  destruct (write_csv (db s)
              (to_csv float_repr
                 (mkFrame DB_COLUMNS
                    (rows (read_back t)
                     ++ [[CText (now idx); CText fio; CFloat debt;
                          CText METHOD_EMAIL; CText STATUS_DELIVERED;
                          CText (SENT_TO ++ to_addr)]]))))
    as [db' [msg|]] eqn:W.
  + rewrite (attempt_unrecorded _ _ _ _ _ _ _ _ H D S A). reflexivity.
  + rewrite (attempt_delivered _ _ _ _ _ _ _ H D S A). reflexivity.
Qed.

(** *** Errors of the template *)

Lemma loop_never_stops : forall cols total rs idx s w m,
loop_ cols total idx rs s <> Stopped w m.
Proof.
intros cols total rs. induction rs as [|r rs IH]; intros idx s w m.
- discriminate.
- cbn [loop]. destruct (iteration_ cols total idx r s) as [s1|e].
  + apply IH.
  + discriminate.
Qed.


(** *** The checks before the loop *)

Lemma truthy_false_iff : forall s, truthy s = false <-> s = [].
Proof.
intros s. destruct s; simpl; split; intros H; try reflexivity;
  discriminate.
Qed.

Lemma missing_settings_nil :
missing_settings cfg = [] <->
~ (smtp_host cfg = [] \/ from_addr cfg = [] \/
   (smtp_user cfg <> [] /\ smtp_password cfg = [])).
Proof.
unfold missing_settings.
destruct (smtp_host cfg) as [|a h]; destruct (from_addr cfg) as [|b f];
  destruct (smtp_user cfg) as [|c us];
  destruct (smtp_password cfg) as [|p pw]; simpl; split; intros H;
  try discriminate; try reflexivity;
  try (exfalso; apply H; auto; fail);
  try (intros [X|[X|[X Y]]]; congruence).
exfalso. apply H. right. right. split; [discriminate|reflexivity].
Qed.

(** C9. The handler stops before the loop exactly when the debtor
    table is empty, or when the run is real and the SMTP host is empty,
    the sender address is empty, or a login is given without a password;
    in a dry run the settings are not looked at. When it stops, nothing
    has been recorded, sent or written; otherwise the loop is entered. *)
Theorem preflight_checks : forall debtors st,
((exists w m, send_button_ debtors st = Stopped w m) <->
 (rows debtors = [] \/
  (dry_run cfg = false /\
   (smtp_host cfg = [] \/ from_addr cfg = [] \/
    (smtp_user cfg <> [] /\ smtp_password cfg = []))))) /\
(rows debtors = [] -> send_button_ debtors st = Stopped NO_DEBTORS []) /\
(rows debtors <> [] -> dry_run cfg = false -> missing_settings cfg <> [] ->
   send_button_ debtors st = Stopped FILL_IN (missing_settings cfg)) /\
(dry_run cfg = true -> rows debtors <> [] ->
   send_button_ debtors st
   = loop_ (columns debtors) (List.length (rows debtors)) 1 (rows debtors)
           (initial st)) /\
(forall w m, send_button_ debtors st = Stopped w m ->
   after st (send_button_ debtors st) = initial st /\
   log_rows (after st (send_button_ debtors st)) = [] /\
   sent (after st (send_button_ debtors st)) = [] /\
   db (after st (send_button_ debtors st)) = st).
Proof.
intros debtors st. unfold send_button.
destruct (rows debtors) as [|r rs] eqn:R; cbn [List.length Nat.eqb].
- split; [split; [auto|eauto]|].
  split; [reflexivity|]. split; [intros H; contradiction H; reflexivity|].
  split; [intros _ H; contradiction H; reflexivity|].
  intros w m _. repeat split; reflexivity.
- destruct (dry_run cfg) eqn:D; cbn [negb andb].
  + split.
    { split.
      - intros (w & m & H). exfalso. exact (loop_never_stops _ _ _ _ _ _ _ H).
      - intros [H|[H _]]; discriminate. }
    split; [discriminate|]. split; [discriminate|].
    split; [reflexivity|].
    intros w m H. exfalso. exact (loop_never_stops _ _ _ _ _ _ _ H).
  + destruct (missing_settings cfg) as [|x xs] eqn:M; cbn [List.length Nat.eqb negb].
    * split.
      { split.
        - intros (w & m & H). exfalso.
          exact (loop_never_stops _ _ _ _ _ _ _ H).
        - intros [H|[_ H]]; [discriminate|]. exfalso.
          apply (proj1 missing_settings_nil M). exact H. }
      split; [discriminate|].
      split; [intros _ _ H; contradiction H; reflexivity|].
      split; [discriminate|].
      intros w m H. exfalso. exact (loop_never_stops _ _ _ _ _ _ _ H).
    * split.
      { split; [|eauto]. intros _. right. split; [reflexivity|].
        destruct (smtp_host cfg) as [|a h] eqn:Hh; [auto|].
        destruct (from_addr cfg) as [|b f] eqn:Hf; [auto|].
        destruct (smtp_user cfg) as [|c us] eqn:Hu;
          destruct (smtp_password cfg) as [|p pw] eqn:Hp;
          unfold missing_settings in M; rewrite Hh, Hf, Hu, Hp in M;
          simpl in M; try discriminate.
        right. right. split; [discriminate|reflexivity]. }
      split; [discriminate|]. split; [reflexivity|].
      split; [discriminate|].
      intros w m _. repeat split; reflexivity.
Qed.

End DispatchProps.

(** *** The properties on the batch of three debtors *)





(** The first debtor in a real run on a ledger file of two entries,
    read by the reader of the examples: the mail goes out, the file is
    written with the two entries in their order and the new one after
    them, and the row is a success with a pause. With a mail capability
    that refuses, the file stays as it was and one call is made. *)
Lemma ledger_write_iff_sent_first_debtor :
dry_run (config_example false) = false /\
(exists s1,
   iteration float_repr_example read_csv_example write_ok smtp_delivers
             clock_example (config_example false) debtor_columns 3 1
             debtor_1
             (initial (Some (to_csv float_repr_example ledger_two_entries)))
   = Ok s1 /\
   db s1
   = Some (to_csv float_repr_example
             (mkFrame DB_COLUMNS
                (rows ledger_two_entries
                 ++ [[CText (u "03.11.2026 10:00"); CText (u "Иванов");
                      CFloat d_100; CText (u "E-mail");
                      CText (u "Доставлено (авто)");
                      CText (u "Отправлено на ivanov@example.com")]]))) /\
   List.length (sent s1) = 1%nat /\ ok s1 = 1%nat /\
   List.length (slept s1) = 1%nat) /\
(exists s1,
   iteration float_repr_example read_csv_example write_ok smtp_refuses
             clock_example (config_example false) debtor_columns 3 1
             debtor_1
             (initial (Some (to_csv float_repr_example ledger_two_entries)))
   = Ok s1 /\
   db s1 = Some (to_csv float_repr_example ledger_two_entries) /\
   List.length (sent s1) = 1%nat /\ fail s1 = 1%nat /\
   map l_comment (log_rows s1) = [u "Connection refused"]).
Proof.
split; [reflexivity|]. split.
- destruct (ledger_write_iff_sent float_repr_example read_csv_example
              write_ok smtp_delivers clock_example (config_example false)
              debtor_columns 3 1 debtor_1
              (initial (Some (to_csv float_repr_example ledger_two_entries)))
              body_example eq_refl eq_refl)
    as (s1 & E & _ & _ & _ & H & _ & F).
  pose proof (F scalar_column_example ledger_two_entries
                (reader_of_reads _) scalar_column_example_spelled
                ledger_two_entries_regular eq_refl eq_refl eq_refl eq_refl)
    as Hdb.
  destruct (H (read_back ledger_two_entries) eq_refl eq_refl eq_refl)
    as (_ & Hsent & _ & _ & _ & _ & _ & _ & Hok & _).
  destruct (Hok eq_refl) as (Hslept & _ & Hok' & _).
  exists s1. split; [exact E|]. split; [rewrite Hdb; reflexivity|].
  split; [rewrite Hsent; reflexivity|].
  split; [rewrite Hok'; reflexivity|rewrite Hslept; reflexivity].
- destruct (ledger_write_iff_sent float_repr_example read_csv_example
              write_ok smtp_refuses clock_example (config_example false)
              debtor_columns 3 1 debtor_1
              (initial (Some (to_csv float_repr_example ledger_two_entries)))
              body_example eq_refl eq_refl)
    as (s1 & E & _ & H & _).
  destruct (H (u "Connection refused") eq_refl eq_refl)
    as (Hdb & Hsent & _ & Hlog & _ & Hfail).
  exists s1. split; [exact E|]. split; [rewrite Hdb; reflexivity|].
  split; [rewrite Hsent; reflexivity|]. split; [rewrite Hfail; reflexivity|].
  rewrite Hlog. reflexivity.
Defined.

(** The first debtor in a real run on a ledger file that is empty, which
    the reader refuses: the mail goes out, and the row is recorded as an
    error with the text of the reader's exception; the file is as before
    and no pause is taken. *)
Lemma delivered_mail_without_entry :
exists s1,
  iteration float_repr_example read_csv_example write_ok smtp_delivers
            clock_example (config_example false) debtor_columns 3 1
            debtor_1 (initial (Some [])) = Ok s1 /\
  smtp_delivers [] (the_mail (config_example false)
                             (u "ivanov@example.com") body_example) = None /\
  map m_to (sent s1) = [u "ivanov@example.com"] /\
  db s1 = Some [] /\
  map l_status (log_rows s1) = [StatusError] /\
  map l_comment (log_rows s1) = [u "No columns to parse from file"] /\
  slept s1 = [] /\ ok s1 = 0%nat /\ fail s1 = 1%nat.
Proof.
eexists. split; [reflexivity|]. repeat split; reflexivity.
Qed.


(** Without an SMTP host a real run stops in the checks and names the
    setting; a dry run with the same settings enters the loop. *)
Lemma preflight_checks_no_host :
send_button repr_example read_empty write_ok smtp_delivers clock_example
            (config_no_host false) three_debtors None
= Stopped FILL_IN [u "SMTP host"] /\
send_button repr_example read_empty write_ok smtp_delivers clock_example
            (config_no_host true) three_debtors None
= loop repr_example read_empty write_ok smtp_delivers clock_example
       (config_no_host true) debtor_columns 3 1
       [debtor_1; debtor_2; debtor_3] (initial None).
Proof.
assert (NE : rows three_debtors <> []) by discriminate.
split.
- destruct (preflight_checks repr_example read_empty write_ok smtp_delivers
              clock_example (config_no_host false) three_debtors None)
    as (_ & _ & H & _).
  apply (H NE eq_refl). discriminate.
- destruct (preflight_checks repr_example read_empty write_ok smtp_delivers
              clock_example (config_no_host true) three_debtors None)
    as (_ & _ & _ & H & _).
  apply (H eq_refl NE).
Defined.

(** A real run over the three debtors in which every mail is refused
    runs to its end: three records, no success, three errors. *)
Lemma outcome_log_three_debtors :
exists s,
  send_button repr_example read_empty write_ok smtp_refuses clock_example
              (config_example false) three_debtors None = Finished s /\
  List.length (log_rows s) = 3%nat /\
  (ok s + fail s = 3)%nat /\
  map l_status (log_rows s) = [StatusError; StatusError; StatusError].
Proof.
destruct (send_button repr_example read_empty write_ok smtp_refuses clock_example
            (config_example false) three_debtors None)
  as [w m|e s|s] eqn:E.
- vm_compute in E. discriminate E.
- vm_compute in E. discriminate E.
- exists s. split; [reflexivity|].
  destruct (outcome_log_complete repr_example read_empty write_ok smtp_refuses
              clock_example (config_example false) three_debtors None s E)
    as (L & O & _).
  split; [exact L|]. split; [exact O|].
  vm_compute in E. inversion E. reflexivity.
Defined.

(* ================================================================== *)
(** * Further properties of the dispatch loop *)
(* ================================================================== *)

Section DispatchMore.

Variable float_repr : float -> ustring.
Variable read_csv : ustring -> decoded frame.
Variable write_csv : store -> ustring -> store * option ustring.
Variable smtp : list mail -> mail -> option ustring.
Variable now : nat -> ustring.
Variable cfg : config.

Local Abbreviation attempt_ :=
  (attempt float_repr read_csv write_csv smtp now cfg).
Local Abbreviation loop_ := (loop float_repr read_csv write_csv smtp now cfg).
Local Abbreviation recipient_ := (recipient float_repr cfg).
Local Abbreviation row_fio_ := (row_fio float_repr cfg).

(** A loop that finishes has composed the body of its first row and
    finished on the remaining rows. *)
Lemma loop_finished_cons : forall cols total idx r rs s s',
loop_ cols total idx (r :: rs) s = Finished s' ->
exists body,
  make_body cfg (row_fio_ cols r) (debt_of cols r) = Ok body /\
  loop_ cols total (S idx) rs
        (show_progress idx total
           (attempt_ idx s (row_fio_ cols r) (recipient_ cols r)
                     (debt_of cols r) body)) = Finished s'.
Proof.
intros cols total idx r rs s s' H. cbn [loop] in H. unfold iteration in H.
destruct (make_body cfg (row_fio_ cols r) (debt_of cols r)) as [body|e];
  [|discriminate].
exists body. split; [reflexivity|exact H].
Qed.

Lemma handler_finished : forall debtors st s,
send_button float_repr read_csv write_csv smtp now cfg debtors st = Finished s ->
loop_ (columns debtors) (List.length (rows debtors)) 1 (rows debtors)
      (initial st) = Finished s.
Proof.
intros debtors st s H. unfold send_button in H.
destruct (Nat.eqb (List.length (rows debtors)) 0); [discriminate|].
destruct (negb (dry_run cfg)
          && negb (Nat.eqb (List.length (missing_settings cfg)) 0));
  [discriminate|exact H].
Qed.

Lemma loop_completes : forall cols total rs idx s,
forallb (composes float_repr cfg cols) rs = true ->
exists s', loop_ cols total idx rs s = Finished s'.
Proof.
intros cols total rs. induction rs as [|r rs IH]; intros idx s T.
- exists s. reflexivity.
- cbn [forallb] in T. apply andb_prop in T. destruct T as [Tr T].
  cbn [loop].
  destruct (iteration_ok float_repr read_csv write_csv smtp now cfg cols
              total idx r s Tr) as (body & _ & E).
  rewrite E. apply IH. exact T.
Qed.

(** The loop ends with an exception exactly at the first row whose body
    does not compose, the rows before it having been processed. *)
Lemma loop_crashes_iff : forall cols total rs idx s e s',
loop_ cols total idx rs s = Crashed e s' <->
exists pre r post,
  rs = pre ++ r :: post /\
  forallb (composes float_repr cfg cols) pre = true /\
  make_body cfg (row_fio_ cols r) (debt_of cols r) = Raise e /\
  loop_ cols total idx pre s = Finished s'.
Proof.
intros cols total rs. induction rs as [|r rs IH]; intros idx s e s'.
- split; [discriminate|]. intros (pre & r & post & E & _).
  destruct pre; discriminate.
- cbn [loop]. unfold iteration.
  destruct (make_body cfg (row_fio_ cols r) (debt_of cols r))
    as [body|e0] eqn:B.
  + rewrite IH. split.
    * intros (pre & r0 & post & E & C & M & L).
      exists (r :: pre), r0, post. split; [rewrite E; reflexivity|].
      split; [cbn [forallb]; unfold composes at 1; rewrite B; exact C|].
      split; [exact M|]. cbn [loop]. unfold iteration. rewrite B. exact L.
    * intros (pre & r0 & post & E & C & M & L).
      destruct pre as [|r1 pre].
      -- inversion E; subst. congruence.
      -- inversion E; subst. exists pre, r0, post.
         split; [reflexivity|]. cbn [forallb] in C.
         apply andb_prop in C. split; [exact (proj2 C)|].
         split; [exact M|]. cbn [loop] in L. unfold iteration in L.
         rewrite B in L. exact L.
  + split.
    * intros H. inversion H; subst. exists [], r, rs.
      split; [reflexivity|]. split; [reflexivity|].
      split; [exact B|reflexivity].
    * intros (pre & r0 & post & E & C & M & L).
      destruct pre as [|r1 pre].
      -- inversion E; subst. cbn [loop] in L. inversion L; subst.
         congruence.
      -- inversion E; subst. cbn [forallb] in C. apply andb_prop in C.
         destruct C as [C _]. unfold composes in C. rewrite B in C.
         discriminate.
Qed.

Lemma forallb_false_split : forall (A : Type) (f : A -> bool) l,
forallb f l = false ->
exists pre x post, l = pre ++ x :: post /\ forallb f pre = true /\
                   f x = false.
Proof.
intros A f l. induction l as [|x l IH]; intros H; [discriminate|].
cbn [forallb] in H. destruct (f x) eqn:F.
- destruct (IH H) as (pre & y & post & E & P & Y).
  exists (x :: pre), y, post. rewrite E. cbn [forallb]. rewrite F.
  repeat split; assumption.
- exists [], x, l. repeat split; assumption.
Qed.

(** X1. The handler ends with an exception exactly when it enters the
    loop and the body of some row does not compose, whatever the mail
    capability and the ledger file do: the exception is that of the
    first such row, and the rows before it have been processed, one
    record each. When the body composes for every row, as it does with
    literal text and recognised placeholders only, the handler stops in
    its checks or runs the loop to the end. *)
Theorem handler_crashes_in_make_body : forall debtors st,
((exists e s,
    send_button float_repr read_csv write_csv smtp now cfg debtors st
    = Crashed e s) <->
 (rows debtors <> [] /\
  (dry_run cfg = true \/ missing_settings cfg = []) /\
  forallb (composes float_repr cfg (columns debtors)) (rows debtors)
  = false)) /\
(forall e s,
   send_button float_repr read_csv write_csv smtp now cfg debtors st
   = Crashed e s ->
   exists pre r post,
     rows debtors = pre ++ r :: post /\
     forallb (composes float_repr cfg (columns debtors)) pre = true /\
     make_body cfg (row_fio_ (columns debtors) r)
               (debt_of (columns debtors) r) = Raise e /\
     loop_ (columns debtors) (List.length (rows debtors)) 1 pre (initial st)
     = Finished s /\
     List.length (log_rows s) = List.length pre) /\
(forallb (composes float_repr cfg (columns debtors)) (rows debtors) = true ->
 (exists w m,
    send_button float_repr read_csv write_csv smtp now cfg debtors st
    = Stopped w m) \/
 (exists s,
    send_button float_repr read_csv write_csv smtp now cfg debtors st
    = Finished s)) /\
(plain_template (template_text cfg) = true ->
 forallb (composes float_repr cfg (columns debtors)) (rows debtors) = true).
Proof.
intros debtors st.
assert (Crash : forall e s,
          send_button float_repr read_csv write_csv smtp now cfg debtors st
          = Crashed e s ->
          rows debtors <> [] /\
          (dry_run cfg = true \/ missing_settings cfg = []) /\
          loop_ (columns debtors) (List.length (rows debtors)) 1
                (rows debtors) (initial st) = Crashed e s).
{ intros e s H. unfold send_button in H.
  destruct (rows debtors) as [|r rs] eqn:R; [discriminate|].
  cbn [List.length Nat.eqb] in H. split; [discriminate|].
  destruct (dry_run cfg); [split; [left; reflexivity|exact H]|].
  destruct (missing_settings cfg); [split; [right; reflexivity|exact H]|].
  discriminate. }
split; [|split; [|split]].
- split.
  + intros (e & s & H). destruct (Crash e s H) as (NE & P & L).
    split; [exact NE|]. split; [exact P|].
    apply loop_crashes_iff in L.
    destruct L as (pre & r & post & E & _ & M & _). rewrite E.
    rewrite forallb_app. cbn [forallb]. unfold composes at 2. rewrite M.
    cbn [raises negb andb]. apply andb_false_r.
  + intros (NE & P & F).
    destruct (forallb_false_split _ _ _ F) as (pre & r & post & E & C & X).
    unfold composes in X.
    destruct (make_body cfg (row_fio float_repr cfg (columns debtors) r)
                (debt_of (columns debtors) r)) as [body|e] eqn:B;
      [discriminate|].
    destruct (loop_completes (columns debtors) (List.length (rows debtors))
                pre 1 (initial st) C) as (s & L).
    exists e, s. unfold send_button.
    destruct (rows debtors) as [|r0 rs] eqn:R;
      [contradiction NE; reflexivity|].
    cbn [List.length Nat.eqb].
    replace (negb (dry_run cfg)
             && negb (Nat.eqb (List.length (missing_settings cfg)) 0))
      with false.
    * apply loop_crashes_iff. exists pre, r, post.
      repeat split; assumption.
    * destruct P as [P|P]; rewrite P; [reflexivity|].
      rewrite andb_comm. reflexivity.
- intros e s H. destruct (Crash e s H) as (_ & _ & L).
  apply loop_crashes_iff in L.
  destruct L as (pre & r & post & E & C & M & L).
  exists pre, r, post. repeat split; try assumption.
  destruct (loop_records float_repr read_csv write_csv smtp now cfg _ _ _ _
              _ _ L) as (new & Hn & Hlen & _).
  rewrite Hn. cbn [initial log_rows app]. exact Hlen.
- intros C. unfold send_button.
  destruct (Nat.eqb (List.length (rows debtors)) 0); [left; eauto|].
  destruct (negb (dry_run cfg)
            && negb (Nat.eqb (List.length (missing_settings cfg)) 0));
    [left; eauto|].
  right. apply loop_completes. exact C.
- intros P. apply forallb_forall. intros r _.
  apply (plain_composes float_repr cfg). exact P.
Qed.

Lemma loop_progress : forall cols total rs idx s s',
loop_ cols total idx rs s = Finished s' ->
progress s'
= progress s ++ map (fun i => (i, total)) (seq idx (List.length rs)).
Proof.
intros cols total rs. induction rs as [|r rs IH]; intros idx s s' H.
- inversion H; subst. simpl. rewrite app_nil_r. reflexivity.
- destruct (loop_finished_cons _ _ _ _ _ _ _ H) as (body & _ & L).
  rewrite (IH _ _ _ L). cbn [show_progress progress].
  destruct (attempt_one_record float_repr read_csv write_csv smtp now cfg idx s
              (row_fio_ cols r) (recipient_ cols r) (debt_of cols r) body)
    as (l & _ & _ & _ & _ & _ & _ & P).
  rewrite P, <- app_assoc. reflexivity.
Qed.

(** X2. The progress display is advanced once after every row, error or
    not: a run over [n] rows shows [1/n], [2/n], ... and ends at [n/n]. *)
Theorem progress_after_every_row : forall debtors st s,
send_button float_repr read_csv write_csv smtp now cfg debtors st = Finished s ->
progress s
= map (fun i => (i, List.length (rows debtors)))
      (seq 1 (List.length (rows debtors))).
Proof.
intros debtors st s H. apply handler_finished in H.
rewrite (loop_progress _ _ _ _ _ _ H). reflexivity.
Qed.

Lemma loop_log_subjects : forall cols total rs idx s s',
loop_ cols total idx rs s = Finished s' ->
map log_subject (log_rows s')
= map log_subject (log_rows s)
  ++ map (fun r => (row_fio_ cols r, recipient_ cols r, debt_of cols r)) rs.
Proof.
intros cols total rs. induction rs as [|r rs IH]; intros idx s s' H.
- inversion H; subst. simpl. rewrite app_nil_r. reflexivity.
- destruct (loop_finished_cons _ _ _ _ _ _ _ H) as (body & _ & L).
  rewrite (IH _ _ _ L). cbn [show_progress log_rows].
  destruct (attempt_one_record float_repr read_csv write_csv smtp now cfg idx s
              (row_fio_ cols r) (recipient_ cols r) (debt_of cols r) body)
    as (l & Hl & F1 & F2 & F3 & _).
  rewrite Hl, map_app, <- app_assoc. simpl. unfold log_subject at 2.
  rewrite F1, F2, F3. reflexivity.
Qed.

(** X3. The log of a finished run speaks of the rows of the debtor table
    in their order: the k-th record carries the name, the resolved address
    and the debt of the k-th row. *)
Theorem log_follows_rows : forall debtors st s,
send_button float_repr read_csv write_csv smtp now cfg debtors st = Finished s ->
map log_subject (log_rows s)
= map (fun r => (row_fio_ (columns debtors) r,
                 recipient_ (columns debtors) r,
                 debt_of (columns debtors) r)) (rows debtors).
Proof.
intros debtors st s H. apply handler_finished in H.
rewrite (loop_log_subjects _ _ _ _ _ _ H). reflexivity.
Qed.

Lemma attempt_sent_to : forall idx s fio to_addr debt body,
map m_to (sent (attempt_ idx s fio to_addr debt body))
= map m_to (sent s)
  ++ (if dry_run cfg then []
      else if has_char AT to_addr then [to_addr] else []).
Proof.
intros idx s fio to_addr debt body. unfold attempt, failed.
destruct (has_char AT to_addr); cbn [negb].
- destruct (dry_run cfg); [simpl; rewrite app_nil_r; reflexivity|].
  destruct (smtp (sent s) (the_mail cfg to_addr body));
    [|destruct (add_to_monitoring float_repr read_csv write_csv (now idx)
                  fio debt METHOD_EMAIL STATUS_DELIVERED
                  (SENT_TO ++ to_addr) (db s)) as [db' [msg|]]];
    simpl; rewrite map_app; reflexivity.
- simpl. destruct (dry_run cfg); rewrite app_nil_r; reflexivity.
Qed.

Lemma loop_sent_to : forall cols total rs idx s s',
loop_ cols total idx rs s = Finished s' ->
map m_to (sent s')
= map m_to (sent s)
  ++ (if dry_run cfg then []
      else map (recipient_ cols)
               (filter (fun r => has_char AT (recipient_ cols r)) rs)).
Proof.
intros cols total rs. induction rs as [|r rs IH]; intros idx s s' H.
- inversion H; subst. simpl. destruct (dry_run cfg);
    rewrite app_nil_r; reflexivity.
- destruct (loop_finished_cons _ _ _ _ _ _ _ H) as (body & _ & L).
  rewrite (IH _ _ _ L). cbn [show_progress sent].
  rewrite attempt_sent_to. cbn [filter].
  destruct (dry_run cfg); [rewrite app_nil_r; reflexivity|].
  destruct (has_char AT (recipient_ cols r)); rewrite <- app_assoc;
    reflexivity.
Qed.

(** X4. In a real run that finishes, the mail capability has been called
    once for every row whose address has an ["@"], in the order of the
    rows, with that address, and for no other row; in a dry run it has not
    been called. *)
Theorem one_call_per_addressed_row : forall debtors st s,
send_button float_repr read_csv write_csv smtp now cfg debtors st = Finished s ->
map m_to (sent s)
= (if dry_run cfg then []
   else map (recipient_ (columns debtors)) (addressed float_repr cfg debtors)).
Proof.
intros debtors st s H. apply handler_finished in H.
rewrite (loop_sent_to _ _ _ _ _ _ H). reflexivity.
Qed.

Lemma attempt_pauses : forall idx s fio to_addr debt body,
dry_run cfg = false ->
exists k j,
  ok (attempt_ idx s fio to_addr debt body) = (ok s + k)%nat /\
  slept (attempt_ idx s fio to_addr debt body)
  = slept s ++ repeat (sleep_time cfg) k /\
  List.length (sent (attempt_ idx s fio to_addr debt body))
  = (List.length (sent s) + j)%nat /\
  (k <= j <= 1)%nat.
Proof.
intros idx s fio to_addr debt body D. unfold attempt, failed. rewrite D.
destruct (has_char AT to_addr); cbn [negb].
- destruct (smtp (sent s) (the_mail cfg to_addr body)).
  + exists 0%nat, 1%nat. simpl. rewrite app_nil_r, length_app. simpl.
    repeat split; lia.
  + destruct (add_to_monitoring float_repr read_csv write_csv (now idx)
                fio debt METHOD_EMAIL STATUS_DELIVERED
                (SENT_TO ++ to_addr) (db s)) as [db' [msg|]].
    * exists 0%nat, 1%nat. simpl. rewrite app_nil_r, length_app. simpl.
      repeat split; lia.
    * exists 1%nat, 1%nat. simpl. rewrite length_app. simpl.
      repeat split; lia.
- exists 0%nat, 0%nat. simpl. rewrite app_nil_r.
  repeat split; lia.
Qed.

Lemma loop_pauses : forall cols total rs idx s s',
dry_run cfg = false ->
loop_ cols total idx rs s = Finished s' ->
exists k j,
  ok s' = (ok s + k)%nat /\
  slept s' = slept s ++ repeat (sleep_time cfg) k /\
  List.length (sent s') = (List.length (sent s) + j)%nat /\
  (k <= j <= List.length rs)%nat.
Proof.
intros cols total rs. induction rs as [|r rs IH]; intros idx s s' D H.
- inversion H; subst. exists 0%nat, 0%nat. simpl. rewrite app_nil_r.
  repeat split; lia.
- destruct (loop_finished_cons _ _ _ _ _ _ _ H) as (body & _ & L).
  destruct (IH _ _ _ D L) as (k & j & Hok & Hsl & Hse & Hb).
  cbn [show_progress ok slept sent] in Hok, Hsl, Hse.
  destruct (attempt_pauses idx s (row_fio_ cols r) (recipient_ cols r)
              (debt_of cols r) body D) as (k0 & j0 & Jok & Jsl & Jse & Jb).
  exists (k0 + k)%nat, (j0 + j)%nat.
  rewrite Hok, Hsl, Hse, Jok, Jsl, Jse, repeat_app, <- app_assoc. simpl.
  repeat split; lia.
Qed.

(** X5. In a real run that finishes, the pause between mails has been
    taken once for every mail that went out and never otherwise: the
    pauses are [ok] times the configured delay; no more mails went out
    than calls were made, and no more calls than there are rows. *)
Theorem one_pause_per_delivery : forall debtors st s,
dry_run cfg = false ->
send_button float_repr read_csv write_csv smtp now cfg debtors st = Finished s ->
slept s = repeat (sleep_time cfg) (ok s) /\
(ok s <= List.length (sent s))%nat /\
(List.length (sent s) <= List.length (rows debtors))%nat.
Proof.
intros debtors st s D H.
pose proof (handler_finished _ _ _ H) as L.
destruct (loop_pauses _ _ _ _ _ _ D L) as (k & j & Hok & Hsl & Hse & Hb).
simpl in Hok, Hsl, Hse. rewrite Hok, Hsl, Hse. repeat split; lia.
Qed.

(** X7. In the mode with one shared address, every record of the log and
    every mail carries that address, whatever the rows hold. *)
Theorem shared_address_for_every_row : forall debtors st s,
per_row_mode cfg = false ->
send_button float_repr read_csv write_csv smtp now cfg debtors st = Finished s ->
Forall (fun l => l_email l = common_email cfg) (log_rows s) /\
Forall (fun m => m_to m = common_email cfg) (sent s).
Proof.
intros debtors st s M H. apply handler_finished in H.
assert (R : forall cols r, recipient_ cols r = common_email cfg).
{ intros cols r. unfold recipient. rewrite M. reflexivity. }
split.
- pose proof (loop_log_subjects _ _ _ _ _ _ H) as L. simpl in L.
  apply Forall_forall. intros l Hl.
  assert (I : In (log_subject l) (map log_subject (log_rows s)))
    by (apply in_map; exact Hl).
  rewrite L in I. apply in_map_iff in I. destruct I as (r & Hr & _).
  unfold log_subject in Hr. inversion Hr. apply R.
- pose proof (loop_sent_to _ _ _ _ _ _ H) as S. simpl in S.
  apply Forall_forall. intros m Hm.
  assert (I : In (m_to m) (map m_to (sent s))) by (apply in_map; exact Hm).
  rewrite S in I. destruct (dry_run cfg); [contradiction|].
  apply in_map_iff in I. destruct I as (r & Hr & _). rewrite <- Hr. apply R.
Qed.

End DispatchMore.

(** The properties above on the batches of three debtors. The handler
    ends with an exception on the batch whose second debtor has blanks
    for a name,
    the template asking for the first letter of the name; on the batch of
    the three named debtors it runs the loop to the end. *)
Lemma handler_crashes_example :
(exists e s,
   send_button repr_example read_empty write_ok smtp_delivers clock_example
               config_index_template blank_name_debtors None
   = Crashed e s) /\
((exists w m,
    send_button repr_example read_empty write_ok smtp_refuses clock_example
                (config_example false) three_debtors None = Stopped w m) \/
 (exists s,
    send_button repr_example read_empty write_ok smtp_refuses clock_example
                (config_example false) three_debtors None = Finished s)).
Proof.
split.
- apply (proj1 (handler_crashes_in_make_body repr_example read_empty
                  write_ok smtp_delivers clock_example config_index_template
                  blank_name_debtors None)).
  split; [discriminate|]. split; [left; reflexivity|reflexivity].
- apply (proj1 (proj2 (proj2 (handler_crashes_in_make_body repr_example
                  read_empty write_ok smtp_refuses clock_example
                  (config_example false) three_debtors None)))).
  reflexivity.
Defined.

Lemma progress_example :
exists s,
  send_button repr_example read_empty write_ok smtp_refuses clock_example
              (config_example true) three_debtors None = Finished s /\
  progress s = [(1, 3); (2, 3); (3, 3)]%nat.
Proof.
destruct (send_button repr_example read_empty write_ok smtp_refuses clock_example
            (config_example true) three_debtors None) as [w m|e s|s] eqn:E.
- vm_compute in E. discriminate E.
- vm_compute in E. discriminate E.
- exists s. split; [reflexivity|].
  exact (progress_after_every_row repr_example read_empty write_ok smtp_refuses
           clock_example (config_example true) three_debtors None s E).
Defined.

Lemma log_follows_rows_example :
exists s,
  send_button repr_example read_empty write_ok smtp_refuses clock_example
              (config_example true) three_debtors None = Finished s /\
  map log_subject (log_rows s)
  = [(u "Иванов", u "ivanov@example.com", d_100);
     (u "Петров", u "petrov.example.com", d_200_5);
     (u "Сидоров", u "sidorov@example.com", d_1234_56)].
Proof.
destruct (send_button repr_example read_empty write_ok smtp_refuses clock_example
            (config_example true) three_debtors None) as [w m|e s|s] eqn:E.
- vm_compute in E. discriminate E.
- vm_compute in E. discriminate E.
- exists s. split; [reflexivity|].
  exact (log_follows_rows repr_example read_empty write_ok smtp_refuses
           clock_example (config_example true) three_debtors None s E).
Defined.

Lemma one_call_example :
exists s,
  send_button repr_example read_empty write_ok smtp_refuses clock_example
              (config_example false) three_debtors None = Finished s /\
  map m_to (sent s) = [u "ivanov@example.com"; u "sidorov@example.com"].
Proof.
destruct (send_button repr_example read_empty write_ok smtp_refuses clock_example
            (config_example false) three_debtors None) as [w m|e s|s] eqn:E.
- vm_compute in E. discriminate E.
- vm_compute in E. discriminate E.
- exists s. split; [reflexivity|].
  exact (one_call_per_addressed_row repr_example read_empty write_ok smtp_refuses
           clock_example (config_example false) three_debtors None s E).
Defined.

Lemma one_pause_example :
dry_run (config_example false) = false /\
exists s,
  send_button repr_example read_empty write_ok smtp_delivers clock_example
              (config_example false) three_debtors None = Finished s /\
  slept s = repeat (sleep_time (config_example false)) (ok s) /\
  (ok s <= List.length (sent s))%nat.
Proof.
split; [reflexivity|].
destruct (send_button repr_example read_empty write_ok smtp_delivers clock_example
            (config_example false) three_debtors None) as [w m|e s|s] eqn:E.
- vm_compute in E. discriminate E.
- vm_compute in E. discriminate E.
- exists s. split; [reflexivity|].
  destruct (one_pause_per_delivery repr_example read_empty write_ok smtp_delivers
              clock_example (config_example false) three_debtors None s
              eq_refl E) as (H1 & H2 & _).
  split; [exact H1|exact H2].
Defined.

Lemma shared_address_example :
per_row_mode config_shared = false /\
exists s,
  send_button repr_example read_empty write_ok smtp_delivers clock_example
              config_shared three_debtors None = Finished s /\
  Forall (fun m => m_to m = u "office@example.com") (sent s) /\
  List.length (sent s) = 3%nat.
Proof.
split; [reflexivity|].
destruct (send_button repr_example read_empty write_ok smtp_delivers clock_example
            config_shared three_debtors None) as [w m|e s|s] eqn:E.
- vm_compute in E. discriminate E.
- vm_compute in E. discriminate E.
- exists s. split; [reflexivity|].
  destruct (shared_address_for_every_row repr_example read_empty write_ok
              smtp_delivers clock_example config_shared three_debtors None s
              eq_refl E) as (_ & H).
  split; [exact H|]. vm_compute in E. inversion E. reflexivity.
Defined.

(* ================================================================== *)
(** * Further properties of the normaliser and the selection *)
(* ================================================================== *)

Lemma binary_round_aux_sign : forall sx mx ex lx,
float_gt (binary_round_aux prec emax sx mx ex lx) fzero = true ->
sx = false.
Proof.
intros sx mx ex lx. unfold binary_round_aux.
destruct (shr_fexp prec emax mx ex lx) as [mrs' e'].
destruct (shr_fexp prec emax
            (round_nearest_even (shr_m mrs') (loc_of_shr_record mrs')) e'
            loc_Exact) as [mrs'' e''].
destruct (shr_m mrs'') as [|m|m]; [discriminate| |discriminate].
destruct (Z.leb e'' (emax - prec)); destruct sx; simpl;
  try discriminate; reflexivity.
Qed.

Lemma float_of_decimal_sign : forall neg m k,
float_gt (float_of_decimal neg m k) fzero = true -> neg = false.
Proof.
intros neg m k. unfold float_of_decimal. destruct m as [|p].
- discriminate.
- unfold SFdiv.
  destruct (SFdiv_core_binary prec emax (Z.pos p) 0 (Z.pos (pow10 k)) 0)
    as [[mz ez] lz].
  intros H. apply binary_round_aux_sign in H.
  destruct neg; [discriminate|reflexivity].
Qed.

Lemma parse_float_minus : forall t f,
parse_float (MINUS :: t) = Some f ->
exists m k, f = float_of_decimal true m k.
Proof.
intros t f. unfold parse_float, MINUS. simpl (45 =? 45)%N. cbv iota beta.
destruct (split_dot t) as [ip fp].
match goal with |- (if ?c then _ else _) = _ -> _ => destruct c end;
  intros H; inversion H. eexists; eexists; reflexivity.
Qed.

Lemma no_amount_is_no_debt_aux : forall x f,
no_amount x -> to_number x = Ok f -> float_gt f fzero = false.
Proof.
intros x f H E. destruct H as [| |z Hz|s t Ht|s Hs].
- inversion E. reflexivity.
- inversion E. reflexivity.
- unfold to_number in E. simpl in E. unfold float_of_int in E.
  destruct z as [|p|p]; [inversion E; reflexivity|lia|].
  unfold binary_normalize in E. unfold binary_round in E.
  destruct (shl_align p 0 (fexp prec emax (Z.pos (digits2_pos p) + 0)))
    as [mz ez].
  destruct (float_gt f fzero) eqn:G; [|reflexivity].
  destruct (binary_round_aux prec emax true (Z.pos mz) ez loc_Exact) eqn:B;
    inversion E; subst f; rewrite <- B in G;
    apply binary_round_aux_sign in G; discriminate.
- inversion E. unfold to_number_text. rewrite Ht.
  destruct (degenerate (MINUS :: t)); [reflexivity|].
  destruct (parse_float (MINUS :: t)) as [g|] eqn:P; [|reflexivity].
  destruct (parse_float_minus _ _ P) as (m & k & G). subst g.
  destruct (float_gt (float_of_decimal true m k) fzero) eqn:G;
    [|reflexivity].
  apply float_of_decimal_sign in G. discriminate.
- inversion E. unfold to_number_text. rewrite Hs.
  destruct (degenerate (number_text s)); reflexivity.
Qed.

(** A cell that holds no positive amount on its face is never read as a
    positive debt: missing cells, integers that are not positive, texts
    with a leading minus sign and texts that are no number all normalise
    to something that is not greater than zero. *)
(** X8. A cell that holds no positive amount on its face is never read as a
    positive debt: missing cells, integers that are not positive, texts
    with a leading minus sign and texts that are no number all normalise
    to something that is not greater than zero; a table whose debt column
    holds only such cells has no debtors. *)
Theorem no_amount_is_no_debt :
(forall x f,
   no_amount x -> to_number x = Ok f -> float_gt f fzero = false) /\
(forall df col i d,
   index_of col (columns df) = Some i ->
   (forall r, In r (rows df) -> no_amount (cell_at i r)) ->
   select_debtors df col = Ok d ->
   rows d = []).
Proof.
split; [exact no_amount_is_no_debt_aux|].
intros df col i d Hi Hall H. unfold select_debtors in H. rewrite Hi in H.
destruct (apply_to_number (map (cell_at i) (rows df))) as [ds|e] eqn:A;
  [|discriminate].
pose proof (select_debtors_eq df col i ds Hi A) as E.
unfold select_debtors in E. rewrite Hi, A in E. rewrite E in H.
inversion H; subst d. clear H E. cbn [rows].
apply apply_to_number_Forall2 in A.
assert (R : retained (rows df) ds = []).
{ unfold retained. revert ds A Hall. generalize (rows df).
  induction l as [|r l IH]; intros ds A Hall; [reflexivity|].
  destruct ds as [|v ds]; [reflexivity|]. simpl in A.
  inversion A as [|? ? ? ? Hv Hrest]; subst. simpl.
  rewrite (no_amount_is_no_debt_aux _ _ (Hall r (or_introl eq_refl)) Hv).
  apply IH; [exact Hrest|]. intros r' Hr'. apply Hall. right. exact Hr'. }
rewrite R. reflexivity.
Qed.


(** X9. Two texts that differ only in characters other than digits, commas,
    periods and minus signs are read as the same number: spaces, letters,
    currency signs and the like play no part. *)
Theorem to_number_ignores_noise : forall s s',
filter numeric_char s = filter numeric_char s' ->
to_number (CText s) = to_number (CText s').
Proof.
intros s s' H. unfold to_number. cbn [isna]. f_equal.
unfold to_number_text. rewrite !number_text_one_pass.
change (fun c => is_digit c || (c =? COMMA)%N || (c =? PERIOD)%N
                 || (c =? MINUS)%N) with numeric_char.
rewrite H. reflexivity.
Qed.

Lemma to_number_noise_example :
filter numeric_char (u "1 234,56 руб") = filter numeric_char (u "1234,56") /\
to_number (CText (u "1 234,56 руб")) = to_number (CText (u "1234,56")) /\
to_number (CText (u "1234,56")) = Ok d_1234_56.
Proof.
split; [reflexivity|]. split.
- apply to_number_ignores_noise. reflexivity.
- reflexivity.
Defined.

Lemma to_number_raise_kind : forall x e,
to_number x = Raise e ->
e = OverflowError /\ exists z, x = CInt z /\ float_of_int z = Raise OverflowError.
Proof.
intros x e H. destruct x as [|z|f|s]; unfold to_number in H; simpl in H;
  try discriminate.
- unfold float_of_int in *.
  destruct (binary_normalize prec emax z 0 false) eqn:B; inversion H.
  split; [reflexivity|]. exists z. split; [reflexivity|].
  rewrite B. reflexivity.
- destruct (is_nan f); discriminate.
Qed.

Lemma apply_to_number_raise : forall xs e,
apply_to_number xs = Raise e <->
exists x, In x xs /\ to_number x = Raise e.
Proof.
induction xs as [|x xs IH]; intros e; simpl; split.
- discriminate.
- intros (x & [] & _).
- destruct (to_number x) as [d|e'] eqn:E.
  + destruct (apply_to_number xs) as [ds|e''] eqn:A; [discriminate|].
    intros H. inversion H; subst e''. destruct (proj1 (IH e) eq_refl)
      as (y & Hy & Ey). exists y. split; [right; exact Hy|exact Ey].
  + intros H. inversion H; subst e'. exists x. split; [left; reflexivity|].
    exact E.
- intros (y & [Hy|Hy] & Ey).
  + subst y. rewrite Ey. reflexivity.
  + destruct (to_number x) as [d|e'] eqn:E.
    * assert (A : apply_to_number xs = Raise e)
        by (apply IH; exists y; split; assumption).
      rewrite A. reflexivity.
    * destruct (to_number_raise_kind _ _ E) as (K & _).
      destruct (to_number_raise_kind _ _ Ey) as (K' & _). congruence.
Qed.

(** X10. The selection fails in two ways only: with [KeyError] when the
    table has no column of the given name, and with [OverflowError] when
    the column holds an integer too large for a double; otherwise it
    returns a table. *)
Theorem select_debtors_errors : forall df col e,
select_debtors df col = Raise e <->
(index_of col (columns df) = None /\ e = KeyError col) \/
(exists i z,
   index_of col (columns df) = Some i /\
   In (CInt z) (map (cell_at i) (rows df)) /\
   float_of_int z = Raise OverflowError /\ e = OverflowError).
Proof.
intros df col e. unfold select_debtors.
destruct (index_of col (columns df)) as [i|] eqn:I.
- destruct (apply_to_number (map (cell_at i) (rows df))) as [ds|e'] eqn:A.
  + split; [discriminate|].
    intros [[H _]|(j & z & Hj & Hin & Hz & _)]; [discriminate|].
    inversion Hj; subst j.
    assert (R : apply_to_number (map (cell_at i) (rows df))
                = Raise OverflowError).
    { apply apply_to_number_raise. exists (CInt z). split; [exact Hin|].
      unfold to_number. simpl. exact Hz. }
    congruence.
  + split.
    * intros H. inversion H; subst e'. right.
      destruct (proj1 (apply_to_number_raise _ _) A) as (x & Hx & Ex).
      destruct (to_number_raise_kind _ _ Ex) as (K & z & Hz & Fz).
      subst x. exists i, z. repeat split; assumption.
    * intros [[H _]|(j & z & Hj & Hin & Hz & He)]; [discriminate|].
      inversion Hj; subst j.
      destruct (proj1 (apply_to_number_raise _ _) A) as (x & Hx & Ex).
      destruct (to_number_raise_kind _ _ Ex) as (K & _). congruence.
- split.
  + intros H. inversion H. left. split; reflexivity.
  + intros [[_ H]|(j & z & Hj & _)]; [subst e; reflexivity|discriminate].
Qed.

Lemma index_of_nth : forall c cols j,
index_of c cols = Some j -> nth j cols [] = c.
Proof.
intros c cols. induction cols as [|x cols IH]; simpl; intros j H;
  [discriminate|].
destruct (ueqb c x) eqn:E.
- inversion H; subst j. apply ueqb_spec in E. symmetry. exact E.
- destruct (index_of c cols) as [k|]; simpl in H; [|discriminate].
  inversion H; subst j. apply IH. reflexivity.
Qed.

Lemma nth_set_nth_other : forall i j v r d,
i <> j -> nth i (set_nth j v r) d = nth i r d.
Proof.
induction i as [|i IH]; intros j v r d H; destruct j as [|j];
  destruct r as [|x r]; simpl; try reflexivity; try congruence.
apply IH. congruence.
Qed.

Lemma get_assign_other : forall cols k v r c j d,
index_of c cols = Some j -> ueqb c k = false ->
get (assign_columns cols k) (assign_cell cols k v r) c d = get cols r c d.
Proof.
intros cols k v r c j d Hc Hk. unfold get, assign_columns, assign_cell.
pose proof (index_of_lt _ _ _ Hc) as Hlt.
destruct (index_of k cols) as [i|] eqn:Ik.
- rewrite Hc. unfold cell_at.
  assert (Hne : j <> i).
  { intros Heq. subst i. apply index_of_nth in Hc. apply index_of_nth in Ik.
    assert (Hck : c = k) by congruence.
    rewrite Hck, ueqb_refl in Hk. discriminate. }
  rewrite (nth_set_nth_other _ _ _ _ _ Hne). apply nth_pad. exact Hlt.
- rewrite (index_of_app_old _ _ [k] _ Hc), Hc. unfold cell_at.
  rewrite app_nth1 by (rewrite length_pad; exact Hlt).
  apply nth_pad. exact Hlt.
Qed.

Lemma in_combine_Forall2 :
forall (P : cell -> float -> Prop) (f : list cell -> cell) rs ds r v,
Forall2 P (map f rs) ds -> In (r, v) (combine rs ds) -> P (f r) v.
Proof.
intros P f rs. induction rs as [|x rs IH]; intros ds r v H Hin.
- contradiction.
- destruct ds as [|d ds]; [contradiction|]. simpl in H.
  inversion H; subst. destruct Hin as [Hin|Hin].
  + inversion Hin; subst. assumption.
  + eapply IH; eassumption.
Qed.

(** X11. Every row of the debtor table is a row of the source table: its
    debt cell normalises to the value kept under ["_debt"], that value is
    greater than zero, the cell held an amount, and the cells of all other
    columns are as they were in the source. The selection adds no rows. *)
Theorem debtors_are_source_rows : forall df col i d,
index_of col (columns df) = Some i ->
select_debtors df col = Ok d ->
(List.length (rows d) <= List.length (rows df))%nat /\
forall r', In r' (rows d) ->
  exists r v,
    In r (rows df) /\
    to_number (cell_at i r) = Ok v /\ float_gt v fzero = true /\
    ~ no_amount (cell_at i r) /\
    get (columns d) r' DEBT_KEY NaN = CFloat v /\
    forall c dflt, In c (columns df) -> c <> DEBT_KEY ->
      get (columns d) r' c dflt = get (columns df) r c dflt.
Proof.
intros df col i d Hi H. unfold select_debtors in H. rewrite Hi in H.
destruct (apply_to_number (map (cell_at i) (rows df))) as [ds|e] eqn:A;
  [|discriminate].
pose proof (select_debtors_eq df col i ds Hi A) as E.
unfold select_debtors in E. rewrite Hi, A in E. rewrite E in H.
inversion H; subst d. clear H E. cbn [rows columns].
apply apply_to_number_Forall2 in A.
split.
- rewrite length_map. unfold retained.
  etransitivity; [apply filter_length_le|].
  rewrite length_combine. apply Nat.le_min_l.
- intros r' Hr'. apply in_map_iff in Hr'. destruct Hr' as ([r v] & Hr' & Hin).
  subst r'. unfold retained in Hin. apply filter_In in Hin.
  destruct Hin as [Hin Hv]. cbn [snd] in Hv.
  pose proof (in_combine_Forall2 _ (cell_at i) _ _ _ _ A Hin) as Hn.
  cbv beta in Hn.
  exists r, v. split; [exact (in_combine_l _ _ _ _ Hin)|].
  split; [exact Hn|]. split; [exact Hv|]. split.
  { intros Hna. pose proof (no_amount_is_no_debt_aux _ _ Hna Hn). congruence. }
  split; [unfold attach; apply get_assign|].
  intros c dflt Hc Hne. destruct (index_of_In _ _ Hc) as [j Hj].
  unfold attach. cbn [fst snd]. apply (get_assign_other _ _ _ _ _ j); auto.
  destruct (ueqb c DEBT_KEY) eqn:U; [|reflexivity].
  apply ueqb_spec in U. contradiction.
Qed.

(* ================================================================== *)
(** * Further properties of the mapper and the pickers *)
(* ================================================================== *)

Lemma find_app_list : forall (P : ustring -> bool) a b,
find P (a ++ b)
= match find P a with
  | Some x => Some x
  | None => find P b
  end.
Proof.
intros P a b. induction a as [|x a IH]; simpl; [reflexivity|].
destruct (P x); [reflexivity|exact IH].
Qed.

Lemma required_fields_are_alias_keys : REQUIRED_FIELDS = map fst ALIASES.
Proof. reflexivity. Qed.

Lemma map_get_keys :
forall (F : ustring -> option ustring) (L : list ustring) field,
In field L ->
map_get field (map (fun f => (f, F f)) L) = F field.
Proof.
intros F L field. induction L as [|f L IH]; simpl; intros H;
  [contradiction|].
destruct (ueqb field f) eqn:E.
- apply ueqb_spec in E. subst f. reflexivity.
- destruct H as [H|H]; [subst f; rewrite ueqb_refl in E; discriminate|].
  apply IH. exact H.
Qed.

Section SchemaMapperMore.

Variable lower : ustring -> ustring.
Hypothesis lower_nil_iff : forall s, lower s = [] <-> s = [].

Lemma auto_map_find : forall headers field variants,
In (field, variants) ALIASES ->
map_get field (auto_map_columns lower headers)
= find (fun h => alias_hit lower variants (_clean_col lower h)) headers.
Proof.
intros headers field variants Hf. unfold auto_map_columns.
rewrite (@map_get_distinct
           (fun vs => scan_columns lower (cols_clean lower headers) vs None)
           ALIASES field variants (proj1 aliases_checked) Hf).
rewrite cols_clean_keys, scan_find.
- rewrite find_add_keys. reflexivity.
- intros col. apply (alias_hit_truthy lower lower_nil_iff field). exact Hf.
Qed.

(** X12. Columns added to the right of a table never take a field away
    from a column that had it: the mapping of the longer header list is the
    mapping of the shorter one, completed for the fields that were
    unmapped by the mapping of the added headers. *)
Theorem auto_map_append : forall headers extra field variants,
In (field, variants) ALIASES ->
map_get field (auto_map_columns lower (headers ++ extra))
= match map_get field (auto_map_columns lower headers) with
  | Some h => Some h
  | None => map_get field (auto_map_columns lower extra)
  end.
Proof.
intros headers extra field variants Hf.
rewrite !(auto_map_find _ _ _ Hf). apply find_app_list.
Qed.

(** X13. When no column is labelled like the placeholder of the pickers,
    leaving every picker at its default gives exactly the automatic
    mapping: a mapped field shows its column, an unmapped field shows the
    placeholder and stays unmapped. *)
Theorem default_col_map_is_auto_map : forall headers field,
~ In NOT_SELECTED headers ->
In field REQUIRED_FIELDS ->
map_get field (default_col_map (auto_map_columns lower headers) headers)
= map_get field (auto_map_columns lower headers).
Proof.
intros headers field Hn Hf. unfold default_col_map.
rewrite (map_get_keys
           (fun f => col_map_entry
                       (nth (default_idx
                               (map_get f (auto_map_columns lower headers))
                               (picker_options headers))
                            (picker_options headers) NOT_SELECTED))
           REQUIRED_FIELDS field Hf).
rewrite required_fields_are_alias_keys in Hf. apply in_map_iff in Hf.
destruct Hf as ([f variants] & Hfst & Hin). simpl in Hfst. subst f.
rewrite (auto_map_find headers field variants Hin).
destruct (find (fun h => alias_hit lower variants (_clean_col lower h))
               headers) as [h|] eqn:F.
- apply find_some in F. destruct F as [Hh _].
  unfold default_idx.
  assert (Hc : In h (picker_options headers)) by (right; exact Hh).
  destruct (index_of_In _ _ Hc) as [i Hi]. rewrite Hi.
  assert (Hnth : nth i (picker_options headers) NOT_SELECTED = h).
  { pose proof (index_of_lt _ _ _ Hi) as Hlt.
    rewrite (nth_indep _ NOT_SELECTED [] Hlt). apply index_of_nth.
    exact Hi. }
  rewrite Hnth. unfold col_map_entry.
  destruct (ueqb h NOT_SELECTED) eqn:E; [|reflexivity].
  apply ueqb_spec in E. rewrite E in Hh. exfalso. exact (Hn Hh).
- reflexivity.
Qed.

End SchemaMapperMore.

Lemma auto_map_append_example :
(forall s, lower_basic s = [] <-> s = []) /\
map_get (u "ФИО")
        (auto_map_columns lower_basic ([u "Лицевой счет"; u "Ф.И.О."]
                                       ++ [u "ФИО"; u "E-mail"]))
= Some (u "Ф.И.О.") /\
map_get (u "Email")
        (auto_map_columns lower_basic ([u "Лицевой счет"; u "Ф.И.О."]
                                       ++ [u "ФИО"; u "E-mail"]))
= Some (u "E-mail").
Proof.
split; [exact lower_basic_nil_iff|]. split.
- refine (eq_trans (auto_map_append lower_basic lower_basic_nil_iff
                      [u "Лицевой счет"; u "Ф.И.О."] [u "ФИО"; u "E-mail"]
                      (u "ФИО") _ _) _).
  + right; left; reflexivity.
  + vm_compute. reflexivity.
- refine (eq_trans (auto_map_append lower_basic lower_basic_nil_iff
                      [u "Лицевой счет"; u "Ф.И.О."] [u "ФИО"; u "E-mail"]
                      (u "Email") _ _) _).
  + do 10 right; left; reflexivity.
  + vm_compute. reflexivity.
Defined.

Lemma default_col_map_example :
(forall s, lower_basic s = [] <-> s = []) /\
~ In NOT_SELECTED headers_example /\
map_get (u "Сумма долга")
        (default_col_map (auto_map_columns lower_basic headers_example)
                         headers_example)
= Some (u "Долг, руб") /\
missing_min (default_col_map (auto_map_columns lower_basic headers_example)
                             headers_example) = [].
Proof.
assert (Hn : ~ In NOT_SELECTED headers_example).
{ intros H. vm_compute in H.
  repeat (destruct H as [H|H]; [discriminate H|]). exact H. }
split; [exact lower_basic_nil_iff|]. split; [exact Hn|]. split.
- refine (eq_trans (default_col_map_is_auto_map lower_basic
                      lower_basic_nil_iff headers_example (u "Сумма долга")
                      Hn _) _).
  + do 7 right; left; reflexivity.
  + vm_compute. reflexivity.
- vm_compute. reflexivity.
Defined.

(* ================================================================== *)
(** * Further properties of the composer, the ledger and the batch *)
(* ================================================================== *)

(** X15. The first entry ever: when the ledger file does not exist,
    [add_to_monitoring] reads nothing and hands to the file the header of
    the six columns and one line for the entry; with a file system that
    takes the write, the file is created with that text and no exception
    is raised. *)
Theorem add_to_monitoring_creates_ledger :
forall float_repr read_csv write_csv now fio debt method status comment,
add_to_monitoring float_repr read_csv write_csv now fio debt method status
                  comment None
= write_csv None
    (ledger_header_text
     ++ csv_line [csv_quote now; csv_quote fio;
                  (if is_nan debt then [] else float_repr debt);
                  csv_quote method; csv_quote status;
                  csv_quote comment]) /\
add_to_monitoring float_repr read_csv write_ok now fio debt method status
                  comment None
= (Some (ledger_header_text
         ++ csv_line [csv_quote now; csv_quote fio;
                      (if is_nan debt then [] else float_repr debt);
                      csv_quote method; csv_quote status;
                      csv_quote comment]), None).
Proof.
intros float_repr read_csv write_csv now fio debt method st_ comment.
assert (E : forall w,
          add_to_monitoring float_repr read_csv w now fio debt method st_
                            comment None
          = w None
              (ledger_header_text
               ++ csv_line [csv_quote now; csv_quote fio;
                            (if is_nan debt then [] else float_repr debt);
                            csv_quote method; csv_quote st_;
                            csv_quote comment])).
{ intros w. unfold add_to_monitoring, load_monitoring_data,
    save_monitoring_data.
  rewrite concat_new_entry by reflexivity.
  unfold to_csv. cbn [rows columns map app flat_map].
  rewrite app_nil_r. reflexivity. }
split; [apply E|]. rewrite E. reflexivity.
Qed.

Lemma debt_of_attach : forall cols r v,
debt_of (assign_columns cols DEBT_KEY) (attach cols (r, v)) = v.
Proof.
intros cols r v. unfold debt_of, attach. rewrite get_assign. reflexivity.
Qed.

(** X16. From the table to the log: when the debtor table comes from the
    selection, every record of a finished run carries a debt that is
    greater than zero, and there are as many records as the source table
    has rows with a positive normalised debt. *)
Theorem log_debts_are_positive :
forall float_repr read_csv write_csv smtp now cfg df col d st s,
select_debtors df col = Ok d ->
send_button float_repr read_csv write_csv smtp now cfg d st = Finished s ->
Forall (fun l => float_gt (l_debt l) fzero = true) (log_rows s) /\
exists i ds,
  index_of col (columns df) = Some i /\
  apply_to_number (map (cell_at i) (rows df)) = Ok ds /\
  List.length (log_rows s)
  = List.length (filter (fun v => float_gt v fzero) ds).
Proof.
intros float_repr read_csv write_csv smtp now cfg df col d st s Hd H.
pose proof Hd as Hd'. unfold select_debtors in Hd'.
destruct (index_of col (columns df)) as [i|] eqn:I; [|discriminate].
destruct (apply_to_number (map (cell_at i) (rows df))) as [ds|e] eqn:A;
  [|discriminate].
clear Hd'. rewrite (select_debtors_eq df col i ds I A) in Hd.
inversion Hd; subst d. clear Hd.
apply handler_finished in H. cbn [rows columns] in H.
pose proof (loop_log_subjects _ _ _ _ _ _ _ _ _ _ _ _ H) as L.
cbn [initial log_rows map app] in L.
split.
- apply Forall_forall. intros l Hl.
  assert (Hin : In (log_subject l) (map log_subject (log_rows s)))
    by (apply in_map; exact Hl).
  rewrite L in Hin. apply in_map_iff in Hin.
  destruct Hin as (r' & Hr' & Hin). apply in_map_iff in Hin.
  destruct Hin as ([r v] & Hrv & Hin). subst r'.
  unfold log_subject in Hr'. inversion Hr' as [[Hfio Hemail Hdebt]].
  rewrite debt_of_attach. unfold retained in Hin.
  apply filter_In in Hin. apply Hin.
- exists i, ds. split; [reflexivity|]. split; [exact A|].
  apply (f_equal (@List.length _)) in L. rewrite !length_map in L.
  rewrite L. apply apply_to_number_Forall2 in A.
  apply Forall2_length in A. rewrite length_map in A.
  rewrite <- (snd_retained _ _ A), length_map. reflexivity.
Qed.

Lemma no_amount_example :
no_amount (CText (u "-5,30 руб")) /\
to_number (CText (u "-5,30 руб")) = Ok (double true 5967269506265907 (-50)) /\
float_gt (double true 5967269506265907 (-50)) fzero = false.
Proof.
assert (Hn : no_amount (CText (u "-5,30 руб"))).
{ apply (na_minus (u "-5,30 руб") (u "5.30")). reflexivity. }
split; [exact Hn|]. split; [reflexivity|].
exact (proj1 no_amount_is_no_debt (CText (u "-5,30 руб")) _ Hn eq_refl).
Defined.

Lemma debtors_are_source_rows_example :
index_of (u "Долг") (columns debts_example) = Some 1%nat /\
exists d,
  select_debtors debts_example (u "Долг") = Ok d /\
  (List.length (rows d) <= 4)%nat /\
  map (fun r => get (columns d) r (u "ФИО") NaN) (rows d)
  = [CText (u "A"); CText (u "D")].
Proof.
split; [reflexivity|].
destruct (select_debtors debts_example (u "Долг")) as [d|e] eqn:E.
- exists d. split; [reflexivity|].
  destruct (debtors_are_source_rows debts_example (u "Долг") 1 d eq_refl E)
    as (H & _).
  split; [exact H|]. vm_compute in E. inversion E. reflexivity.
- vm_compute in E. discriminate E.
Defined.

Lemma log_debts_example :
exists d s,
  select_debtors debts_example (u "Долг") = Ok d /\
  send_button repr_example read_empty write_ok smtp_delivers clock_example
              config_shared d None = Finished s /\
  Forall (fun l => float_gt (l_debt l) fzero = true) (log_rows s) /\
  List.length (log_rows s) = 2%nat.
Proof.
destruct (select_debtors debts_example (u "Долг")) as [d|e] eqn:E;
  [|vm_compute in E; discriminate E].
destruct (send_button repr_example read_empty write_ok smtp_delivers clock_example
            config_shared d None) as [w m|e s|s] eqn:B.
- vm_compute in E. inversion E; subst d. vm_compute in B. discriminate B.
- vm_compute in E. inversion E; subst d. vm_compute in B. discriminate B.
- exists d, s. split; [reflexivity|]. split; [exact B|].
  destruct (log_debts_are_positive repr_example read_empty write_ok smtp_delivers
              clock_example config_shared debts_example (u "Долг") d None s
              E B) as (H & _).
  split; [exact H|].
  vm_compute in E. inversion E; subst d. vm_compute in B. inversion B.
  reflexivity.
Defined.

(* ================================================================== *)
(** * The table ingestor *)
(* ================================================================== *)

Section TableIngestorProps.

Variable lower : ustring -> ustring.
Variable float_repr : float -> ustring.
Variable read_csv_sep : ustring -> list N -> decoded frame.
Variable read_csv_plain : list N -> decoded frame.
Variable read_excel : list N -> decoded frame.
Variable camelot_tables : list N -> decoded (list frame).
Variable concat_tables : list frame -> decoded frame.
Variable plumber_pages : list N -> decoded (list (option (list (list cell)))).
Variable frame_of_rows : list (list cell) -> decoded frame.

Local Abbreviation read_table_ :=
  (read_table lower float_repr read_csv_sep read_csv_plain read_excel
              camelot_tables concat_tables plumber_pages frame_of_rows).

Lemma sniff_find : forall seps data,
sniff read_csv_sep seps data
= match find (wide read_csv_sep data) seps with
  | Some sep =>
    match read_csv_sep sep data with
    | Decoded df => Some df
    | Failed _ => None
    end
  | None => None
  end.
Proof.
intros seps data. induction seps as [|sep rest IH]; simpl; [reflexivity|].
unfold wide at 1.
destruct (read_csv_sep sep data) as [df|msg] eqn:E.
- destruct (1 <? List.length (columns df))%nat; [rewrite E; reflexivity|].
  exact IH.
- exact IH.
Qed.

(** X17. A file named [.csv] is read with the first of comma, semicolon and
    tab under which it decodes without an exception to more than one
    column; when there is none, the plain reader decides, and its
    exception is the only one that comes out. *)
Theorem read_table_csv : forall file_name data,
ends_with (u ".csv") (lower file_name) = true ->
read_table_ file_name data
= match find (wide read_csv_sep data) SEPARATORS with
  | Some sep => let_through (read_csv_sep sep data)
  | None => let_through (read_csv_plain data)
  end.
Proof.
intros file_name data H. unfold read_table. rewrite H, sniff_find.
destruct (find (wide read_csv_sep data) SEPARATORS) as [sep|] eqn:F;
  [|reflexivity].
apply find_some in F. destruct F as [_ W]. unfold wide in W.
destruct (read_csv_sep sep data); [reflexivity|discriminate].
Qed.

(** X18. How [read_table] fails: with its error for an unsupported format
    exactly when the name ends in none of [.csv], [.xlsx], [.xls] and
    [.pdf] (whatever the case of the letters); with its error for an
    unreadable PDF only when both PDF attempts gave nothing; and with the
    exception of a decoder only for a CSV file, from the plain reader, or
    for a spreadsheet. An exception inside a PDF attempt never comes
    out. *)
Theorem read_table_errors : forall file_name data,
let name := lower file_name in
(read_table_ file_name data = NoTable UnsupportedFormat <->
 ends_with (u ".csv") name = false /\ ends_with (u ".xlsx") name = false /\
 ends_with (u ".xls") name = false /\ ends_with (u ".pdf") name = false) /\
(read_table_ file_name data = NoTable UnreadablePdf ->
 ends_with (u ".pdf") name = true /\
 try_camelot float_repr camelot_tables concat_tables data = None /\
 try_pdfplumber float_repr plumber_pages frame_of_rows data = None) /\
(forall msg, read_table_ file_name data = NoTable (DecoderError msg) ->
 (ends_with (u ".csv") name = true /\ read_csv_plain data = Failed msg /\
  forall sep, In sep SEPARATORS -> wide read_csv_sep data sep = false) \/
 (ends_with (u ".csv") name = false /\
  (ends_with (u ".xlsx") name = true \/ ends_with (u ".xls") name = true) /\
  read_excel data = Failed msg)).
Proof.
intros file_name data name. unfold read_table. fold name.
destruct (ends_with (u ".csv") name) eqn:C.
- rewrite sniff_find.
  destruct (find (wide read_csv_sep data) SEPARATORS) as [sep|] eqn:F.
  + apply find_some in F. destruct F as [_ W]. unfold wide in W.
    destruct (read_csv_sep sep data); [|discriminate].
    split; [split; [discriminate|intros (H & _); discriminate]|].
    split; discriminate.
  + destruct (read_csv_plain data) as [df|m] eqn:P; simpl.
    * split; [split; [discriminate|intros (H & _); discriminate]|].
      split; discriminate.
    * split; [split; [discriminate|intros (H & _); discriminate]|].
      split; [discriminate|]. intros msg H. inversion H; subst m. left.
      split; [reflexivity|]. split; [reflexivity|].
      intros sep Hs. exact (find_none _ _ F _ Hs).
- destruct (ends_with (u ".xlsx") name) eqn:X; cbn [orb].
  + destruct (read_excel data) as [df|m]; simpl.
    * split; [split; [discriminate|intros (_ & H & _); discriminate]|].
      split; discriminate.
    * split; [split; [discriminate|intros (_ & H & _); discriminate]|].
      split; [discriminate|]. intros msg H. inversion H; subst m. right.
      split; [reflexivity|]. split; [left; reflexivity|reflexivity].
  + destruct (ends_with (u ".xls") name) eqn:L.
    * destruct (read_excel data) as [df|m]; simpl.
      -- split; [split; [discriminate|intros (_ & _ & H & _); discriminate]|].
         split; discriminate.
      -- split; [split; [discriminate|intros (_ & _ & H & _); discriminate]|].
         split; [discriminate|]. intros msg H. inversion H; subst m. right.
         split; [reflexivity|]. split; [right; reflexivity|reflexivity].
    * destruct (ends_with (u ".pdf") name) eqn:P.
      -- destruct (try_camelot float_repr camelot_tables concat_tables data)
           as [df|] eqn:T1.
         ++ split; [split; [discriminate|intros (_ & _ & _ & H); discriminate]|].
            split; discriminate.
         ++ destruct (try_pdfplumber float_repr plumber_pages frame_of_rows
                        data) as [df|] eqn:T2.
            ** split; [split; [discriminate
                              |intros (_ & _ & _ & H); discriminate]|].
               split; discriminate.
            ** split; [split; [discriminate
                              |intros (_ & _ & _ & H); discriminate]|].
               split; [|discriminate]. intros _. repeat split; reflexivity.
      -- split; [split; [intros _; repeat split; reflexivity|reflexivity]|].
         split; discriminate.
Qed.

Lemma promote_header_shape : forall df,
(2 <= List.length (rows df) ->
 List.length (rows (promote_header float_repr df))
 = List.length (rows df) - 1 /\
 List.length (columns (promote_header float_repr df))
 = List.length (columns df) /\
 columns (promote_header float_repr df)
 = map (py_str float_repr)
       (pad (List.length (columns df)) (nth 0 (rows df) [])) /\
 rows (promote_header float_repr df) = tl (rows df))%nat /\
(List.length (rows df) < 2 -> promote_header float_repr df = df)%nat.
Proof.
intros df. unfold promote_header.
destruct (rows df) as [|r1 [|r2 rs]]; simpl; split; intros H; try lia;
  try reflexivity.
repeat split; try reflexivity; try lia.
rewrite length_map, length_pad. reflexivity.
Qed.

(** X19. A file named [.pdf]: when [camelot] finds tables and they
    concatenate, the result comes from them and [pdfplumber] is not
    asked; the first row of a table of two or more rows becomes the
    header, so the table has one row less and as many columns; a table of
    one row is returned as it is. *)
Theorem read_table_pdf : forall file_name data t ts df,
ends_with (u ".csv") (lower file_name) = false ->
ends_with (u ".xlsx") (lower file_name) = false ->
ends_with (u ".xls") (lower file_name) = false ->
ends_with (u ".pdf") (lower file_name) = true ->
camelot_tables data = Decoded (t :: ts) ->
concat_tables (t :: ts) = Decoded df ->
read_table_ file_name data = Table (promote_header float_repr df) /\
(2 <= List.length (rows df) ->
 List.length (rows (promote_header float_repr df))
 = List.length (rows df) - 1 /\
 List.length (columns (promote_header float_repr df))
 = List.length (columns df))%nat /\
(List.length (rows df) < 2 -> promote_header float_repr df = df)%nat.
Proof.
intros file_name data t ts df C X L P T K. unfold read_table.
rewrite C, X, L, P. cbn [orb]. unfold try_camelot. rewrite T, K.
split; [reflexivity|].
destruct (promote_header_shape df) as (H1 & H2).
split; [|exact H2]. intros H. destruct (H1 H) as (A & B & _).
split; assumption.
Qed.

End TableIngestorProps.

(** Decoders for the examples: a CSV reader that finds one column under
    a comma and three under a semicolon, and libraries that fail. *)
Lemma read_table_csv_example :
ends_with (u ".csv") (lower_basic (u "Долги.CSV")) = true /\
read_table lower_basic repr_example
  (fun sep _ => if ueqb sep [59%N] then Decoded debts_wide
                else if ueqb sep [COMMA] then Decoded debts_narrow
                else Failed (u "ParserError"))
  (fun _ => Decoded debts_narrow)
  (fun _ => Failed (u "BadZipFile"))
  (fun _ => Failed (u "ModuleNotFoundError"))
  (fun _ => Failed (u "ValueError"))
  (fun _ => Failed (u "ModuleNotFoundError"))
  (fun _ => Failed (u "ValueError"))
  (u "Долги.CSV") []
= Table debts_wide.
Proof.
split; [reflexivity|].
refine (eq_trans (read_table_csv lower_basic repr_example _ _ _ _ _ _ _
                    (u "Долги.CSV") [] eq_refl) _).
reflexivity.
Defined.

Lemma read_table_pdf_example :
read_table lower_basic repr_example
  (fun _ _ => Failed (u "ParserError"))
  (fun _ => Failed (u "ParserError"))
  (fun _ => Failed (u "BadZipFile"))
  (fun _ => Decoded [debts_example])
  (fun ts => match ts with [t] => Decoded t | _ => Failed (u "ValueError") end)
  (fun _ => Failed (u "ModuleNotFoundError"))
  (fun _ => Failed (u "ValueError"))
  (u "scan.pdf") []
= Table (promote_header repr_example debts_example) /\
List.length (rows (promote_header repr_example debts_example)) = 3%nat /\
columns (promote_header repr_example debts_example) = [u "A"; u "100"].
Proof.
destruct (read_table_pdf lower_basic repr_example
            (fun _ _ => Failed (u "ParserError"))
            (fun _ => Failed (u "ParserError"))
            (fun _ => Failed (u "BadZipFile"))
            (fun _ => Decoded [debts_example])
            (fun ts => match ts with
                       | [t] => Decoded t
                       | _ => Failed (u "ValueError")
                       end)
            (fun _ => Failed (u "ModuleNotFoundError"))
            (fun _ => Failed (u "ValueError"))
            (u "scan.pdf") [] debts_example [] debts_example
            eq_refl eq_refl eq_refl eq_refl eq_refl eq_refl)
  as (H & _ & _).
split; [exact H|]. split; reflexivity.
Defined.

(* ================================================================== *)
(** * The mail capability *)
(* ================================================================== *)

Section MailSenderProps.

Variable server : list smtp_op -> smtp_op -> option ustring.
Variable mime_text : ustring -> ustring -> ustring -> ustring -> ustring.

Local Abbreviation run_ops_ := (run_ops server).
Local Abbreviation session_ops_ := (session_ops mime_text).
Local Abbreviation send_ := (send_email_smtp server mime_text).

(** The steps run in order up to the first exception: either all of
    them went through, or the trace stops at the step that raised. *)
Lemma run_ops_cases : forall ops done,
(run_ops_ done ops = (done ++ ops, None) /\
 forall pre op post, ops = pre ++ op :: post ->
                     server (done ++ pre) op = None) \/
(exists pre op post e,
   ops = pre ++ op :: post /\
   run_ops_ done ops = (done ++ pre ++ [op], Some e) /\
   server (done ++ pre) op = Some e /\
   forall pre' op' post', pre = pre' ++ op' :: post' ->
                          server (done ++ pre') op' = None).
Proof.
induction ops as [|op ops IH]; intros done.
- left. simpl. rewrite app_nil_r. split; [reflexivity|].
  intros pre op post H. destruct pre; discriminate.
- simpl. destruct (server done op) as [e|] eqn:S.
  + right. exists [], op, ops, e. simpl. rewrite app_nil_r.
    repeat split; try assumption. intros pre' op' post' H.
    destruct pre'; discriminate.
  + destruct (IH (done ++ [op])) as [[R A]|(pre & op1 & post & e & O & R & F & A)].
    * left. rewrite R, <- app_assoc. split; [reflexivity|].
      intros pre op' post H. destruct pre as [|x pre]; simpl in H.
      -- inversion H; subst. rewrite app_nil_r. exact S.
      -- inversion H; subst. specialize (A pre op' post eq_refl).
         rewrite <- app_assoc in A. exact A.
    * right. exists (op :: pre), op1, post, e. subst ops.
      rewrite R, <- !app_assoc. simpl. repeat split.
      -- rewrite <- app_assoc in F. exact F.
      -- intros pre' op' post' H. destruct pre' as [|x pre']; simpl in H.
         ++ inversion H; subst. rewrite app_nil_r. exact S.
         ++ inversion H; subst. specialize (A pre' op' post' eq_refl).
            rewrite <- app_assoc in A. exact A.
Qed.

Lemma session_ops_last : forall m,
session_ops_ m
= session_prelude m
  ++ [Sendmail (m_from m) [m_to m]
               (mime_text (m_from m) (m_to m) (m_subject m) (m_body m))].
Proof.
intros m. unfold session_ops, session_prelude.
destruct (m_port m =? 465)%Z; [reflexivity|].
simpl. rewrite <- app_assoc. reflexivity.
Qed.

Lemma session_prelude_steps : forall m,
existsb is_sendmail (session_prelude m) = false /\
existsb is_login (session_prelude m) = truthy (m_user m) /\
existsb is_starttls (session_prelude m)
= (negb (m_port m =? 465)%Z && m_use_tls m) /\
(forall a usr pw b, session_prelude m = a ++ Login usr pw :: b ->
   usr = m_user m /\ pw = m_password m /\ b = [] /\
   existsb is_starttls a = (negb (m_port m =? 465)%Z && m_use_tls m)).
Proof.
intros m. unfold session_prelude.
destruct (m_port m =? 465)%Z; destruct (truthy (m_user m));
  try destruct (m_use_tls m); simpl;
  (split; [reflexivity|]); (split; [reflexivity|]);
  (split; [reflexivity|]); intros a usr pw b H;
  repeat (destruct a as [|? a]; simpl in H; try discriminate H;
          try (inversion H; subst; repeat split; reflexivity)).
Qed.

Lemma split_last : forall (l pre post : list smtp_op) x op,
l ++ [x] = pre ++ op :: post ->
(post = [] /\ pre = l /\ op = x) \/
(exists post', post = post' ++ [x] /\ l = pre ++ op :: post').
Proof.
intros l pre post x op H.
destruct post as [|p0 post0].
- left. change (pre ++ [op]) with (pre ++ [op]) in H.
  apply app_inj_tail in H. destruct H; subst. repeat split; reflexivity.
- assert (N : p0 :: post0 <> []) by discriminate.
  destruct (exists_last N) as (post' & y & E). rewrite E in *. clear E N.
  right. exists post'.
  change (pre ++ op :: post' ++ [y]) with (pre ++ (op :: post') ++ [y]) in H.
  rewrite app_assoc in H. apply app_inj_tail in H. destruct H; subst.
  split; reflexivity.
Qed.

(** The shape of every run: the connection was refused and nothing else
    happened, or it was opened, a prefix of the steps was taken, and the
    block was left; the exception is that of leaving the block when
    there is one, that of the block otherwise. *)
Lemma send_shape : forall m trace err,
send_ m = (trace, err) ->
(exists e, server [] (opener m) = Some e /\ trace = [opener m]
           /\ err = Some e) \/
(server [] (opener m) = None /\
 exists exec rest,
   session_ops_ m = exec ++ rest /\
   trace = opener m :: exec ++ [Close] /\
   (forall pre op post, exec = pre ++ op :: post -> post <> [] ->
      server (opener m :: pre) op = None) /\
   exists block,
     ((block = None /\ rest = [] /\
       forall pre op, exec = pre ++ [op] ->
                      server (opener m :: pre) op = None) \/
      (exists pre op e, exec = pre ++ [op] /\ block = Some e /\
                        server (opener m :: pre) op = Some e)) /\
     err = match server (opener m :: exec) Close with
           | Some e => Some e
           | None => block
           end).
Proof.
intros m trace err H. unfold send_email_smtp in H.
destruct (server [] (opener m)) as [e|] eqn:S.
- left. inversion H; subst. exists e. repeat split; reflexivity.
- right. split; [reflexivity|].
  destruct (run_ops_cases (session_ops_ m) [opener m])
    as [[R A]|(pre & op & post & e & O & R & F & A)].
  + rewrite R in H. cbn [app] in H.
    exists (session_ops_ m), []. rewrite app_nil_r.
    split; [reflexivity|].
    split; [destruct (server (opener m :: session_ops_ m) Close);
            inversion H; reflexivity|].
    split; [intros pre op post E _; exact (A pre op post E)|].
    exists None. split.
    * left. repeat split. intros pre op E. exact (A pre op [] E).
    * destruct (server (opener m :: session_ops_ m) Close);
        inversion H; reflexivity.
  + rewrite R in H. cbn [app] in H. exists (pre ++ [op]), post.
    split; [rewrite <- app_assoc; exact O|].
    split; [destruct (server (opener m :: pre ++ [op]) Close);
            inversion H; rewrite <- app_assoc; reflexivity|].
    split.
    * intros pre' op' post' E Hne.
      destruct (split_last _ _ _ _ _ E) as [(Hp & _)|(post'' & _ & E')];
        [contradiction|]. exact (A pre' op' post'' E').
    * exists (Some e). split.
      -- right. exists pre, op, e. repeat split; assumption.
      -- destruct (server (opener m :: pre ++ [op]) Close);
           inversion H; reflexivity.
Qed.

Lemma existsb_app_smtp : forall (f : smtp_op -> bool) a b,
existsb f (a ++ b) = existsb f a || existsb f b.
Proof. intros. apply existsb_app. Qed.

Lemma opener_kind : forall m,
is_sendmail (opener m) = false /\ is_login (opener m) = false /\
is_secure (opener m) = (m_port m =? 465)%Z.
Proof.
intros m. unfold opener. destruct (m_port m =? 465)%Z; repeat split.
Qed.

(** X20. The mail is handed to the server only when the connection was
    opened and every step before the mail (EHLO, STARTTLS, login) went
    through; it is handed over once, and the connection is closed after
    it. A failed login or a failed STARTTLS sends no mail. *)
Theorem mail_only_after_every_step : forall m trace err,
send_ m = (trace, err) ->
existsb is_sendmail trace = true ->
trace = opener m :: session_ops_ m ++ [Close] /\
server [] (opener m) = None /\
(forall pre op post, session_prelude m = pre ++ op :: post ->
                     server (opener m :: pre) op = None) /\
List.length (filter is_sendmail trace) = 1%nat.
Proof.
intros m trace err H M.
destruct (opener_kind m) as (K1 & K2 & K3).
destruct (session_prelude_steps m) as (P1 & _).
destruct (send_shape m trace err H)
  as [(e & S & T & E)|(S & exec & rest & O & T & A & C)].
- subst trace. simpl in M. rewrite K1 in M. discriminate.
- subst trace. simpl in M. rewrite K1 in M. simpl in M.
  rewrite existsb_app_smtp in M. simpl in M. rewrite orb_false_r in M.
  rewrite session_ops_last in O.
  assert (R : rest = [] /\ exec = session_prelude m
                                  ++ [Sendmail (m_from m) [m_to m]
                                        (mime_text (m_from m) (m_to m)
                                           (m_subject m) (m_body m))]).
  { destruct rest as [|r0 rest0]; [rewrite app_nil_r in O; auto|].
    exfalso.
    assert (N : r0 :: rest0 <> []) by discriminate.
    destruct (exists_last N) as (rest' & y & E). rewrite E in O.
    rewrite app_assoc in O. apply app_inj_tail in O. destruct O as [O _].
    rewrite O, existsb_app_smtp in P1.
    rewrite M in P1. discriminate. }
  destruct R as (R1 & R2). subst rest.
  rewrite session_ops_last, <- R2. split; [reflexivity|].
  split; [exact S|]. split.
  + intros pre op post E. apply (A pre op (post ++ [Sendmail (m_from m)
                                   [m_to m] (mime_text (m_from m) (m_to m)
                                   (m_subject m) (m_body m))])).
    * rewrite R2, E, <- app_assoc. reflexivity.
    * destruct post; discriminate.
  + simpl. rewrite K1, R2, !filter_app. simpl.
    assert (F : filter is_sendmail (session_prelude m) = []).
    { destruct (filter is_sendmail (session_prelude m)) as [|x l] eqn:F;
        [reflexivity|].
      assert (I : In x (filter is_sendmail (session_prelude m)))
        by (rewrite F; left; reflexivity).
      apply filter_In in I. destruct I as [I1 I2].
      assert (X : existsb is_sendmail (session_prelude m) = true)
        by (apply existsb_exists; exists x; split; assumption).
      rewrite X in P1. discriminate. }
    rewrite F. reflexivity.
Qed.

Lemma existsb_secure_starttls : forall l,
existsb is_starttls l = true -> existsb is_secure l = true.
Proof.
intros l H. apply existsb_exists in H. destruct H as (x & Hx & Sx).
apply existsb_exists. exists x. split; [exact Hx|].
destruct x; try discriminate. reflexivity.
Qed.

(** X21. On port 465 or with STARTTLS switched on, the login and the
    password go to the server only after the connection was opened with
    TLS or upgraded by STARTTLS, and that step went through; the login is
    the one of the settings. *)
Theorem login_only_when_secure : forall m trace err pre usr pw post,
(m_port m = 465%Z \/ m_use_tls m = true) ->
send_ m = (trace, err) ->
trace = pre ++ Login usr pw :: post ->
existsb is_secure pre = true /\
usr = m_user m /\ pw = m_password m /\
(forall a op b, pre = a ++ op :: b -> server a op = None).
Proof.
intros m trace err pre usr pw post Hsec H T.
destruct (opener_kind m) as (K1 & K2 & K3).
destruct (session_prelude_steps m) as (_ & _ & _ & P4).
destruct (send_shape m trace err H)
  as [(e & S & T' & E)|(S & exec & rest & O & T' & A & C)].
- subst trace. destruct pre as [|x pre]; simpl in T'.
  + inversion T' as [X]. rewrite <- X in K2. discriminate.
  + inversion T'. destruct pre; discriminate.
- rewrite T in T'. destruct pre as [|x pre]; simpl in T'.
  + inversion T' as [[X Y]]. rewrite <- X in K2. discriminate.
  + inversion T' as [[X Y]]. clear T'.
    destruct (split_last _ _ _ _ _ (eq_sym Y))
      as [(_ & _ & Z)|(post' & Hp & He)]; [discriminate|].
    rewrite session_ops_last, He in O.
    assert (O' : session_prelude m
                 ++ [Sendmail (m_from m) [m_to m]
                       (mime_text (m_from m) (m_to m) (m_subject m)
                          (m_body m))]
                 = pre ++ Login usr pw :: (post' ++ rest)).
    { rewrite O, <- app_assoc. reflexivity. }
    destruct (split_last _ _ _ _ _ O')
      as [(_ & _ & Z)|(post'' & _ & Hpre)]; [discriminate|].
    destruct (P4 pre usr pw post'' Hpre) as (U1 & U2 & _ & U4).
    split; [|split; [exact U1|split; [exact U2|]]].
    * simpl. rewrite K3.
      destruct Hsec as [Hp465|Htls].
      -- rewrite Hp465. reflexivity.
      -- rewrite Htls, andb_true_r in U4.
         destruct (m_port m =? 465)%Z; [reflexivity|]. simpl in U4.
         simpl. apply existsb_secure_starttls. exact U4.
    * intros a op b Ha. destruct a as [|y a]; simpl in Ha.
      -- inversion Ha; subst. exact S.
      -- inversion Ha as [[Hy Hrest]]. subst y.
         apply (A a op (b ++ Login usr pw :: post')).
         ++ rewrite He, Hrest, <- app_assoc. reflexivity.
         ++ destruct b; discriminate.
Qed.

(** X22. Without a login name no login is attempted, so the password of
    the settings is not sent. *)
Theorem no_login_without_user : forall m trace err,
m_user m = [] ->
send_ m = (trace, err) ->
existsb is_login trace = false.
Proof.
intros m trace err U H.
destruct (opener_kind m) as (K1 & K2 & K3).
destruct (session_prelude_steps m) as (_ & P2 & _).
rewrite U in P2. simpl in P2.
destruct (send_shape m trace err H)
  as [(e & S & T & E)|(S & exec & rest & O & T & A & C)].
- subst trace. simpl. rewrite K2. reflexivity.
- subst trace. simpl. rewrite K2, existsb_app_smtp. simpl.
  rewrite orb_false_r.
  assert (X : existsb is_login (session_ops_ m) = false).
  { rewrite session_ops_last, existsb_app_smtp, P2. reflexivity. }
  rewrite O, existsb_app_smtp in X. apply orb_false_iff in X.
  destruct X as [X _]. rewrite X. reflexivity.
Qed.



End MailSenderProps.

(** A server that takes every step, and one that refuses the login. *)
Lemma mail_only_after_every_step_example :
existsb is_sendmail
        (fst (send_email_smtp server_accepts mime_example mail_example))
= true /\
fst (send_email_smtp server_accepts mime_example mail_example)
= [OpenPlain (u "smtp.gmail.com") 587; Ehlo; StartTLS; Ehlo;
   Login (u "uk@example.com") (u "secret");
   Sendmail (u "uk@example.com") [u "ivanov@example.com"]
            (u "Subject: Уведомление");
   Close] /\
send_email_smtp server_refuses_login mime_example mail_example
= ([OpenPlain (u "smtp.gmail.com") 587; Ehlo; StartTLS; Ehlo;
    Login (u "uk@example.com") (u "secret"); Close],
   Some (u "535 Authentication failed")).
Proof.
split; [reflexivity|]. split; [|reflexivity].
destruct (mail_only_after_every_step server_accepts mime_example
            mail_example
            (fst (send_email_smtp server_accepts mime_example mail_example))
            (snd (send_email_smtp server_accepts mime_example mail_example))
            (surjective_pairing _) eq_refl) as (T & _).
rewrite T. reflexivity.
Defined.

Lemma login_only_when_secure_example :
(m_port mail_example = 465%Z \/ m_use_tls mail_example = true) /\
existsb is_secure [OpenPlain (u "smtp.gmail.com") 587; Ehlo; StartTLS; Ehlo]
= true.
Proof.
split; [right; reflexivity|].
destruct (login_only_when_secure server_accepts mime_example mail_example
            _ None
            [OpenPlain (u "smtp.gmail.com") 587; Ehlo; StartTLS; Ehlo]
            (u "uk@example.com") (u "secret")
            [Sendmail (u "uk@example.com") [u "ivanov@example.com"]
                      (u "Subject: Уведомление"); Close]
            (or_intror eq_refl) eq_refl eq_refl) as (H & _).
exact H.
Defined.

Lemma no_login_without_user_example :
m_user mail_anonymous = [] /\
existsb is_login
        (fst (send_email_smtp server_accepts mime_example mail_anonymous))
= false /\
send_email_smtp server_accepts mime_example mail_anonymous
= ([OpenSSL (u "smtp.example.com") 465;
    Sendmail (u "uk@example.com") [u "ivanov@example.com"]
             (u "Subject: Уведомление");
    Close], None).
Proof.
split; [reflexivity|]. split; [|reflexivity].
exact (no_login_without_user server_accepts mime_example mail_anonymous
         (fst (send_email_smtp server_accepts mime_example mail_anonymous))
         (snd (send_email_smtp server_accepts mime_example mail_anonymous))
         eq_refl (surjective_pairing _)).
Defined.


(* ================================================================== *)
(** * What [format_money] prints, [to_number] reads *)
(* ================================================================== *)

Lemma digit_char : forall n, is_digit (48 + n mod 10) = true.
Proof.
intros n. unfold is_digit.
assert (H : (n mod 10 < 10)%N) by (apply N.mod_lt; discriminate).
set (r := (n mod 10)%N) in *. clearbody r.
apply andb_true_iff. split; apply N.leb_le; lia.
Qed.

Lemma digits_fuel_digits : forall fuel n acc,
forallb is_digit acc = true ->
forallb is_digit (digits_fuel fuel n acc) = true.
Proof.
induction fuel as [|fuel IH]; intros n acc H; cbn [digits_fuel];
  [exact H|].
assert (H' : forallb is_digit ((48 + n mod 10)%N :: acc) = true).
{ cbn [forallb]. rewrite digit_char. exact H. }
destruct (n <? 10)%N; [exact H'|]. apply IH. exact H'.
Qed.

Lemma digits_fuel_keeps : forall fuel n acc,
acc <> [] -> digits_fuel fuel n acc <> [].
Proof.
induction fuel as [|fuel IH]; intros n acc H; cbn [digits_fuel];
  [exact H|].
destruct (n <? 10)%N; [discriminate|]. apply IH. discriminate.
Qed.

Lemma digits_of_N_nonempty : forall n, digits_of_N n <> [].
Proof.
intros n. unfold digits_of_N. cbn [digits_fuel].
destruct (n <? 10)%N; [discriminate|]. apply digits_fuel_keeps.
discriminate.
Qed.

Lemma digits_fuel_value : forall fuel n acc,
(n < 2 ^ N.of_nat fuel)%N ->
fold_left (fun a c => (a * 10 + (c - 48))%N) (digits_fuel fuel n acc) 0%N
= fold_left (fun a c => (a * 10 + (c - 48))%N) acc n.
Proof.
induction fuel as [|fuel IH]; intros n acc H.
- simpl in *. assert (n = 0%N) by lia. subst n. reflexivity.
- cbn [digits_fuel].
  assert (D : (n = 10 * (n / 10) + n mod 10)%N) by (apply N.div_mod'; lia).
  assert (M : (n mod 10 < 10)%N) by (apply N.mod_lt; discriminate).
  destruct (N.ltb_spec n 10) as [L|L].
  + cbn [fold_left]. f_equal. rewrite N.mod_small by exact L. lia.
  + rewrite IH.
    * cbn [fold_left]. f_equal.
      set (q := (n / 10)%N) in *. set (r := (n mod 10)%N) in *.
      clearbody q r. lia.
    * rewrite Nat2N.inj_succ, N.pow_succ_r' in H.
      apply N.Div0.div_lt_upper_bound. lia.
Qed.

Lemma digits_of_N_value : forall n, digits_value (digits_of_N n) = n.
Proof.
intros n. unfold digits_value, digits_of_N. rewrite digits_fuel_value.
- reflexivity.
- rewrite Nat2N.inj_succ, N2Nat.id. destruct n as [|p]; [reflexivity|].
  apply N.log2_spec. reflexivity.
Qed.

Lemma group3_rev_filter : forall l n,
forallb is_digit l = true ->
filter numeric_char (group3_rev n l) = l.
Proof.
induction l as [|d l IH]; intros n H; [reflexivity|].
simpl in H. apply andb_true_iff in H. destruct H as [Hd Hl].
assert (Nd : numeric_char d = true) by (unfold numeric_char; rewrite Hd; reflexivity).
cbn [group3_rev].
destruct n as [|[|[|n]]]; try (cbn [filter]; rewrite Nd, IH by exact Hl;
                                reflexivity).
destruct l as [|d' l'].
- cbn [filter]. rewrite Nd. reflexivity.
- cbn [filter]. rewrite Nd.
  change (numeric_char SPACE) with false. cbn iota.
  rewrite IH by exact Hl. reflexivity.
Qed.

Lemma filter_rev_list : forall (f : N -> bool) l,
filter f (rev l) = rev (filter f l).
Proof.
intros f l. induction l as [|x l IH]; [reflexivity|]. simpl.
rewrite filter_app, IH. simpl. destruct (f x); simpl;
  [reflexivity|rewrite app_nil_r; reflexivity].
Qed.

Lemma group3_filter : forall ds,
forallb is_digit ds = true -> filter numeric_char (group3 ds) = ds.
Proof.
intros ds H. unfold group3. rewrite filter_rev_list, group3_rev_filter.
- apply rev_involutive.
- rewrite forallb_forall in *. intros x Hx. apply H. apply in_rev. exact Hx.
Qed.

Lemma digit_is_numeric : forall c,
is_digit c = true ->
keep_numeric c = true /\ numeric_char c = true /\
(c =? COMMA)%N = false /\ (c =? PERIOD)%N = false /\ (c =? MINUS)%N = false.
Proof.
intros c H. unfold keep_numeric, numeric_char. rewrite H.
unfold is_digit in H. apply andb_true_iff in H. destruct H as [H1 H2].
apply N.leb_le in H1. apply N.leb_le in H2.
unfold COMMA, PERIOD, MINUS.
repeat split; try reflexivity; apply N.eqb_neq; lia.
Qed.

Lemma clean_text_fixed : forall l,
forallb keep_numeric l = true ->
filter numeric_char l = l /\ replace_char COMMA PERIOD l = l.
Proof.
induction l as [|c l IH]; intros H; [split; reflexivity|].
cbn [forallb] in H. apply andb_true_iff in H. destruct H as [Hc Hl].
destruct (IH Hl) as [F R]. cbn [filter replace_char map].
unfold replace_char in R. rewrite R.
assert (N1 : numeric_char c = true).
{ unfold numeric_char. unfold keep_numeric in Hc.
  destruct (is_digit c), (c =? COMMA)%N, (c =? PERIOD)%N, (c =? MINUS)%N;
    simpl in *; congruence. }
assert (N2 : (c =? COMMA)%N = false).
{ unfold keep_numeric in Hc. destruct (is_digit c) eqn:D.
  - apply digit_is_numeric in D. apply D.
  - simpl in Hc. apply orb_true_iff in Hc.
    destruct Hc as [Hc|Hc]; apply N.eqb_eq in Hc; subst c; reflexivity. }
rewrite N1, N2, F. split; reflexivity.
Qed.

Lemma digits_keep : forall l,
forallb is_digit l = true -> forallb keep_numeric l = true.
Proof.
intros l H. rewrite forallb_forall in *. intros c Hc.
apply digit_is_numeric. apply H. exact Hc.
Qed.

Lemma split_dot_digits : forall ds rest,
forallb is_digit ds = true ->
split_dot (ds ++ PERIOD :: rest) = (ds, Some rest).
Proof.
induction ds as [|d ds IH]; intros rest H.
- reflexivity.
- cbn [forallb] in H. apply andb_true_iff in H. destruct H as [Hd Hl].
  cbn [app split_dot].
  destruct (digit_is_numeric d Hd) as (_ & _ & _ & P & _).
  unfold PERIOD in P. rewrite P, (IH rest Hl). reflexivity.
Qed.

Lemma degenerate_long : forall a b c l, degenerate (a :: b :: c :: l) = false.
Proof.
intros a b c l. unfold degenerate. cbn [ueqb].
rewrite !andb_false_r. reflexivity.
Qed.

Lemma two_digits_value : forall q r,
(r < 100)%N ->
forallb is_digit (two_digits r) = true /\
fold_left (fun a c => (a * 10 + (c - 48))%N) (two_digits r) q
= (q * 100 + r)%N.
Proof.
intros q r H. unfold two_digits. split.
- cbn [forallb]. rewrite digit_char, andb_true_r.
  assert (D : (r / 10 < 10)%N) by (apply N.Div0.div_lt_upper_bound; lia).
  set (x := (r / 10)%N) in *. clearbody x.
  unfold is_digit. apply andb_true_iff. split; apply N.leb_le; lia.
- cbn [fold_left].
  assert (E : (r = 10 * (r / 10) + r mod 10)%N) by (apply N.div_mod'; lia).
  set (x := (r / 10)%N) in *. set (y := (r mod 10)%N) in *.
  clearbody x y. lia.
Qed.

Lemma parse_float_decimal : forall s ds dd,
forallb is_digit ds = true -> forallb is_digit dd = true -> ds <> [] ->
parse_float (sign_text s ++ ds ++ PERIOD :: dd)
= Some (float_of_decimal s (digits_value (ds ++ dd)) (List.length dd)).
Proof.
intros s ds dd Hds Hdd Hne.
assert (L : negb (Nat.eqb (List.length (ds ++ dd)) 0) = true).
{ destruct ds; [contradiction Hne; reflexivity|reflexivity]. }
destruct s; cbn [sign_text app].
- unfold parse_float, MINUS. simpl (45 =? 45)%N. cbv iota beta.
  rewrite (split_dot_digits ds dd Hds), Hds, Hdd, L. reflexivity.
- destruct ds as [|d0 ds']; [contradiction Hne; reflexivity|].
  pose proof Hds as Hds'. cbn [forallb] in Hds'.
  apply andb_true_iff in Hds'.
  destruct (digit_is_numeric d0 (proj1 Hds')) as (_ & _ & _ & _ & M).
  unfold MINUS in M. unfold parse_float. cbn [app]. rewrite M.
  cbv iota beta.
  change (d0 :: ds' ++ PERIOD :: dd) with ((d0 :: ds') ++ PERIOD :: dd).
  rewrite (split_dot_digits (d0 :: ds') dd Hds), Hds, Hdd, L. reflexivity.
Qed.

(** X24. The text [format_money] prints for a finite amount is read back
    by [to_number] as the double nearest to the amount rounded to
    hundredths, with its sign; the spaces between the groups of three
    digits do not get in the way. *)
Theorem to_number_reads_format_money : forall s m e,
to_number (CText (format_money (S754_finite s m e)))
= Ok (float_of_decimal s (cents m e) 2).
Proof.
intros s m e. unfold to_number. cbn [isna]. f_equal.
unfold format_money.
set (c := cents m e).
set (ds := digits_of_N (c / 100)).
assert (R : (c mod 100 < 100)%N) by (apply N.mod_lt; discriminate).
destruct (two_digits_value (c / 100) (c mod 100) R) as (Ddd & Vdd).
set (dd := two_digits (c mod 100)) in *.
assert (Dds : forallb is_digit ds = true).
{ unfold ds, digits_of_N. apply digits_fuel_digits. reflexivity. }
assert (Nds : ds <> []) by apply digits_of_N_nonempty.
assert (Kt : forallb keep_numeric (sign_text s ++ ds ++ PERIOD :: dd) = true).
{ rewrite !forallb_app. cbn [forallb].
  rewrite (digits_keep _ Dds), (digits_keep _ Ddd).
  destruct s; reflexivity. }
assert (T : number_text (sign_text s ++ group3 ds ++ PERIOD :: dd)
            = sign_text s ++ ds ++ PERIOD :: dd).
{ rewrite number_text_one_pass.
  change (fun c0 => is_digit c0 || (c0 =? COMMA)%N || (c0 =? PERIOD)%N
                    || (c0 =? MINUS)%N) with numeric_char.
  destruct (clean_text_fixed _ Kt) as [F Rp].
  rewrite !filter_app in *. rewrite (group3_filter _ Dds).
  assert (F1 : filter numeric_char (sign_text s) = sign_text s)
    by (destruct s; reflexivity).
  assert (F2 : filter numeric_char (PERIOD :: dd) = PERIOD :: dd).
  { cbn [filter]. change (numeric_char PERIOD) with true. cbn iota.
    f_equal. apply (clean_text_fixed _ (digits_keep _ Ddd)). }
  rewrite F1, F2. exact Rp. }
unfold to_number_text. rewrite T.
assert (V : digits_value (ds ++ dd) = c).
{ unfold digits_value. rewrite fold_left_app.
  change (fold_left (fun acc c0 => (acc * 10 + (c0 - 48))%N) ds 0%N)
    with (digits_value ds).
  unfold ds. rewrite digits_of_N_value, Vdd.
  pose proof (N.div_mod' c 100). lia. }
assert (P : parse_float (sign_text s ++ ds ++ PERIOD :: dd)
            = Some (float_of_decimal s c 2)).
{ rewrite (parse_float_decimal s ds dd Dds Ddd Nds), V. reflexivity. }
rewrite P.
destruct (sign_text s ++ ds ++ PERIOD :: dd) as [|a [|b [|c0 l]]] eqn:L.
- destruct s; destruct ds; discriminate.
- destruct s; destruct ds as [|? [|? ?]]; try discriminate;
    contradiction Nds; reflexivity.
- exfalso. apply (f_equal (@List.length N)) in L.
  rewrite !length_app in L. cbn [List.length] in L. unfold dd in L.
  cbn [two_digits List.length] in L.
  destruct ds; [contradiction Nds; reflexivity|]. cbn [List.length] in L.
  lia.
- rewrite degenerate_long. reflexivity.
Qed.
